(** * Clinic sign-up form: the shift store, its projection and its persistence

    A shallow embedding of [src/app/clinicsignup.tsx]: the [Shift] collection
    kept in React state and in [localStorage], the availability projection
    shown in the form, the admin upsert, the submit handler with its flag
    clearing, the zod form schema, and the load effect that rehydrates the
    collection.  The platform functions the component calls ([Date],
    [toISOString], [JSON.stringify], [JSON.parse]) are modelled after
    ECMA-262 on the inputs the component gives them.

    Layout: part I holds every definition, part II the lemmas and theorems. *)

From Stdlib Require Import ZArith Lia String Ascii List DecimalString.
From stdpp Require Import base option list gmap.
Local Open Scope Z_scope.
Set Warnings "-register-all".

(* ===================================================================== *)
(** * Part I: definitions *)
(* ===================================================================== *)

(** ** Strings

    A JavaScript string is a sequence of UTF-16 code units.  [lit] turns an
    ASCII literal into its code units; [json_text] does the same and reads a
    single quote as the double quote (code unit 34), for writing JSON
    texts. *)

Abbreviation jsstring := (list Z).

Definition lit (s : string) : jsstring :=
  map (fun a => Z.of_nat (nat_of_ascii a)) (list_ascii_of_string s).

Definition json_text (s : string) : jsstring :=
  map (fun c => if c =? 39 then 34 else c) (lit s).

Definition quoted (s : jsstring) : jsstring := [34] ++ s ++ [34].

(** [Array.prototype.includes] on an array of strings. *)
Definition includes (l : list jsstring) (x : jsstring) : bool :=
  bool_decide (x ∈ l).

(** ** Dates (ECMA-262, "Date Objects")

    A [Date] holds a time value: NaN ([InvalidDate]) or an integral number
    of milliseconds since the epoch, at most [maxTime] in absolute value. *)

Inductive Date := InvalidDate | TimeValue (t : Z).

Definition msPerDay : Z := 86400000.
Definition maxTime : Z := 8640000000000000.

Definition validDate (d : Date) : Prop :=
  match d with
  | InvalidDate => False
  | TimeValue t => - maxTime <= t <= maxTime
  end.

Definition TimeClip (t : Z) : Date :=
  if Z.abs t <=? maxTime then TimeValue t else InvalidDate.

(** [getTime()] yields a Number; [===] on Numbers is false on NaN. *)
Inductive number := NaN | Finite (z : Z).

Definition getTime (d : Date) : number :=
  match d with
  | InvalidDate => NaN
  | TimeValue t => Finite t
  end.

Definition strict_equal (a b : number) : bool :=
  match a, b with
  | Finite x, Finite y => x =? y
  | _, _ => false
  end.

Definition Day (t : Z) : Z := t / msPerDay.
Definition TimeWithinDay (t : Z) : Z := t mod msPerDay.

Definition DayFromYear (y : Z) : Z :=
  365 * (y - 1970) + (y - 1969) / 4 - (y - 1901) / 100 + (y - 1601) / 400.

Definition InLeapYear (y : Z) : bool :=
  (y mod 4 =? 0) && (negb (y mod 100 =? 0) || (y mod 400 =? 0)).

Definition leapDays (y : Z) : Z := if InLeapYear y then 1 else 0.

(** The year of a day number: the largest [y] with [DayFromYear y <= d]
    ([YearFromDay_spec] below).  The estimate is off by at most one. *)
Definition YearFromDay (d : Z) : Z :=
  let y := 1970 + (400 * d) / 146097 in
  if DayFromYear (y + 1) <=? d then y + 1
  else if DayFromYear y <=? d then y else y - 1.

Definition YearFromTime (t : Z) : Z := YearFromDay (Day t).
Definition DayWithinYear (t : Z) : Z := Day t - DayFromYear (YearFromTime t).

(** First day within the year of month [m] (0-based); [m = 12] gives the
    length of the year. *)
Definition monthStart (leap m : Z) : Z :=
  if m <=? 0 then 0 else if m =? 1 then 31
  else nth (Z.to_nat (m - 2)) [59; 90; 120; 151; 181; 212; 243; 273; 304; 334] 365
       + leap.

Definition MonthFromTime (t : Z) : Z :=
  let d := DayWithinYear t in
  let l := leapDays (YearFromTime t) in
  if d <? 31 then 0 else if d <? 59 + l then 1 else if d <? 90 + l then 2
  else if d <? 120 + l then 3 else if d <? 151 + l then 4
  else if d <? 181 + l then 5 else if d <? 212 + l then 6
  else if d <? 243 + l then 7 else if d <? 273 + l then 8
  else if d <? 304 + l then 9 else if d <? 334 + l then 10 else 11.

Definition DateFromTime (t : Z) : Z :=
  DayWithinYear t - monthStart (leapDays (YearFromTime t)) (MonthFromTime t) + 1.

Definition HourFromTime (t : Z) : Z := (t / 3600000) mod 24.
Definition MinFromTime (t : Z) : Z := (t / 60000) mod 60.
Definition SecFromTime (t : Z) : Z := (t / 1000) mod 60.
Definition msFromTime (t : Z) : Z := t mod 1000.

Definition MakeTime (h m s ms : Z) : Z := h * 3600000 + m * 60000 + s * 1000 + ms.
Definition MakeDay (y m dt : Z) : Z :=
  DayFromYear y + monthStart (leapDays y) m + dt - 1.
Definition MakeDate (day time : Z) : Z := day * msPerDay + time.
Definition DaysInMonth (y m : Z) : Z :=
  monthStart (leapDays y) (m + 1) - monthStart (leapDays y) m.

(** [pad k n]: the last [k] decimal digits of [n], as code units. *)
Fixpoint pad (k : nat) (n : Z) : jsstring :=
  match k with
  | O => []
  | S k' => pad k' (n / 10) ++ [48 + n mod 10]
  end.

(** Years 0..9999 print with four digits, the others with a sign and six. *)
Definition yearString (y : Z) : jsstring :=
  if (0 <=? y) && (y <=? 9999) then pad 4 y
  else (if y <? 0 then 45 else 43) :: pad 6 (Z.abs y).

(** [YYYY-MM-DDTHH:mm:ss.sssZ] for the time value [t]. *)
Definition isoString (t : Z) : jsstring :=
  yearString (YearFromTime t) ++ [45] ++ pad 2 (MonthFromTime t + 1)
  ++ [45] ++ pad 2 (DateFromTime t) ++ [84] ++ pad 2 (HourFromTime t)
  ++ [58] ++ pad 2 (MinFromTime t) ++ [58] ++ pad 2 (SecFromTime t)
  ++ [46] ++ pad 3 (msFromTime t) ++ [90].

(** [Date.prototype.toISOString]: [None] is the RangeError thrown on an
    invalid date. *)
Definition toISOString (d : Date) : option jsstring :=
  match d with
  | InvalidDate => None
  | TimeValue t => Some (isoString t)
  end.

Definition digit_value (c : Z) : option Z :=
  if (48 <=? c) && (c <=? 57) then Some (c - 48) else None.

Fixpoint read_digits (k : nat) (acc : Z) (cs : jsstring) : option (Z * jsstring) :=
  match k with
  | O => Some (acc, cs)
  | S k' =>
      match cs with
      | [] => None
      | c :: cs' =>
          match digit_value c with
          | Some v => read_digits k' (10 * acc + v) cs'
          | None => None
          end
      end
  end.

Definition expect (c : Z) (cs : jsstring) : option jsstring :=
  match cs with
  | x :: r => if x =? c then Some r else None
  | [] => None
  end.

(** The part of the date-time format after the year. *)
Definition parse_fields (y : Z) (cs : jsstring) : option Date :=
  cs ← expect 45 cs; '(mo, cs) ← read_digits 2 0 cs;
  cs ← expect 45 cs; '(dt, cs) ← read_digits 2 0 cs;
  cs ← expect 84 cs; '(h, cs) ← read_digits 2 0 cs;
  cs ← expect 58 cs; '(mi, cs) ← read_digits 2 0 cs;
  cs ← expect 58 cs; '(s, cs) ← read_digits 2 0 cs;
  cs ← expect 46 cs; '(ms, cs) ← read_digits 3 0 cs;
  cs ← expect 90 cs;
  match cs with
  | [] =>
      if (1 <=? mo) && (mo <=? 12) && (1 <=? dt) && (dt <=? DaysInMonth y (mo - 1))
         && (h <=? 23) && (mi <=? 59) && (s <=? 59)
      then Some (TimeClip (MakeDate (MakeDay y (mo - 1) dt) (MakeTime h mi s ms)))
      else None
  | _ :: _ => None
  end.

(** [Date.parse] on the complete UTC form of the date-time string format,
    every field in its calendar range: the one case in which ECMA-262 fixes
    the result for every engine.  [None] is any other string (shorter
    forms, local time, out-of-range fields, engine-specific formats), for
    which this model makes no statement. *)
Definition parse_iso (cs : jsstring) : option Date :=
  match cs with
  | [] => None
  | c :: rest =>
      if c =? 43 then '(y, r) ← read_digits 6 0 rest; parse_fields y r
      else if c =? 45 then
        '(y, r) ← read_digits 6 0 rest; if y =? 0 then None else parse_fields (- y) r
      else '(y, r) ← read_digits 4 0 cs; parse_fields y r
  end.

(** ** JSON texts (ECMA-404) and [JSON.parse]

    [JSON.parse] is modelled as a pushdown recogniser that reads the text
    one code unit at a time and builds the value; it is total, and a text
    it rejects is the SyntaxError of [JSON.parse].  A number keeps its
    lexeme: its rounding to a double is not modelled. *)

Unset Elimination Schemes.
Inductive json :=
| JNull
| JBool (b : bool)
| JNum (lexeme : jsstring)
| JStr (s : jsstring)
| JArr (items : list json)
| JObj (members : list (jsstring * json)).
Set Elimination Schemes.

(** An enclosing container that waits for the value being read; finished
    parts are kept in reverse. *)
Inductive frame :=
| InArr (done : list json)
| InObj (done : list (jsstring * json)) (key : jsstring).

Inductive strmode := SChars | SEscape | SHex (more : nat) (acc : Z).
Inductive strtarget := ForValue | ForKey (done : list (jsstring * json)).
Inductive nummode :=
  NMinus | NZero | NInt | NDot | NFrac | NExp | NExpSign | NExpDigits.

Inductive mode :=
| MValue
| MArrOpen
| MObjOpen
| MKey (done : list (jsstring * json))
| MColon (done : list (jsstring * json)) (key : jsstring)
| MString (tg : strtarget) (buf : jsstring) (sm : strmode)
| MNumber (nm : nummode) (buf : jsstring)
| MLiteral (rest : jsstring) (v : json)
| MArrNext (done : list json)
| MObjNext (done : list (jsstring * json))
| MDone (v : json).

Definition pstate : Type := list frame * mode.

Definition is_ws (c : Z) : bool := (c =? 32) || (c =? 9) || (c =? 10) || (c =? 13).
Definition is_digit (c : Z) : bool := (48 <=? c) && (c <=? 57).

Definition hex_value (c : Z) : option Z :=
  if (48 <=? c) && (c <=? 57) then Some (c - 48)
  else if (65 <=? c) && (c <=? 70) then Some (c - 55)
  else if (97 <=? c) && (c <=? 102) then Some (c - 87)
  else None.

(** A value is finished: hand it to the enclosing container. *)
Definition complete (v : json) (stack : list frame) : pstate :=
  match stack with
  | [] => ([], MDone v)
  | InArr done :: k => (k, MArrNext (v :: done))
  | InObj done key :: k => (k, MObjNext ((key, v) :: done))
  end.

Definition start_value (c : Z) (stack : list frame) : option pstate :=
  if c =? 91 then Some (stack, MArrOpen)
  else if c =? 123 then Some (stack, MObjOpen)
  else if c =? 34 then Some (stack, MString ForValue [] SChars)
  else if c =? 45 then Some (stack, MNumber NMinus [c])
  else if c =? 48 then Some (stack, MNumber NZero [c])
  else if is_digit c then Some (stack, MNumber NInt [c])
  else if c =? 116 then Some (stack, MLiteral (lit "rue") (JBool true))
  else if c =? 102 then Some (stack, MLiteral (lit "alse") (JBool false))
  else if c =? 110 then Some (stack, MLiteral (lit "ull") JNull)
  else None.

Definition after_value (c : Z) (st : pstate) : option pstate :=
  let '(stack, m) := st in
  if is_ws c then
    match m with
    | MArrNext _ | MObjNext _ | MDone _ => Some st
    | _ => None
    end
  else
    match m with
    | MArrNext done =>
        if c =? 44 then Some (InArr done :: stack, MValue)
        else if c =? 93 then Some (complete (JArr (rev done)) stack)
        else None
    | MObjNext done =>
        if c =? 44 then Some (stack, MKey done)
        else if c =? 125 then Some (complete (JObj (rev done)) stack)
        else None
    | _ => None
    end.

Definition num_step (nm : nummode) (c : Z) : option nummode :=
  let e := (c =? 101) || (c =? 69) in
  match nm with
  | NMinus => if c =? 48 then Some NZero else if is_digit c then Some NInt else None
  | NZero => if c =? 46 then Some NDot else if e then Some NExp else None
  | NInt => if is_digit c then Some NInt else if c =? 46 then Some NDot
            else if e then Some NExp else None
  | NDot => if is_digit c then Some NFrac else None
  | NFrac => if is_digit c then Some NFrac else if e then Some NExp else None
  | NExp => if (c =? 43) || (c =? 45) then Some NExpSign
            else if is_digit c then Some NExpDigits else None
  | NExpSign => if is_digit c then Some NExpDigits else None
  | NExpDigits => if is_digit c then Some NExpDigits else None
  end.

Definition num_final (nm : nummode) : bool :=
  match nm with
  | NZero | NInt | NFrac | NExpDigits => true
  | _ => false
  end.

Definition escape_unit (c : Z) : option Z :=
  if c =? 34 then Some 34 else if c =? 92 then Some 92 else if c =? 47 then Some 47
  else if c =? 98 then Some 8 else if c =? 102 then Some 12
  else if c =? 110 then Some 10 else if c =? 114 then Some 13
  else if c =? 116 then Some 9 else None.

Definition close_string (tg : strtarget) (s : jsstring) (stack : list frame) : pstate :=
  match tg with
  | ForValue => complete (JStr s) stack
  | ForKey done => (stack, MColon done s)
  end.

Definition step (st : pstate) (c : Z) : option pstate :=
  let '(stack, m) := st in
  match m with
  | MValue => if is_ws c then Some st else start_value c stack
  | MArrOpen =>
      if is_ws c then Some st
      else if c =? 93 then Some (complete (JArr []) stack)
      else start_value c (InArr [] :: stack)
  | MObjOpen =>
      if is_ws c then Some st
      else if c =? 125 then Some (complete (JObj []) stack)
      else if c =? 34 then Some (stack, MString (ForKey []) [] SChars)
      else None
  | MKey done =>
      if is_ws c then Some st
      else if c =? 34 then Some (stack, MString (ForKey done) [] SChars)
      else None
  | MColon done key =>
      if is_ws c then Some st
      else if c =? 58 then Some (InObj done key :: stack, MValue)
      else None
  | MString tg buf SChars =>
      if c =? 34 then Some (close_string tg (rev buf) stack)
      else if c =? 92 then Some (stack, MString tg buf SEscape)
      else if c <? 32 then None
      else Some (stack, MString tg (c :: buf) SChars)
  | MString tg buf SEscape =>
      if c =? 117 then Some (stack, MString tg buf (SHex 3 0))
      else match escape_unit c with
           | Some u => Some (stack, MString tg (u :: buf) SChars)
           | None => None
           end
  | MString tg buf (SHex more acc) =>
      match hex_value c with
      | Some v =>
          match more with
          | O => Some (stack, MString tg (16 * acc + v :: buf) SChars)
          | S more' => Some (stack, MString tg buf (SHex more' (16 * acc + v)))
          end
      | None => None
      end
  | MNumber nm buf =>
      match num_step nm c with
      | Some nm' => Some (stack, MNumber nm' (c :: buf))
      | None =>
          if num_final nm then after_value c (complete (JNum (rev buf)) stack)
          else None
      end
  | MLiteral rest v =>
      match rest with
      | x :: rest' =>
          if c =? x then
            match rest' with
            | [] => Some (complete v stack)
            | _ :: _ => Some (stack, MLiteral rest' v)
            end
          else None
      | [] => None
      end
  | MArrNext _ | MObjNext _ | MDone _ => after_value c st
  end.

Fixpoint run (st : pstate) (text : jsstring) : option pstate :=
  match text with
  | [] => Some st
  | c :: rest => st' ← step st c; run st' rest
  end.

(** End of the text: a complete top-level value must have been read. *)
Definition finish (st : pstate) : option json :=
  match st with
  | ([], MDone v) => Some v
  | ([], MNumber nm buf) => if num_final nm then Some (JNum (rev buf)) else None
  | _ => None
  end.

(** [JSON.parse(text)]; [None] is the SyntaxError. *)
Definition JSON_parse (text : jsstring) : option json :=
  st ← run ([], MValue) text; finish st.

(** ** The data model of the component *)

(** [type Shift = { date: Date; pediatricAvailable: boolean; adultAvailable: boolean }] *)
Record Shift := {
  date : Date;
  pediatricAvailable : bool;
  adultAvailable : bool
}.

Inductive ProviderType := pediatric | adult.

(** [type AvailableShift = { date: Date; providerType: "pediatric" | "adult" }];
    the projections carry a prefix, [date] being the one of [Shift]. *)
Record AvailableShift := {
  av_date : Date;
  av_providerType : ProviderType
}.

Definition ProviderType_eqb (a b : ProviderType) : bool :=
  match a, b with
  | pediatric, pediatric | adult, adult => true
  | _, _ => false
  end.

(** The availability flag of a shift for a provider type. *)
Definition available (p : ProviderType) (shift : Shift) : bool :=
  match p with
  | pediatric => pediatricAvailable shift
  | adult => adultAvailable shift
  end.

(** The spec's domain of Shift values: the date is a calendar date. *)
Definition validShift (shift : Shift) : Prop := validDate (date shift).

(** [shift.date.getTime() === other.getTime()] *)
Definition sameTime (a b : Date) : bool := strict_equal (getTime a) (getTime b).

(** ** Availability projection (lines 128-139)

    The callback of [flatMap] pushes a pediatric entry, then an adult
    entry; [filter] keeps an entry when [watchProviderType] is unset or
    equal to the entry's provider type. *)

Definition shiftEntries (shift : Shift) : list AvailableShift :=
  (if pediatricAvailable shift
   then [{| av_date := date shift; av_providerType := pediatric |}] else [])
  ++ (if adultAvailable shift
      then [{| av_date := date shift; av_providerType := adult |}] else []).

Definition keepEntry (watchProviderType : option ProviderType)
    (shift : AvailableShift) : bool :=
  match watchProviderType with
  | None => true
  | Some p => ProviderType_eqb (av_providerType shift) p
  end.

Definition availableShifts (shifts : list Shift)
    (watchProviderType : option ProviderType) : list AvailableShift :=
  List.filter (keepEntry watchProviderType) (List.flat_map shiftEntries shifts).

(** ** [JSON.stringify] on a [Shift[]]

    [Date.prototype.toJSON] gives the ISO string, or null for an invalid
    date; an ISO string needs no escaping ([isoString_plain]).  Properties
    are written in creation order: date, pediatricAvailable,
    adultAvailable. *)

Definition Date_toJSON (d : Date) : jsstring :=
  match toISOString d with
  | Some iso => quoted iso
  | None => lit "null"
  end.

Definition stringify_bool (b : bool) : jsstring :=
  if b then lit "true" else lit "false".

Definition stringify_Shift (shift : Shift) : jsstring :=
  lit "{" ++ quoted (lit "date") ++ lit ":" ++ Date_toJSON (date shift)
  ++ lit "," ++ quoted (lit "pediatricAvailable") ++ lit ":"
  ++ stringify_bool (pediatricAvailable shift)
  ++ lit "," ++ quoted (lit "adultAvailable") ++ lit ":"
  ++ stringify_bool (adultAvailable shift) ++ lit "}".

Fixpoint join_comma (parts : list jsstring) : jsstring :=
  match parts with
  | [] => []
  | x :: rest =>
      match rest with
      | [] => x
      | _ :: _ => x ++ lit "," ++ join_comma rest
      end
  end.

Definition JSON_stringify (shifts : list Shift) : jsstring :=
  lit "[" ++ join_comma (map stringify_Shift shifts) ++ lit "]".

(** ** The form schema (lines 30-44) *)

Record FormValues := {
  name : jsstring;
  email : jsstring;
  shiftDates : list jsstring;
  providerType : option ProviderType;   (* [None]: undefined *)
  notes : option jsstring
}.

(** [defaultValues] of [useForm] (lines 118-123). *)
Definition defaultValues : FormValues :=
  {| name := []; email := []; shiftDates := []; providerType := None;
     notes := Some [] |}.

Inductive Field := f_name | f_email | f_shiftDates | f_providerType | f_notes.

Definition FieldError : Type := Field * string.

Section Schema.

(** zod's [email()] check; the pattern belongs to the library. *)
Variable email_syntax : jsstring -> bool.

Definition formSchema (values : FormValues) : list FieldError :=
  (if (Z.of_nat (length (name values)) <? 2)
   then [(f_name, "Name must be at least 2 characters."%string)] else [])
  ++ (if email_syntax (email values) then []
      else [(f_email, "Please enter a valid email address."%string)])
  ++ (if (Z.of_nat (length (shiftDates values)) <? 1)
      then [(f_shiftDates, "Please select at least one shift date."%string)] else [])
  ++ (match providerType values with
      | Some _ => []
      | None => [(f_providerType, "Please select a provider type."%string)]
      end).

End Schema.

(** The email pattern of zod 3 ([emailRegex] as of version 3.23, matched
    without regard to case), as an instance of [email_syntax]: a local part made of
    letters, digits and [_ ' + - .] that does not start with a dot and
    ends in a letter, a digit or one of [_ + -]; the first [@]; one or
    more labels (a letter or digit, then letters, digits and hyphens),
    each followed by a dot; a top-level name of two letters or more; and
    no two dots in a row anywhere. *)

Definition is_letter (c : Z) : bool :=
  ((65 <=? c) && (c <=? 90)) || ((97 <=? c) && (c <=? 122)).
Definition is_alnum (c : Z) : bool := is_letter c || is_digit c.
Definition local_unit (c : Z) : bool :=
  is_alnum c || (c =? 95) || (c =? 39) || (c =? 43) || (c =? 45) || (c =? 46).
Definition local_last (c : Z) : bool :=
  is_alnum c || (c =? 95) || (c =? 43) || (c =? 45).

(** The parts before and after the first [sep]. *)
Fixpoint split_first (sep : Z) (s : jsstring) : option (jsstring * jsstring) :=
  match s with
  | [] => None
  | c :: r =>
      if c =? sep then Some ([], r)
      else '(a, b) ← split_first sep r; Some (c :: a, b)
  end.

(** [s.split(sep)] for a one-unit separator. *)
Fixpoint split_all (sep : Z) (s : jsstring) : list jsstring :=
  match s with
  | [] => [[]]
  | c :: r =>
      if c =? sep then [] :: split_all sep r
      else match split_all sep r with
           | p :: ps => (c :: p) :: ps
           | [] => [[c]]
           end
  end.

Fixpoint has_double_dot (s : jsstring) : bool :=
  match s with
  | c :: r =>
      match r with
      | c' :: _ => ((c =? 46) && (c' =? 46)) || has_double_dot r
      | [] => false
      end
  | [] => false
  end.

Definition label_ok (l : jsstring) : bool :=
  match l with
  | c :: r => is_alnum c && forallb (fun x => is_alnum x || (x =? 45)) r
  | [] => false
  end.

Definition tld_ok (l : jsstring) : bool :=
  forallb is_letter l && (2 <=? Z.of_nat (length l)).

Definition domain_ok (d : jsstring) : bool :=
  match rev (split_all 46 d) with
  | tld :: l :: ls => tld_ok tld && forallb label_ok (l :: ls)
  | _ => false
  end.

Definition zod_email (s : jsstring) : bool :=
  match split_first 64 s with
  | Some (loc, dom) =>
      negb (has_double_dot s)
      && match rev loc with
         | c :: init =>
             local_last c && forallb local_unit init
             && negb (match loc with x :: _ => x =? 46 | [] => false end)
         | [] => false
         end
      && domain_ok dom
  | None => false
  end.

(** ** Component state and effects

    [localStorage] is the item stored under the key "clinicShifts" ([None]
    when absent), [console] the messages written by [console.error], and
    [posted] the bodies handed to [axios.post].  [isAdmin] and [isClient]
    only choose what is rendered and are left out. *)

Inductive Exn := SyntaxError | TypeError | RangeError | AxiosError.

Inductive LogEntry :=
| ErrorParsingStoredShifts (e : Exn)
| SubmissionError (e : Exn).

(** The outcome of the POST: axios rejects on a transport error and on a
    status outside 200..299. *)
Inductive Response := NetworkError | HttpStatus (code : Z).

Definition resolved (r : Response) : bool :=
  match r with
  | NetworkError => false
  | HttpStatus code => (200 <=? code) && (code <? 300)
  end.

(** [{ ...values, _cc: "chasecomprosky@ufl.edu" }] *)
Record Payload := {
  body : FormValues;
  _cc : jsstring
}.

Record State := {
  isSubmitting : bool;
  submitSuccess : bool;
  shifts : list Shift;
  selectedDate : option Date;
  formValues : FormValues;
  formErrors : list FieldError;
  localStorage : option jsstring;
  console : list LogEntry;
  posted : list Payload
}.

(** The state after the first render, before the load effect. *)
Definition initialState (stored : option jsstring) : State :=
  {| isSubmitting := false; submitSuccess := false; shifts := [];
     selectedDate := None; formValues := defaultValues; formErrors := [];
     localStorage := stored; console := []; posted := [] |}.

(** ** [addOrUpdateShift] (lines 178-191) *)

(** [Array.prototype.findIndex]; [None] stands for -1. *)
Fixpoint findIndex {A} (p : A -> bool) (l : list A) : option nat :=
  match l with
  | [] => None
  | x :: r => if p x then Some O else S <$> findIndex p r
  end.

Definition upsert (shifts : list Shift) (newShift : Shift) : list Shift :=
  match findIndex (fun shift => sameTime (date shift) (date newShift)) shifts with
  | Some existingShiftIndex =>
      imap (fun index shift =>
              if Nat.eqb index existingShiftIndex then newShift else shift) shifts
  | None => shifts ++ [newShift]
  end.

Definition addOrUpdateShift (newShift : Shift) (st : State) : State :=
  let updatedShifts := upsert (shifts st) newShift in
  {| isSubmitting := isSubmitting st; submitSuccess := submitSuccess st;
     shifts := updatedShifts;
     selectedDate := None;
     formValues := formValues st; formErrors := formErrors st;
     localStorage := Some (JSON_stringify updatedShifts);
     console := console st; posted := posted st |}.

(** ** [onSubmit] (lines 147-176) *)

(** The body of the [map] callback once [shiftDateString] is known: the
    two assignments to the shift's flags. *)
Definition clearBooked (shiftDates : list jsstring) (shiftDateString : jsstring)
    (shift : Shift) : Shift :=
  {| date := date shift;
     pediatricAvailable :=
       if includes shiftDates (shiftDateString ++ lit "-pediatric")
       then false else pediatricAvailable shift;
     adultAvailable :=
       if includes shiftDates (shiftDateString ++ lit "-adult")
       then false else adultAvailable shift |}.

(** [shifts.map(...)] of lines 158-167.  The callback assigns to the shift
    objects of the current state, so when [toISOString] throws at an
    invalid date the shifts before it stay cleared in memory: [MapThrew]
    carries the objects as the aborted loop leaves them. *)
Inductive MapResult :=
| MapDone (updatedShifts : list Shift)
| MapThrew (mutated : list Shift).

Fixpoint clearBookedShifts (shiftDates : list jsstring) (shifts : list Shift)
    : MapResult :=
  match shifts with
  | [] => MapDone []
  | shift :: rest =>
      match toISOString (date shift) with
      | None => MapThrew (shift :: rest)
      | Some shiftDateString =>
          let shift' := clearBooked shiftDates shiftDateString shift in
          match clearBookedShifts shiftDates rest with
          | MapDone updated => MapDone (shift' :: updated)
          | MapThrew mutated => MapThrew (shift' :: mutated)
          end
      end
  end.

Definition cc_address : jsstring := lit "chasecomprosky@ufl.edu".

(** [setIsSubmitting(true)] and the call of [axios.post]. *)
Definition onSubmit_start (values : FormValues) (st : State) : State :=
  {| isSubmitting := true; submitSuccess := submitSuccess st;
     shifts := shifts st; selectedDate := selectedDate st;
     formValues := formValues st; formErrors := formErrors st;
     localStorage := localStorage st; console := console st;
     posted := posted st ++ [{| body := values; _cc := cc_address |}] |}.

(** The rest of [onSubmit], once the POST has settled with [r]; no other
    handler runs in between. *)
Definition onSubmit_settle (r : Response) (values : FormValues) (st : State) : State :=
  if resolved r then
    match clearBookedShifts (shiftDates values) (shifts st) with
    | MapDone updatedShifts =>
        {| isSubmitting := false; submitSuccess := true;
           shifts := updatedShifts; selectedDate := selectedDate st;
           formValues := defaultValues; formErrors := [];
           localStorage := Some (JSON_stringify updatedShifts);
           console := console st; posted := posted st |}
    | MapThrew mutated =>
        {| isSubmitting := false; submitSuccess := false;
           shifts := mutated; selectedDate := selectedDate st;
           formValues := defaultValues; formErrors := [];
           localStorage := localStorage st;
           console := console st ++ [SubmissionError RangeError];
           posted := posted st |}
    end
  else
    {| isSubmitting := false; submitSuccess := false;
       shifts := shifts st; selectedDate := selectedDate st;
       formValues := formValues st; formErrors := formErrors st;
       localStorage := localStorage st;
       console := console st ++ [SubmissionError AxiosError];
       posted := posted st |}.

Definition onSubmit (r : Response) (values : FormValues) (st : State) : State :=
  onSubmit_settle r values (onSubmit_start values st).

(** [form.handleSubmit(onSubmit)]: the resolver runs the schema on the
    form's values; with no error the form's errors are cleared and
    [onSubmit] is called, otherwise the errors are set and [onSubmit] is
    not called. *)
Definition clearErrors (st : State) : State :=
  {| isSubmitting := isSubmitting st; submitSuccess := submitSuccess st;
     shifts := shifts st; selectedDate := selectedDate st;
     formValues := formValues st; formErrors := [];
     localStorage := localStorage st; console := console st;
     posted := posted st |}.

Definition handleSubmit (email_syntax : jsstring -> bool) (r : Response)
    (st : State) : State :=
  match formSchema email_syntax (formValues st) with
  | [] => onSubmit r (formValues st) (clearErrors st)
  | errors =>
      {| isSubmitting := isSubmitting st; submitSuccess := submitSuccess st;
         shifts := shifts st; selectedDate := selectedDate st;
         formValues := formValues st; formErrors := errors;
         localStorage := localStorage st; console := console st;
         posted := posted st |}
  end.

(** ** The load effect (lines 95-109)

    [JSON.parse(storedShifts).map((shift: any) => ({ ...shift, date: new
    Date(shift.date) }))] runs on whatever text is stored, so its result is
    not typed: a [ParsedShift] is the object the callback builds, with its
    [date] and the properties the spread copied. *)

(** The value of [new Date(v)] when it returns one ([toPrimitiveThrows]
    below says when it throws instead): [Known] where ECMA-262 fixes it
    without floating point or engine-specific parsing, [HostDefined v]
    otherwise (numbers, arrays, objects, strings outside [parse_iso]). *)
Inductive DateValue := Known (d : Date) | HostDefined (v : json).

Definition newDate (v : option json) : DateValue :=
  match v with
  | None => Known InvalidDate                 (* new Date(undefined) *)
  | Some JNull => Known (TimeValue 0)
  | Some (JBool b) => Known (TimeValue (if b then 1 else 0))
  | Some (JStr s) =>
      match parse_iso s with
      | Some d => Known d
      | None => HostDefined (JStr s)
      end
  | Some v => HostDefined v
  end.

Definition index_key (i : nat) : jsstring :=
  lit (NilZero.string_of_uint (Nat.to_uint i)).

(** The own enumerable properties of a parsed JSON value, as the spread
    [{ ...shift }] copies them; a later duplicate key of an object
    replaces an earlier one. *)
Definition ownProperties (v : json) : gmap jsstring json :=
  match v with
  | JObj members => fold_left (fun m kv => <[kv.1 := kv.2]> m) members ∅
  | JArr items => list_to_map (imap (fun i x => (index_key i, x)) items)
  | JStr s => list_to_map (imap (fun i c => (index_key i, JStr [c])) s)
  | _ => ∅
  end.

Record ParsedShift := {
  p_date : DateValue;
  p_rest : gmap jsstring json       (* the properties other than [date] *)
}.

(** [new Date(v)] converts an object or array [v] with ToPrimitive, which
    throws a TypeError when it finds no method that returns a primitive
    value.  A value of [JSON.parse] has [Object.prototype] or
    [Array.prototype] as its prototype and no callable property of its own.
    For an object, [Object.prototype.valueOf] returns the object itself,
    so the conversion rests on [toString]: an own property of that name,
    never callable, hides [Object.prototype.toString] and the conversion
    throws.  For an array, [Array.prototype.toString] joins the strings of
    the elements that are not null, and throws when the conversion of one
    of them does. *)
Fixpoint toPrimitiveThrows (v : json) : bool :=
  match v with
  | JObj members => existsb (fun kv => bool_decide (kv.1 = lit "toString")) members
  | JArr items => existsb toPrimitiveThrows items
  | _ => false
  end.

(** The [map] callback throws on [shift]: [shift.date] is read of null,
    or [new Date(shift.date)] throws. *)
Definition dateThrows (shift : json) : bool :=
  match shift with
  | JNull => true
  | _ => from_option toPrimitiveThrows false (ownProperties shift !! lit "date")
  end.

(** The [map] callback; [None] is its TypeError. *)
Definition parseShift (shift : json) : option ParsedShift :=
  if dateThrows shift then None
  else
    let props := ownProperties shift in
    Some {| p_date := newDate (props !! lit "date");
            p_rest := delete (lit "date") props |}.

Record LoadResult := {
  loaded : list ParsedShift;          (* [shifts] after the effect *)
  load_console : list LogEntry
}.

(** The effect on mount, from the empty initial [shifts]: an absent or
    empty item is falsy and skips the block; a throw inside [try] is
    caught and logged, and [setShifts] is not reached. *)
Definition loadShifts (storedShifts : option jsstring) : LoadResult :=
  match storedShifts with
  | None | Some [] => {| loaded := []; load_console := [] |}
  | Some text =>
      match JSON_parse text with
      | None =>
          {| loaded := []; load_console := [ErrorParsingStoredShifts SyntaxError] |}
      | Some (JArr items) =>
          match mapM parseShift items with
          | Some parsedShifts => {| loaded := parsedShifts; load_console := [] |}
          | None =>
              {| loaded := []; load_console := [ErrorParsingStoredShifts TypeError] |}
          end
      | Some _ =>
          {| loaded := []; load_console := [ErrorParsingStoredShifts TypeError] |}
      end
  end.

(** A [Shift] as the object it is in memory. *)
Definition shiftObject (shift : Shift) : ParsedShift :=
  {| p_date := Known (date shift);
     p_rest := <[lit "pediatricAvailable" := JBool (pediatricAvailable shift)]>
               (<[lit "adultAvailable" := JBool (adultAvailable shift)]> ∅) |}.

(** Reading a loaded object at the type [Shift]: a known date and two
    boolean flags.  Other properties of the object, and the order of its
    keys, are not part of the reading. *)
Definition asShift (p : ParsedShift) : option Shift :=
  match p_date p, p_rest p !! lit "pediatricAvailable",
        p_rest p !! lit "adultAvailable" with
  | Known d, Some (JBool ped), Some (JBool ad) =>
      Some {| date := d; pediatricAvailable := ped; adultAvailable := ad |}
  | _, _, _ => None
  end.

(** A persisted text can be deserialized into a Shift collection when the
    load effect turns it into objects that read as Shifts with valid
    dates. *)
Definition deserializable (text : jsstring) : Prop :=
  exists (S : list Shift),
    mapM asShift (loaded (loadShifts (Some text))) = Some S
    /\ load_console (loadShifts (Some text)) = []
    /\ Forall validShift S.

(** ** The store invariant: at most one Shift per timestamp *)

Definition oneShiftPerDate (shifts : list Shift) : Prop :=
  forall (i j : nat) (a b : Shift),
    shifts !! i = Some a -> shifts !! j = Some b ->
    sameTime (date a) (date b) = true -> i = j.

(** JSON strings that need no escape: no control unit, quote or backslash. *)
Definition plain (c : Z) : Prop := 32 <= c /\ c <> 34 /\ c <> 92.

(** The JSON value [JSON.stringify] writes for a shift. *)
Definition Shift_json (shift : Shift) : json :=
  JObj [(lit "date",
         match toISOString (date shift) with
         | Some iso => JStr iso
         | None => JNull
         end);
        (lit "pediatricAvailable", JBool (pediatricAvailable shift));
        (lit "adultAvailable", JBool (adultAvailable shift))].

(** ** Vocabulary of the statements *)

#[global] Instance Date_eq_dec : EqDecision Date.
Proof. solve_decision. Defined.

#[global] Instance ProviderType_eq_dec : EqDecision ProviderType.
Proof. solve_decision. Defined.

#[global] Instance AvailableShift_eq_dec : EqDecision AvailableShift.
Proof. solve_decision. Defined.

(** The entry a shift contributes for a provider type. *)
Definition entry (shift : Shift) (p : ProviderType) : AvailableShift :=
  {| av_date := date shift; av_providerType := p |}.

(** [shift] is a source of the entry [e]: same date, flag of [e]'s provider
    type set. *)
Definition yields (e : AvailableShift) (shift : Shift) : bool :=
  bool_decide (date shift = av_date e) && available (av_providerType e) shift.

(** The shift objects in memory after the clearing loop, however it ended. *)
Definition memory (r : MapResult) : list Shift :=
  match r with
  | MapDone updatedShifts => updatedShifts
  | MapThrew mutated => mutated
  end.

(** What the loop does to one shift whose date is valid. *)
Definition clearedShift (shiftDates : list jsstring) (shift : Shift) : Shift :=
  match toISOString (date shift) with
  | Some shiftDateString => clearBooked shiftDates shiftDateString shift
  | None => shift
  end.

(** The slot identifier of a shift for a provider type, the checkbox value
    of lines 290-293. *)
Definition slotId (shiftDateString : jsstring) (p : ProviderType) : jsstring :=
  shiftDateString ++ match p with
                     | pediatric => lit "-pediatric"
                     | adult => lit "-adult"
                     end.

(** The POST failed: a transport error or a status outside 200..299. *)
Definition failed (r : Response) : Prop :=
  r = NetworkError \/ exists code, r = HttpStatus code /\ ~ (200 <= code < 300).

(** The [try] block of the load effect throws [e] on [text]: the text is
    not JSON; or its value is no array, so has no [map] to call; or the
    callback throws on an element of the array, one that is null or whose
    date cannot be converted. *)
Definition loadThrows (text : jsstring) (e : Exn) : Prop :=
  (JSON_parse text = None /\ e = SyntaxError)
  \/ (exists v, JSON_parse text = Some v /\ (forall items, v <> JArr items)
      /\ e = TypeError)
  \/ (exists items, JSON_parse text = Some (JArr items)
      /\ Exists (fun item => dateThrows item = true) items
      /\ e = TypeError).

(** The handlers that write the store, as events of the component. *)
Inductive Event :=
| Save (newShift : Shift)
| SubmitForm (r : Response) (values : FormValues).

Definition react (st : State) (e : Event) : State :=
  match e with
  | Save newShift => addOrUpdateShift newShift st
  | SubmitForm r values => onSubmit r values st
  end.

(** ** The spec's scenario values *)

(** 2024-06-01T00:00:00.000Z and 2024-07-04T00:00:00.000Z. *)
Definition june1 : Date := TimeValue 1717200000000.
Definition july4 : Date := TimeValue 1720051200000.

Definition scenarioStore : list Shift :=
  [{| date := june1; pediatricAvailable := true; adultAvailable := false |}].

Definition scenarioValues : FormValues :=
  {| name := lit "Dr. Jane Doe"; email := lit "doctor@example.com";
     shiftDates := [lit "2024-06-01T00:00:00.000Z-pediatric"];
     providerType := Some pediatric; notes := Some [] |}.

Definition scenarioState : State :=
  {| isSubmitting := false; submitSuccess := false; shifts := scenarioStore;
     selectedDate := None; formValues := scenarioValues; formErrors := [];
     localStorage := Some (JSON_stringify scenarioStore); console := [];
     posted := [] |}.

(** The rejected inputs of the spec: name "A", email "not-an-email", no
    shift date, no provider type. *)
Definition rejectedValues : FormValues :=
  {| name := lit "A"; email := lit "not-an-email"; shiftDates := [];
     providerType := None; notes := Some [] |}.

Definition rejectedState : State :=
  {| isSubmitting := false; submitSuccess := false; shifts := scenarioStore;
     selectedDate := None; formValues := rejectedValues; formErrors := [];
     localStorage := Some (JSON_stringify scenarioStore); console := [];
     posted := [] |}.

(** Noon of the scenario's day, and a submission that books a slot of no
    stored Shift. *)
Definition june1_noon : Date := TimeValue 1717243200000.

Definition strayValues : FormValues :=
  {| name := lit "Dr. Jane Doe"; email := lit "doctor@example.com";
     shiftDates := [lit "2024-12-25T00:00:00.000Z-adult"];
     providerType := Some adult; notes := None |}.

(** A Shift with an Invalid Date. *)
Definition undatedShift : Shift :=
  {| date := InvalidDate; pediatricAvailable := false; adultAvailable := false |}.

(** ** The admin editor (lines 46-85 and 213-220)

    [ShiftSelector] keeps two booleans, set by its effect from
    [currentShift] and by its two checkboxes, and hands [onSave] a new
    Shift made of its [date] and the two. *)

(** [shifts.find((shift) => shift.date.getTime() === selectedDate.getTime())] *)
Definition currentShift (shifts : list Shift) (selectedDate : Date) : option Shift :=
  List.find (fun shift => sameTime (date shift) selectedDate) shifts.

(** The two [useState] of the selector. *)
Record Toggles := {
  tg_pediatricAvailable : bool;
  tg_adultAvailable : bool
}.

(** The effect of lines 58-61: [currentShift?.pediatricAvailable ?? false]
    and [currentShift?.adultAvailable ?? false]. *)
Definition seedToggles (currentShift : option Shift) : Toggles :=
  {| tg_pediatricAvailable := from_option pediatricAvailable false currentShift;
     tg_adultAvailable := from_option adultAvailable false currentShift |}.

(** [{ date, pediatricAvailable, adultAvailable }] of line 82. *)
Definition selectorShift (d : Date) (tg : Toggles) : Shift :=
  {| date := d; pediatricAvailable := tg_pediatricAvailable tg;
     adultAvailable := tg_adultAvailable tg |}.

(** ** The slot list of the form (lines 280-307)

    Each entry of [availableShifts] is rendered as a checkbox whose key, id
    and value are [`${shift.date.toISOString()}-${shift.providerType}`];
    [None] is the RangeError [toISOString] throws during the render. *)

Definition slotValue (shift : AvailableShift) : option jsstring :=
  shiftDateString ← toISOString (av_date shift);
  Some (slotId shiftDateString (av_providerType shift)).

Record SlotCheckbox := {
  cb_value : jsstring;
  cb_checked : bool                  (* [field.value?.includes(value)] *)
}.

Definition slotCheckbox (fieldValue : list jsstring) (shift : AvailableShift)
    : option SlotCheckbox :=
  value ← slotValue shift;
  Some {| cb_value := value; cb_checked := includes fieldValue value |}.

(** The checkboxes for the Shifts [shifts] and the form's [values], whose
    [providerType] is [watchProviderType]. *)
Definition slotCheckboxes (shifts : list Shift) (values : FormValues)
    : option (list SlotCheckbox) :=
  mapM (slotCheckbox (shiftDates values))
       (availableShifts shifts (providerType values)).

(** [onCheckedChange] of lines 292-299, as the new value of the field:
    [[...field.value, value]] or [field.value.filter((v) => v !== value)]. *)
Definition onCheckedChange (value : jsstring) (checked : bool)
    (fieldValue : list jsstring) : list jsstring :=
  if checked then fieldValue ++ [value]
  else List.filter (fun v => negb (bool_decide (v = value))) fieldValue.

(** The entry's checkbox value is among the submitted [shiftDates]. *)
Definition booked (shiftDates : list jsstring) (e : AvailableShift) : bool :=
  match slotValue e with
  | Some value => includes shiftDates value
  | None => false
  end.

(** A Shift as a reload gives it back: an invalid date is written as null
    and read as the epoch. *)
Definition reloaded (shift : Shift) : Shift :=
  match date shift with
  | InvalidDate =>
      {| date := TimeValue 0; pediatricAvailable := pediatricAvailable shift;
         adultAvailable := adultAvailable shift |}
  | TimeValue _ => shift
  end.

(** The stored text is the collection in memory. *)
Definition persisted (st : State) : Prop :=
  localStorage st = Some (JSON_stringify (shifts st)).

(** A save of a Shift with a valid date, or a submission. *)
Definition validEvent (e : Event) : Prop :=
  match e with
  | Save newShift => validShift newShift
  | SubmitForm _ _ => True
  end.

(** ** The component with its objects

    A Shift is an object: [onSubmit] assigns to the flags of the objects of
    the [shifts] array it was created with, an array that later renders may
    have replaced, and the effect of [ShiftSelector] runs again when
    [currentShift] is another object.  A [Page] keeps the objects apart
    from the arrays that refer to them: a reference is the position of the
    object among the objects created so far.

    Of React this takes the following.  A handler sees the state of the
    render that created it, so the [onSubmit] that awaits its POST keeps
    the [shifts] of the render in which the form was submitted.  The
    updates made by one handler, or by the continuation after the [await],
    are applied in one render.  [ShiftSelector] keeps its state while it
    stays mounted; its effect runs on mount and after a render in which
    [currentShift] is not what it was in the render before.  An error
    thrown while rendering takes the component off the screen.  The error
    messages of the form are left out. *)

(** A mounted [ShiftSelector]: its two pieces of state and the
    [currentShift] its effect last ran for. *)
Record Selector := {
  sel_toggles : Toggles;
  sel_currentShift : option nat
}.

(** The call of [onSubmit] that awaits [axios.post]: its argument and the
    [shifts] of the render that created it. *)
Record Pending := {
  pend_values : FormValues;
  pend_shifts : list nat
}.

Record Page := {
  pg_objects : list Shift;
  pg_shifts : list nat;
  pg_isSubmitting : bool;
  pg_submitSuccess : bool;
  pg_isAdmin : bool;
  pg_selectedDate : option Date;
  pg_isClient : bool;
  pg_selector : option Selector;
  pg_form : FormValues;
  pg_storage : option jsstring;
  pg_console : list LogEntry;
  pg_posted : list Payload;
  pg_pending : option Pending
}.

(** The object a reference denotes; every reference of a page denotes
    one ([consistent] below), the default is never met. *)
#[global] Instance Shift_inhabited : Inhabited Shift :=
  populate {| date := InvalidDate; pediatricAvailable := false;
              adultAvailable := false |}.

(** The Shifts an array refers to. *)
Definition deref (objects : list Shift) (array : list nat) : list Shift :=
  map (fun r => objects !!! r) array.

Definition shiftsOf (pg : Page) : list Shift := deref (pg_objects pg) (pg_shifts pg).

(** The first render: the [useState] initial values (lines 88-93) and the
    form's default values. *)
Definition initialPage (stored : option jsstring) : Page :=
  {| pg_objects := []; pg_shifts := []; pg_isSubmitting := false;
     pg_submitSuccess := false; pg_isAdmin := false; pg_selectedDate := None;
     pg_isClient := false; pg_selector := None; pg_form := defaultValues;
     pg_storage := stored; pg_console := []; pg_posted := [];
     pg_pending := None |}.

(** The page with another selector, and with other form values. *)
Definition with_selector (selector : option Selector) (pg : Page) : Page :=
  {| pg_objects := pg_objects pg; pg_shifts := pg_shifts pg;
     pg_isSubmitting := pg_isSubmitting pg; pg_submitSuccess := pg_submitSuccess pg;
     pg_isAdmin := pg_isAdmin pg; pg_selectedDate := pg_selectedDate pg;
     pg_isClient := pg_isClient pg; pg_selector := selector;
     pg_form := pg_form pg; pg_storage := pg_storage pg;
     pg_console := pg_console pg; pg_posted := pg_posted pg;
     pg_pending := pg_pending pg |}.

Definition with_form (values : FormValues) (pg : Page) : Page :=
  {| pg_objects := pg_objects pg; pg_shifts := pg_shifts pg;
     pg_isSubmitting := pg_isSubmitting pg; pg_submitSuccess := pg_submitSuccess pg;
     pg_isAdmin := pg_isAdmin pg; pg_selectedDate := pg_selectedDate pg;
     pg_isClient := pg_isClient pg; pg_selector := pg_selector pg;
     pg_form := values; pg_storage := pg_storage pg;
     pg_console := pg_console pg; pg_posted := pg_posted pg;
     pg_pending := pg_pending pg |}.

(** The effect on mount (lines 95-114), for a stored item whose objects
    read as Shifts ([asShift]); [adminParam] is the value of
    [urlParams.get("admin")].  A loaded object is kept as the Shift it
    reads as: properties other than the three, and the order of the keys,
    which the code keeps and [JSON.stringify] writes back, are not.  What
    a page stores is therefore the text the code stores when the item it
    was mounted from is the component's own ([ownStorage]), and the
    statements about the stored text ask for that. *)
Definition mountEffect (adminParam : option jsstring) (pg : Page) : option Page :=
  let result := loadShifts (pg_storage pg) in
  parsedShifts ← mapM asShift (loaded result);
  Some {| pg_objects := pg_objects pg ++ parsedShifts;
          pg_shifts := seq (length (pg_objects pg)) (length parsedShifts);
          pg_isSubmitting := pg_isSubmitting pg;
          pg_submitSuccess := pg_submitSuccess pg;
          pg_isAdmin := bool_decide (adminParam = Some (lit "true"));
          pg_selectedDate := pg_selectedDate pg;
          pg_isClient := true; pg_selector := pg_selector pg;
          pg_form := pg_form pg; pg_storage := pg_storage pg;
          pg_console := pg_console pg ++ load_console result;
          pg_posted := pg_posted pg; pg_pending := pg_pending pg |}.

(** [handleDateSelect] (lines 141-145) *)
Definition handleDateSelect (day : option Date) (pg : Page) : Page :=
  match day with
  | Some d =>
      {| pg_objects := pg_objects pg; pg_shifts := pg_shifts pg;
         pg_isSubmitting := pg_isSubmitting pg;
         pg_submitSuccess := pg_submitSuccess pg;
         pg_isAdmin := pg_isAdmin pg; pg_selectedDate := Some d;
         pg_isClient := pg_isClient pg; pg_selector := pg_selector pg;
         pg_form := pg_form pg; pg_storage := pg_storage pg;
         pg_console := pg_console pg; pg_posted := pg_posted pg;
         pg_pending := pg_pending pg |}
  | None => pg
  end.

(** [() => setIsAdmin(false)] (line 337) *)
Definition switchToProviderView (pg : Page) : Page :=
  {| pg_objects := pg_objects pg; pg_shifts := pg_shifts pg;
     pg_isSubmitting := pg_isSubmitting pg; pg_submitSuccess := pg_submitSuccess pg;
     pg_isAdmin := false; pg_selectedDate := pg_selectedDate pg;
     pg_isClient := pg_isClient pg; pg_selector := pg_selector pg;
     pg_form := pg_form pg; pg_storage := pg_storage pg;
     pg_console := pg_console pg; pg_posted := pg_posted pg;
     pg_pending := pg_pending pg |}.

(** The test of [findIndex] and [find] on an element of the array. *)
Definition refSameTime (objects : list Shift) (d : Date) (r : nat) : bool :=
  sameTime (date (objects !!! r)) d.

(** [onSave] of the selector, which is [addOrUpdateShift] (lines 178-191),
    called with the new object [{ date, pediatricAvailable,
    adultAvailable }] of line 82. *)
Definition onSave (pg : Page) : option Page :=
  sel ← pg_selector pg;
  d ← pg_selectedDate pg;
  let newShift := selectorShift d (sel_toggles sel) in
  let new := length (pg_objects pg) in
  let objects := pg_objects pg ++ [newShift] in
  let updatedShifts :=
    match findIndex (refSameTime (pg_objects pg) (date newShift)) (pg_shifts pg) with
    | Some existingShiftIndex =>
        imap (fun index r => if Nat.eqb index existingShiftIndex then new else r)
          (pg_shifts pg)
    | None => pg_shifts pg ++ [new]
    end in
  Some {| pg_objects := objects; pg_shifts := updatedShifts;
          pg_isSubmitting := pg_isSubmitting pg;
          pg_submitSuccess := pg_submitSuccess pg;
          pg_isAdmin := pg_isAdmin pg; pg_selectedDate := None;
          pg_isClient := pg_isClient pg; pg_selector := pg_selector pg;
          pg_form := pg_form pg;
          pg_storage := Some (JSON_stringify (deref objects updatedShifts));
          pg_console := pg_console pg; pg_posted := pg_posted pg;
          pg_pending := pg_pending pg |}.

(** [setPediatricAvailable(checked)] and [setAdultAvailable(checked)] *)
Definition setPediatricAvailable (checked : bool) (sel : Selector) : Selector :=
  {| sel_toggles := {| tg_pediatricAvailable := checked;
                       tg_adultAvailable := tg_adultAvailable (sel_toggles sel) |};
     sel_currentShift := sel_currentShift sel |}.

Definition setAdultAvailable (checked : bool) (sel : Selector) : Selector :=
  {| sel_toggles := {| tg_pediatricAvailable := tg_pediatricAvailable (sel_toggles sel);
                       tg_adultAvailable := checked |};
     sel_currentShift := sel_currentShift sel |}.

(** [form.handleSubmit(onSubmit)] up to the [await]: with no schema error
    [onSubmit] is called with the values and runs to [axios.post]. *)
Definition submitForm (email_syntax : jsstring -> bool) (pg : Page) : Page :=
  match formSchema email_syntax (pg_form pg) with
  | [] =>
      {| pg_objects := pg_objects pg; pg_shifts := pg_shifts pg;
         pg_isSubmitting := true; pg_submitSuccess := pg_submitSuccess pg;
         pg_isAdmin := pg_isAdmin pg; pg_selectedDate := pg_selectedDate pg;
         pg_isClient := pg_isClient pg; pg_selector := pg_selector pg;
         pg_form := pg_form pg; pg_storage := pg_storage pg;
         pg_console := pg_console pg;
         pg_posted := pg_posted pg ++ [{| body := pg_form pg; _cc := cc_address |}];
         pg_pending := Some {| pend_values := pg_form pg;
                               pend_shifts := pg_shifts pg |} |}
  | _ => pg
  end.

(** The loop of lines 158-167 on the objects of [array]: each assignment
    is made to the object itself, and a throw leaves the assignments made
    so far. *)
Fixpoint clearBookedObjects (shiftDates : list jsstring) (array : list nat)
    (objects : list Shift) : option Exn * list Shift :=
  match array with
  | [] => (None, objects)
  | r :: rest =>
      let shift := objects !!! r in
      match toISOString (date shift) with
      | None => (Some RangeError, objects)
      | Some shiftDateString =>
          clearBookedObjects shiftDates rest
            (<[r := clearBooked shiftDates shiftDateString shift]> objects)
      end
  end.

(** The rest of the pending [onSubmit] once the POST has settled with [r]:
    it works on the array it was created with.  When the loop throws,
    [setShifts] is not reached: the state keeps its array, whose objects
    the loop has assigned to. *)
Definition settleSubmit (r : Response) (pg : Page) : option Page :=
  pending ← pg_pending pg;
  Some
    (if resolved r then
       match clearBookedObjects (shiftDates (pend_values pending))
               (pend_shifts pending) (pg_objects pg) with
       | (None, objects) =>
           {| pg_objects := objects; pg_shifts := pend_shifts pending;
              pg_isSubmitting := false; pg_submitSuccess := true;
              pg_isAdmin := pg_isAdmin pg; pg_selectedDate := pg_selectedDate pg;
              pg_isClient := pg_isClient pg; pg_selector := pg_selector pg;
              pg_form := defaultValues;
              pg_storage :=
                Some (JSON_stringify (deref objects (pend_shifts pending)));
              pg_console := pg_console pg; pg_posted := pg_posted pg;
              pg_pending := None |}
       | (Some e, objects) =>
           {| pg_objects := objects; pg_shifts := pg_shifts pg;
              pg_isSubmitting := false; pg_submitSuccess := false;
              pg_isAdmin := pg_isAdmin pg; pg_selectedDate := pg_selectedDate pg;
              pg_isClient := pg_isClient pg; pg_selector := pg_selector pg;
              pg_form := defaultValues; pg_storage := pg_storage pg;
              pg_console := pg_console pg ++ [SubmissionError e];
              pg_posted := pg_posted pg; pg_pending := None |}
       end
     else
       {| pg_objects := pg_objects pg; pg_shifts := pg_shifts pg;
          pg_isSubmitting := false; pg_submitSuccess := false;
          pg_isAdmin := pg_isAdmin pg; pg_selectedDate := pg_selectedDate pg;
          pg_isClient := pg_isClient pg; pg_selector := pg_selector pg;
          pg_form := pg_form pg; pg_storage := pg_storage pg;
          pg_console := pg_console pg ++ [SubmissionError AxiosError];
          pg_posted := pg_posted pg; pg_pending := None |}).

(** *** What is on screen (lines 193-342) *)

(** The form is rendered: not the empty first render, not the Thank You
    view, and the slot list does not throw. *)
Definition formOnScreen (pg : Page) : bool :=
  pg_isClient pg && negb (pg_submitSuccess pg)
  && bool_decide (is_Some (slotCheckboxes (shiftsOf pg) (pg_form pg))).

Definition adminOnScreen (pg : Page) : bool := formOnScreen pg && pg_isAdmin pg.

(** A checkbox of the slot list with this value is rendered. *)
Definition slotOnScreen (pg : Page) (value : jsstring) : bool :=
  match slotCheckboxes (shiftsOf pg) (pg_form pg) with
  | Some boxes => bool_decide (value ∈ map cb_value boxes)
  | None => false
  end.

(** [shifts.find(...)] of line 218, as the object found. *)
Definition currentShiftRef (pg : Page) (selectedDate : Date) : option nat :=
  List.find (refSameTime (pg_objects pg) selectedDate) (pg_shifts pg).

(** The selector after its effect (lines 58-61) has run for [cur]. *)
Definition seededSelector (pg : Page) (cur : option nat) : Selector :=
  {| sel_toggles := seedToggles ((fun r => pg_objects pg !!! r) <$> cur);
     sel_currentShift := cur |}.

(** The render that follows a change of state, with its effects: the
    selector is there while the admin part shows a selected date; it is
    mounted with its effect run, and the effect runs again when
    [currentShift] is another object (or none) than last time. *)
Definition shownDate (pg : Page) : option Date :=
  if pg_isClient pg && negb (pg_submitSuccess pg) && pg_isAdmin pg
  then pg_selectedDate pg else None.

Definition commit (pg : Page) : Page :=
  match shownDate pg with
  | None => with_selector None pg
  | Some d =>
      let cur := currentShiftRef pg d in
      match pg_selector pg with
      | Some sel =>
          if decide (sel_currentShift sel = cur) then pg
          else with_selector (Some (seededSelector pg cur)) pg
      | None => with_selector (Some (seededSelector pg cur)) pg
      end
  end.

#[global] Instance validDate_dec (d : Date) : Decision (validDate d).
Proof. destruct d; unfold validDate; apply _. Defined.

(** The days the calendar hands to [onSelect]: a date of its grid, or
    nothing when the selected day is clicked again. *)
Definition calendarDay (day : option Date) : bool :=
  match day with
  | Some d => bool_decide (validDate d)
  | None => true
  end.

(** *** Actions

    What the user and the environment can do to the component: the mount
    effect, the controls of the admin part and of the form, the form's
    submit event (raised by the browser for the submit button when it is
    not disabled) and the settling of the pending POST. *)

Inductive Action :=
| Mount (adminParam : option jsstring)
| PickDay (day : option Date)                    (* [onSelect] of the calendar *)
| TogglePediatric (checked : bool)
| ToggleAdult (checked : bool)
| ClickSave
| ClickSwitchToProviderView
| TypeName (s : jsstring)
| TypeEmail (s : jsstring)
| TypeNotes (s : jsstring)
| SelectProviderType (p : ProviderType)
| ToggleSlot (value : jsstring) (checked : bool) (* a checkbox of the slot list *)
| SubmitEvent
| Settle (r : Response).

(** [field.onChange] of the form's controls. *)
Definition setField (a : Action) (values : FormValues) : FormValues :=
  match a with
  | TypeName s =>
      {| name := s; email := email values; shiftDates := shiftDates values;
         providerType := providerType values; notes := notes values |}
  | TypeEmail s =>
      {| name := name values; email := s; shiftDates := shiftDates values;
         providerType := providerType values; notes := notes values |}
  | TypeNotes s =>
      {| name := name values; email := email values; shiftDates := shiftDates values;
         providerType := providerType values; notes := Some s |}
  | SelectProviderType p =>
      {| name := name values; email := email values; shiftDates := shiftDates values;
         providerType := Some p; notes := notes values |}
  | ToggleSlot value checked =>
      {| name := name values; email := email values;
         shiftDates := onCheckedChange value checked (shiftDates values);
         providerType := providerType values; notes := notes values |}
  | _ => values
  end.

(** The handler an action runs; [None] when the control is not on screen
    or is disabled, when the effect has run already, or when no POST is
    pending. *)
Definition handle (email_syntax : jsstring -> bool) (pg : Page) (a : Action)
    : option Page :=
  match a with
  | Mount adminParam =>
      if pg_isClient pg then None else mountEffect adminParam pg
  | PickDay day =>
      if adminOnScreen pg && calendarDay day
      then Some (handleDateSelect day pg) else None
  | TogglePediatric checked =>
      if adminOnScreen pg
      then sel ← pg_selector pg;
           Some (with_selector (Some (setPediatricAvailable checked sel)) pg)
      else None
  | ToggleAdult checked =>
      if adminOnScreen pg
      then sel ← pg_selector pg;
           Some (with_selector (Some (setAdultAvailable checked sel)) pg)
      else None
  | ClickSave => if adminOnScreen pg then onSave pg else None
  | ClickSwitchToProviderView =>
      if adminOnScreen pg then Some (switchToProviderView pg) else None
  | TypeName _ | TypeEmail _ | TypeNotes _ | SelectProviderType _ =>
      if formOnScreen pg then Some (with_form (setField a (pg_form pg)) pg) else None
  | ToggleSlot value _ =>
      if formOnScreen pg && slotOnScreen pg value
      then Some (with_form (setField a (pg_form pg)) pg) else None
  | SubmitEvent =>
      if formOnScreen pg && negb (pg_isSubmitting pg)
      then Some (submitForm email_syntax pg) else None
  | Settle r => settleSubmit r pg
  end.

(** An action: its handler, then the render. *)
Definition act (email_syntax : jsstring -> bool) (pg : Page) (a : Action)
    : option Page :=
  commit <$> handle email_syntax pg a.

Fixpoint runActions (email_syntax : jsstring -> bool) (pg : Page) (actions : list Action)
    : option Page :=
  match actions with
  | [] => Some pg
  | a :: rest => pg' ← act email_syntax pg a; runActions email_syntax pg' rest
  end.

(** The page as a [State]. *)
Definition view (pg : Page) : State :=
  {| isSubmitting := pg_isSubmitting pg; submitSuccess := pg_submitSuccess pg;
     shifts := shiftsOf pg; selectedDate := pg_selectedDate pg;
     formValues := pg_form pg; formErrors := [];
     localStorage := pg_storage pg; console := pg_console pg;
     posted := pg_posted pg |}.

(** What holds of every page the component goes through: the references
    of the arrays denote objects, each at most once; a call of [onSubmit]
    is pending exactly while [isSubmitting] is set, never before the mount
    effect and never under the Thank You view; the selected date is a day
    of the calendar. *)
Record sound (pg : Page) : Prop := {
  shifts_bound :
    Forall (fun r => (r < length (pg_objects pg))%nat) (pg_shifts pg);
  shifts_NoDup : NoDup (pg_shifts pg);
  pending_bound : forall pending, pg_pending pg = Some pending ->
    Forall (fun r => (r < length (pg_objects pg))%nat) (pend_shifts pending)
    /\ NoDup (pend_shifts pending);
  pending_flag : pg_isSubmitting pg = true <-> is_Some (pg_pending pg);
  before_mount : pg_isClient pg = false ->
    pg_pending pg = None /\ pg_submitSuccess pg = false;
  after_success : pg_submitSuccess pg = true -> pg_pending pg = None;
  selected_valid : forall d, pg_selectedDate pg = Some d -> validDate d
}.

(** The selector is mounted exactly while a date is shown, and its effect
    has run for the [currentShift] of that date. *)
Definition selectorShown (pg : Page) : Prop :=
  match shownDate pg with
  | Some d => exists sel, pg_selector pg = Some sel
                          /\ sel_currentShift sel = currentShiftRef pg d
  | None => pg_selector pg = None
  end.

Definition consistent (pg : Page) : Prop := sound pg /\ selectorShown pg.

(** The stored item is absent, or is a text the component wrote:
    [JSON.stringify] of a Shift collection.  The objects loaded from such a
    text have the three properties of a Shift, in the order the component
    writes them. *)
Definition ownStorage (stored : option jsstring) : Prop :=
  stored = None \/ exists S : list Shift, stored = Some (JSON_stringify S).

(** The pages the component goes through from its first render. *)
Definition reachable (email_syntax : jsstring -> bool) (pg : Page) : Prop :=
  exists stored actions, runActions email_syntax (initialPage stored) actions = Some pg.

(** The action is the settling of a POST. *)
Definition isSettle (a : Action) : bool :=
  match a with
  | Settle _ => true
  | _ => false
  end.

(** The objects keep their dates and gain no availability. *)
Definition fades (objects objects' : list Shift) : Prop :=
  length objects' = length objects
  /\ forall r, date (objects' !!! r) = date (objects !!! r)
       /\ forall p, available p (objects' !!! r) = true ->
                    available p (objects !!! r) = true.

(** The store of a mounted page and what a pending submission holds are
    in order: valid dates, one Shift per timestamp, and the stored text is
    the collection in memory. *)
Definition storeInOrder (pg : Page) : Prop :=
  pg_isClient pg = true
  /\ Forall validShift (shiftsOf pg) /\ oneShiftPerDate (shiftsOf pg)
  /\ pg_storage pg = Some (JSON_stringify (shiftsOf pg))
  /\ forall pending, pg_pending pg = Some pending ->
       Forall validShift (deref (pg_objects pg) (pend_shifts pending))
       /\ oneShiftPerDate (deref (pg_objects pg) (pend_shifts pending)).


(** ** Sessions on the scenario's store *)

Definition scenarioStored : option jsstring := Some (JSON_stringify scenarioStore).

Definition july4Shift : Shift :=
  {| date := july4; pediatricAvailable := false; adultAvailable := true |}.

(** The admin opens the page with [?admin=true], picks 4 July and ticks
    the adult box. *)
Definition adminSession : list Action :=
  [Mount (Some (lit "true")); PickDay (Some july4); ToggleAdult true].

(** The form filled in as in the scenario. *)
Definition fillForm : list Action :=
  [TypeName (lit "Dr. Jane Doe"); TypeEmail (lit "doctor@example.com");
   SelectProviderType pediatric;
   ToggleSlot (lit "2024-06-01T00:00:00.000Z-pediatric") true].

(** A day is picked, marked for adult providers and saved. *)
Definition saveJuly4 : list Action :=
  [PickDay (Some july4); ToggleAdult true; ClickSave].

(** The page the actions lead to from the first render. *)
Definition pageAfter (actions : list Action) : Page :=
  default (initialPage scenarioStored)
    (runActions zod_email (initialPage scenarioStored) actions).

(** ** Proof automation *)

(** Goals about floors by constants: name the quotients, then [lia]. *)
Ltac floor_arith := Z.div_mod_to_equations; lia.

(** Replace the closed entries of the month table by their values. *)
Ltac month_table :=
  repeat match goal with
         | |- context [monthStart ?a ?b] =>
             let v := eval vm_compute in (monthStart a b) in
             change (monthStart a b) with v
         end.

(** Two closed strings differ. *)
Ltac distinct_keys := vm_compute; discriminate.

(** Facts about equality of timestamps, for [eauto]. *)
Create HintDb timestamps.

(* ===================================================================== *)
(** * Part II: lemmas and theorems *)
(* ===================================================================== *)

(** ** Calendar arithmetic *)

Lemma leb_true a b : a <= b -> (a <=? b) = true.
Proof. apply Z.leb_le. Qed.

Lemma DayFromYear_step y :
  DayFromYear (y + 1) = DayFromYear y + (if InLeapYear y then 366 else 365).
Proof.
  unfold DayFromYear, InLeapYear.
  destruct (Z.eqb_spec (y mod 4) 0), (Z.eqb_spec (y mod 100) 0),
           (Z.eqb_spec (y mod 400) 0); cbn [andb orb negb]; floor_arith.
Qed.

Lemma DayFromYear_bounds y :
  146097 * (y - 1970) - 506 <= 400 * DayFromYear y <= 146097 * (y - 1970) + 589.
Proof. unfold DayFromYear. floor_arith. Qed.

Lemma DayFromYear_mono y y' : y <= y' -> DayFromYear y <= DayFromYear y'.
Proof. intros H. unfold DayFromYear. floor_arith. Qed.

(** [YearFromDay d] is the year that contains day [d] ... *)
Lemma YearFromDay_spec d :
  DayFromYear (YearFromDay d) <= d < DayFromYear (YearFromDay d + 1).
Proof.
  unfold YearFromDay.
  set (y := 1970 + 400 * d / 146097).
  assert (Hlo : DayFromYear (y - 1) <= d) by (unfold DayFromYear, y; floor_arith).
  assert (Hhi : d < DayFromYear (y + 2)) by (unfold DayFromYear, y; floor_arith).
  destruct (Z.leb_spec (DayFromYear (y + 1)) d).
  - replace (y + 1 + 1) with (y + 2) by lia. lia.
  - destruct (Z.leb_spec (DayFromYear y) d).
    + lia.
    + replace (y - 1 + 1) with y by lia. lia.
Qed.

(** ... which makes it the largest year that starts on or before [d], the
    definition of YearFromTime in ECMA-262. *)
Lemma YearFromDay_largest d y : DayFromYear y <= d -> y <= YearFromDay d.
Proof.
  intros Hy. destruct (Z.le_gt_cases y (YearFromDay d)) as [|Hgt]; [assumption|].
  pose proof (YearFromDay_spec d) as [_ Hd].
  pose proof (DayFromYear_mono (YearFromDay d + 1) y). lia.
Qed.

Section Fields.

Variable t : Z.

Lemma DayWithinYear_range :
  0 <= DayWithinYear t < 365 + leapDays (YearFromTime t).
Proof.
  unfold DayWithinYear, YearFromTime, leapDays.
  pose proof (YearFromDay_spec (Day t)) as H.
  rewrite DayFromYear_step in H.
  destruct (InLeapYear (YearFromDay (Day t))); lia.
Qed.

Lemma MonthFromTime_range :
  0 <= MonthFromTime t <= 11 /\
  monthStart (leapDays (YearFromTime t)) (MonthFromTime t) <= DayWithinYear t
    < monthStart (leapDays (YearFromTime t)) (MonthFromTime t + 1).
Proof.
  pose proof DayWithinYear_range as Hd. unfold MonthFromTime.
  set (d := DayWithinYear t) in *. set (l := leapDays (YearFromTime t)) in *.
  assert (Hl : l = 0 \/ l = 1) by (unfold l, leapDays; destruct (InLeapYear _); auto).
  clearbody d l.
  repeat match goal with
         | |- context [if ?a <? ?b then _ else _] => destruct (Z.ltb_spec a b)
         end;
  destruct Hl as [-> | ->]; month_table; lia.
Qed.

Lemma DaysInMonth_le y m : 0 <= m <= 11 -> DaysInMonth y m <= 31.
Proof.
  intros Hm. unfold DaysInMonth, leapDays.
  assert (Hc : m = 0 \/ m = 1 \/ m = 2 \/ m = 3 \/ m = 4 \/ m = 5 \/ m = 6 \/ m = 7
               \/ m = 8 \/ m = 9 \/ m = 10 \/ m = 11) by lia.
  destruct (InLeapYear y);
  repeat (destruct Hc as [-> | Hc]); try subst m; vm_compute; discriminate.
Qed.

Lemma DateFromTime_range :
  1 <= DateFromTime t <= DaysInMonth (YearFromTime t) (MonthFromTime t)
  /\ DateFromTime t <= 31.
Proof.
  pose proof MonthFromTime_range as [Hm Hd].
  pose proof (DaysInMonth_le (YearFromTime t) (MonthFromTime t) Hm).
  unfold DateFromTime, DaysInMonth in *. lia.
Qed.

Lemma time_fields :
  0 <= HourFromTime t <= 23 /\ 0 <= MinFromTime t <= 59 /\
  0 <= SecFromTime t <= 59 /\ 0 <= msFromTime t <= 999 /\
  MakeTime (HourFromTime t) (MinFromTime t) (SecFromTime t) (msFromTime t)
    = TimeWithinDay t.
Proof.
  unfold HourFromTime, MinFromTime, SecFromTime, msFromTime, MakeTime,
    TimeWithinDay, msPerDay.
  floor_arith.
Qed.

(** The fields of a time value put it together again. *)
Lemma MakeDate_fields :
  MakeDate (MakeDay (YearFromTime t) (MonthFromTime t) (DateFromTime t))
    (MakeTime (HourFromTime t) (MinFromTime t) (SecFromTime t) (msFromTime t)) = t.
Proof.
  destruct time_fields as (_ & _ & _ & _ & ->).
  unfold MakeDate, MakeDay, DateFromTime, DayWithinYear, TimeWithinDay, Day, msPerDay.
  floor_arith.
Qed.

Hypothesis t_in_range : - maxTime <= t <= maxTime.

(** The years of the time values a Date can hold. *)
Lemma YearFromTime_range : -271821 <= YearFromTime t <= 275760.
Proof.
  unfold YearFromTime.
  pose proof (YearFromDay_spec (Day t)) as H.
  assert (Hd : -100000000 <= Day t <= 100000000).
  { unfold Day, msPerDay, maxTime in *. floor_arith. }
  revert H. generalize (YearFromDay (Day t)). intros y H.
  pose proof (DayFromYear_bounds y). pose proof (DayFromYear_bounds (y + 1)). lia.
Qed.

End Fields.

(** ** Printing and reading decimal fields *)

Lemma read_digits_snoc k : forall acc cs,
  read_digits (S k) acc cs =
  match read_digits k acc cs with
  | Some (a, c :: cs') =>
      match digit_value c with Some v => Some (10 * a + v, cs') | None => None end
  | _ => None
  end.
Proof.
  induction k as [|k IH]; intros acc cs.
  - cbn [read_digits]. destruct cs as [|c cs']; [reflexivity|].
    destruct (digit_value c); reflexivity.
  - change (read_digits (S (S k)) acc cs) with
      (match cs with
       | [] => None
       | c :: cs' => match digit_value c with
                     | Some v => read_digits (S k) (10 * acc + v) cs'
                     | None => None end
       end).
    destruct cs as [|c cs']; [reflexivity|].
    cbn [read_digits]. destruct (digit_value c) as [v|]; [|reflexivity].
    apply (IH (10 * acc + v) cs').
Qed.

Lemma digit_value_unit n : 0 <= n < 10 -> digit_value (48 + n) = Some n.
Proof.
  intros H. unfold digit_value. rewrite !leb_true by lia.
  cbn [andb]. f_equal. lia.
Qed.

Lemma read_digits_pad k : forall n acc rest,
  0 <= n < 10 ^ Z.of_nat k ->
  read_digits k acc (pad k n ++ rest) = Some (acc * 10 ^ Z.of_nat k + n, rest).
Proof.
  induction k as [|k IH]; intros n acc rest Hn.
  - cbn in *. do 2 f_equal. lia.
  - rewrite read_digits_snoc. cbn [pad]. rewrite <- app_assoc. cbn [app].
    assert (Hp : 10 ^ Z.of_nat (S k) = 10 * 10 ^ Z.of_nat k).
    { rewrite Nat2Z.inj_succ, Z.pow_succ_r by lia. reflexivity. }
    rewrite IH by (rewrite Hp in Hn; floor_arith).
    rewrite digit_value_unit by (apply Z.mod_pos_bound; lia).
    do 2 f_equal. rewrite Hp. floor_arith.
Qed.

Lemma read_digits_pad0 k n rest :
  0 <= n < 10 ^ Z.of_nat k -> read_digits k 0 (pad k n ++ rest) = Some (n, rest).
Proof. intros H. rewrite read_digits_pad by assumption. reflexivity. Qed.

Lemma expect_here c r : expect c (c :: r) = Some r.
Proof. unfold expect. rewrite Z.eqb_refl. reflexivity. Qed.

Lemma pad_head_digit k n rest :
  exists c r, pad (S k) n ++ rest = c :: r /\ 48 <= c <= 57.
Proof.
  revert n rest. induction k as [|k IH]; intros n rest.
  - exists (48 + n mod 10), rest. split; [reflexivity|]. floor_arith.
  - change (pad (S (S k)) n) with (pad (S k) (n / 10) ++ [48 + n mod 10]).
    rewrite <- app_assoc. apply IH.
Qed.

Lemma length_pad k : forall n, length (pad k n) = k.
Proof.
  induction k as [|k IH]; intros n; [reflexivity|].
  cbn [pad]. rewrite length_app, IH. cbn [length]. lia.
Qed.

(** ** [Date.parse] of [toISOString] *)

Lemma parse_fields_format y mo dt h mi s ms :
  1 <= mo <= 12 -> 1 <= dt <= DaysInMonth y (mo - 1) -> dt <= 31 ->
  0 <= h <= 23 -> 0 <= mi <= 59 -> 0 <= s <= 59 -> 0 <= ms <= 999 ->
  parse_fields y
    ([45] ++ pad 2 mo ++ [45] ++ pad 2 dt ++ [84] ++ pad 2 h ++ [58] ++ pad 2 mi
     ++ [58] ++ pad 2 s ++ [46] ++ pad 3 ms ++ [90])
  = Some (TimeClip (MakeDate (MakeDay y (mo - 1) dt) (MakeTime h mi s ms))).
Proof.
  intros Hmo Hdt Hdt' Hh Hmi Hs Hms. unfold parse_fields.
  repeat (first [ rewrite expect_here
                | rewrite read_digits_pad0 by (change (10 ^ Z.of_nat 2) with 100;
                                              change (10 ^ Z.of_nat 3) with 1000; lia)
                | progress cbn [app mbind option_bind] ]).
  rewrite !leb_true by lia. reflexivity.
Qed.

(** Parsing the ISO string of a time value in range gives it back. *)
Theorem parse_iso_isoString t :
  - maxTime <= t <= maxTime -> parse_iso (isoString t) = Some (TimeValue t).
Proof.
  intros Ht. unfold isoString.
  pose proof (YearFromTime_range t Ht) as Hy.
  pose proof (MonthFromTime_range t) as [Hm _].
  pose proof (DateFromTime_range t) as [Hd Hd'].
  pose proof (time_fields t) as (Hh & Hmi & Hsec & Hms & _).
  assert (Hfields : forall y, y = YearFromTime t ->
    parse_fields y
      ([45] ++ pad 2 (MonthFromTime t + 1) ++ [45] ++ pad 2 (DateFromTime t) ++ [84]
       ++ pad 2 (HourFromTime t) ++ [58] ++ pad 2 (MinFromTime t) ++ [58]
       ++ pad 2 (SecFromTime t) ++ [46] ++ pad 3 (msFromTime t) ++ [90])
    = Some (TimeValue t)).
  { intros y ->. rewrite parse_fields_format; try lia.
    - rewrite Z.add_simpl_r, MakeDate_fields. unfold TimeClip.
      rewrite leb_true by lia. reflexivity.
    - rewrite Z.add_simpl_r. lia. }
  unfold yearString.
  destruct ((0 <=? YearFromTime t) && (YearFromTime t <=? 9999)) eqn:E4.
  - apply andb_prop in E4 as [E0 E9]. apply Z.leb_le in E0, E9.
    destruct (pad_head_digit 3 (YearFromTime t)
                ([45] ++ pad 2 (MonthFromTime t + 1) ++ [45] ++ pad 2 (DateFromTime t)
                 ++ [84] ++ pad 2 (HourFromTime t) ++ [58] ++ pad 2 (MinFromTime t)
                 ++ [58] ++ pad 2 (SecFromTime t) ++ [46] ++ pad 3 (msFromTime t)
                 ++ [90])) as (c & r & Heq & Hc).
    unfold parse_iso. rewrite Heq.
    destruct (Z.eqb_spec c 43); [lia|]. destruct (Z.eqb_spec c 45); [lia|].
    rewrite <- Heq.
    rewrite read_digits_pad0 by (change (10 ^ Z.of_nat 4) with 10000; lia).
    cbn [mbind option_bind]. apply Hfields. reflexivity.
  - assert (Hout : YearFromTime t < 0 \/ 9999 < YearFromTime t).
    { apply andb_false_iff in E4 as [E | E]; apply Z.leb_gt in E; lia. }
    unfold parse_iso. cbn [app].
    destruct (Z.ltb_spec (YearFromTime t) 0) as [Hneg | Hpos].
    + change (45 =? 43) with false. change (45 =? 45) with true. cbn iota.
      rewrite read_digits_pad0 by (change (10 ^ Z.of_nat 6) with 1000000; lia).
      cbn [mbind option_bind].
      destruct (Z.eqb_spec (Z.abs (YearFromTime t)) 0); [lia|].
      apply Hfields. lia.
    + change (43 =? 43) with true. cbn iota.
      rewrite read_digits_pad0 by (change (10 ^ Z.of_nat 6) with 1000000; lia).
      cbn [mbind option_bind]. apply Hfields. lia.
Qed.

Lemma length_isoString t :
  length (isoString t) = 24%nat \/ length (isoString t) = 27%nat.
Proof.
  unfold isoString, yearString.
  destruct ((0 <=? YearFromTime t) && (YearFromTime t <=? 9999));
    repeat (rewrite ?length_app, ?length_cons, ?length_pad; cbn [length]); lia.
Qed.

Lemma isoString_injective t1 t2 :
  - maxTime <= t1 <= maxTime -> - maxTime <= t2 <= maxTime ->
  isoString t1 = isoString t2 -> t1 = t2.
Proof.
  intros H1 H2 E. apply parse_iso_isoString in H1, H2. rewrite E in H1. congruence.
Qed.

(** ** Reading back what [JSON.stringify] wrote *)

Lemma run_app (a b : jsstring) : forall st,
  run st (a ++ b) = st' ← run st a; run st' b.
Proof.
  induction a as [|c a IH]; intros st; [reflexivity|].
  cbn [app run]. destruct (step st c) as [st'|]; [apply IH | reflexivity].
Qed.

Lemma plain_pad k : forall n, Forall plain (pad k n).
Proof.
  induction k as [|k IH]; intros n; [constructor|].
  cbn [pad]. apply Forall_app. split; [apply IH|].
  constructor; [|constructor]. unfold plain. floor_arith.
Qed.

Lemma isoString_plain t : Forall plain (isoString t).
Proof.
  unfold isoString, yearString.
  repeat first [ apply plain_pad | apply List.Forall_nil
               | apply List.Forall_cons; [unfold plain; lia|]
               | destruct (_ && _) | destruct (_ <? _)
               | apply Forall_app; split ].
Qed.

Lemma run_string_plain tg (s : jsstring) : forall buf stack rest,
  Forall plain s ->
  run (stack, MString tg buf SChars) (s ++ 34 :: rest)
  = run (close_string tg (rev buf ++ s) stack) rest.
Proof.
  induction s as [|c s IH]; intros buf stack rest Hs.
  - rewrite app_nil_r. reflexivity.
  - apply Forall_cons in Hs as [(Hlo & Hq & Hb) Hs].
    cbn [app run step].
    destruct (Z.eqb_spec c 34); [lia|]. destruct (Z.eqb_spec c 92); [lia|].
    destruct (Z.ltb_spec c 32); [lia|].
    cbn [mbind option_bind]. rewrite IH by assumption.
    cbn [rev]. rewrite <- app_assoc. reflexivity.
Qed.

Lemma run_date_key stack (rest : jsstring) :
  run (stack, MObjOpen) (quoted (lit "date") ++ lit ":" ++ rest)
  = run (InObj [] (lit "date") :: stack, MValue) rest.
Proof. reflexivity. Qed.

Lemma run_flags stack done (b1 b2 : bool) (rest : jsstring) :
  run (stack, MObjNext done)
    (lit "," ++ quoted (lit "pediatricAvailable") ++ lit ":" ++ stringify_bool b1
     ++ lit "," ++ quoted (lit "adultAvailable") ++ lit ":" ++ stringify_bool b2
     ++ lit "}" ++ rest)
  = run (complete (JObj (rev ((lit "adultAvailable", JBool b2)
                               :: (lit "pediatricAvailable", JBool b1) :: done)))
           stack) rest.
Proof. destruct b1, b2; reflexivity. Qed.

Lemma run_null stack key done (rest : jsstring) :
  run (InObj done key :: stack, MValue) (lit "null" ++ rest)
  = run (stack, MObjNext ((key, JNull) :: done)) rest.
Proof. reflexivity. Qed.

Lemma run_quoted stack key done (s rest : jsstring) :
  Forall plain s ->
  run (InObj done key :: stack, MValue) (quoted s ++ rest)
  = run (stack, MObjNext ((key, JStr s) :: done)) rest.
Proof.
  intros Hs. unfold quoted. rewrite <- !app_assoc.
  change (run (InObj done key :: stack, MValue) ([34] ++ s ++ [34] ++ rest))
    with (run (InObj done key :: stack, MString ForValue [] SChars)
            (s ++ 34 :: rest)).
  rewrite run_string_plain by assumption. reflexivity.
Qed.

(** One serialized shift, read as an element of the enclosing array. *)
Lemma run_Shift (shift : Shift) stack done (rest : jsstring) :
  run (InArr done :: stack, MObjOpen) (tail (stringify_Shift shift) ++ rest)
  = run (stack, MArrNext (Shift_json shift :: done)) rest.
Proof.
  destruct shift as [d b1 b2]. unfold stringify_Shift, Shift_json, Date_toJSON.
  cbn [date pediatricAvailable adultAvailable].
  change (lit "{") with [123]. cbn [app tail].
  rewrite <- !app_assoc. rewrite run_date_key.
  destruct d as [|t]; cbn [toISOString].
  - rewrite run_null, run_flags. reflexivity.
  - rewrite run_quoted by apply isoString_plain. rewrite run_flags. reflexivity.
Qed.

Lemma join_comma_cons (x : jsstring) (xs : list jsstring) :
  join_comma (x :: xs) = x ++ concat (map (fun y => 44 :: y) xs).
Proof.
  revert x. induction xs as [|y ys IH]; intros x.
  - cbn. rewrite app_nil_r. reflexivity.
  - change (join_comma (x :: y :: ys)) with (x ++ lit "," ++ join_comma (y :: ys)).
    rewrite IH. reflexivity.
Qed.

Lemma stringify_Shift_brace shift :
  stringify_Shift shift = 123 :: tail (stringify_Shift shift).
Proof. reflexivity. Qed.

Lemma run_elements (S : list Shift) : forall stack done (rest : jsstring),
  run (stack, MArrNext done)
    (concat (map (fun y => 44 :: y) (map stringify_Shift S)) ++ 93 :: rest)
  = run (complete (JArr (rev done ++ map Shift_json S)) stack) rest.
Proof.
  induction S as [|shift S IH]; intros stack done rest.
  - cbn [map concat app]. rewrite app_nil_r. reflexivity.
  - cbn [map concat]. rewrite stringify_Shift_brace. rewrite <- app_assoc.
    change (run (stack, MArrNext done)
              ((44 :: 123 :: tail (stringify_Shift shift)) ++ ?r))
      with (run (InArr done :: stack, MObjOpen) (tail (stringify_Shift shift) ++ r)).
    rewrite run_Shift, IH. cbn [rev]. rewrite <- app_assoc. reflexivity.
Qed.

(** [JSON.parse] reads a stringified collection back as the array of its
    shifts' values. *)
Theorem JSON_parse_stringify (S : list Shift) :
  JSON_parse (JSON_stringify S) = Some (JArr (map Shift_json S)).
Proof.
  unfold JSON_parse, JSON_stringify. destruct S as [|shift S]; [reflexivity|].
  cbn [map]. rewrite join_comma_cons, stringify_Shift_brace.
  change (lit "[") with [91]. change (lit "]") with [93]. rewrite <- app_assoc.
  change (run ([], MValue) ([91] ++ (123 :: tail (stringify_Shift shift)) ++ ?r))
    with (run ([InArr []], MObjOpen) (tail (stringify_Shift shift) ++ r)).
  rewrite run_Shift, run_elements. reflexivity.
Qed.

(** ** The load effect on a saved collection *)

Lemma parseShift_json (shift : Shift) :
  validShift shift -> parseShift (Shift_json shift) = Some (shiftObject shift).
Proof.
  destruct shift as [[|t] b1 b2]; unfold validShift; cbn [date validDate];
    intros Ht; [contradiction|].
  unfold parseShift, Shift_json, shiftObject, ownProperties.
  cbn [toISOString date pediatricAvailable adultAvailable fold_left fst snd].
  f_equal. apply (f_equal2 Build_ParsedShift).
  - rewrite !lookup_insert_ne by distinct_keys.
    rewrite lookup_insert_eq. cbn [newDate].
    rewrite parse_iso_isoString by assumption. reflexivity.
  - rewrite !delete_insert_ne by distinct_keys.
    rewrite delete_insert_eq, delete_empty.
    apply insert_insert_ne. distinct_keys.
Qed.

Lemma mapM_parseShift (S : list Shift) :
  Forall validShift S -> mapM parseShift (map Shift_json S) = Some (map shiftObject S).
Proof.
  induction 1 as [|shift S Hv _ IH]; [reflexivity|].
  cbn [map mapM]. rewrite parseShift_json by assumption.
  cbn [mbind option_bind]. rewrite IH. reflexivity.
Qed.

Lemma asShift_shiftObject (shift : Shift) : asShift (shiftObject shift) = Some shift.
Proof. destruct shift as [d [|] [|]]; reflexivity. Qed.

Lemma mapM_asShift (S : list Shift) : mapM asShift (map shiftObject S) = Some S.
Proof.
  induction S as [|shift S IH]; [reflexivity|].
  cbn [map mapM]. rewrite asShift_shiftObject. cbn [mbind option_bind].
  rewrite IH. reflexivity.
Qed.

Lemma JSON_stringify_bracket (S : list Shift) :
  exists rest, JSON_stringify S = 91 :: rest.
Proof. eexists. reflexivity. Qed.

Lemma loadShifts_stringify (S : list Shift) :
  Forall validShift S ->
  loadShifts (Some (JSON_stringify S))
  = {| loaded := map shiftObject S; load_console := [] |}.
Proof.
  intros HS. unfold loadShifts.
  rewrite JSON_parse_stringify, mapM_parseShift by assumption.
  destruct (JSON_stringify_bracket S) as [rest ->]. reflexivity.
Qed.

(** ** The availability projection *)

Lemma availableShifts_cons shift (S : list Shift) f :
  availableShifts (shift :: S) f
  = List.filter (keepEntry f) (shiftEntries shift) ++ availableShifts S f.
Proof. unfold availableShifts. cbn [List.flat_map]. apply List.filter_app. Qed.

Lemma filter_keep_all (l : list AvailableShift) : List.filter (keepEntry None) l = l.
Proof.
  induction l as [|e l IH]; [reflexivity|]. cbn [List.filter keepEntry]. now rewrite IH.
Qed.

Lemma shiftEntries_spec e shift :
  e ∈ shiftEntries shift <->
  date shift = av_date e /\ available (av_providerType e) shift = true.
Proof.
  destruct shift as [d ped ad], e as [d' p]. unfold shiftEntries.
  cbn [date pediatricAvailable adultAvailable av_date av_providerType available].
  destruct ped, ad, p;
    cbn [app available pediatricAvailable adultAvailable];
    rewrite ?elem_of_cons, ?elem_of_nil; intuition congruence.
Qed.

Lemma count_shiftEntries e shift :
  count_occ AvailableShift_eq_dec (shiftEntries shift) e
  = if yields e shift then 1%nat else 0%nat.
Proof.
  unfold yields.
  destruct (bool_decide_reflect (date shift = av_date e)) as [Hd | Hd].
  - destruct shift as [d ped ad], e as [d' p]. cbn in Hd. subst d'.
    unfold shiftEntries.
    cbn [date pediatricAvailable adultAvailable av_date av_providerType available
         andb].
    destruct ped, ad, p;
      cbn [app available pediatricAvailable adultAvailable];
      repeat first [ rewrite count_occ_cons_eq by reflexivity
                   | rewrite count_occ_cons_neq by discriminate ];
      reflexivity.
  - cbn [andb]. apply count_occ_not_In. intros Hin.
    apply list_elem_of_In, shiftEntries_spec in Hin. tauto.
Qed.

Lemma count_availableShifts e (S : list Shift) :
  count_occ AvailableShift_eq_dec (availableShifts S None) e
  = length (List.filter (yields e) S).
Proof.
  induction S as [|shift S IH]; [reflexivity|].
  rewrite availableShifts_cons, filter_keep_all, count_occ_app, IH, count_shiftEntries.
  cbn [List.filter]. destruct (yields e shift); reflexivity.
Qed.

Lemma availableShifts_elem e (S : list Shift) f :
  e ∈ availableShifts S f <->
  (exists shift, shift ∈ S /\ date shift = av_date e
                 /\ available (av_providerType e) shift = true)
  /\ keepEntry f e = true.
Proof.
  unfold availableShifts.
  rewrite list_elem_of_In, List.filter_In, List.in_flat_map.
  split.
  - intros [(shift & Hin & He) Hk]. split; [|assumption].
    exists shift. rewrite list_elem_of_In. split; [assumption|].
    apply shiftEntries_spec, list_elem_of_In, He.
  - intros [(shift & Hin & Hd & Ha) Hk]. split; [|assumption].
    exists shift. split; [apply list_elem_of_In, Hin|].
    apply list_elem_of_In, shiftEntries_spec. tauto.
Qed.

Lemma filter_yields_none e (S : list Shift) :
  av_date e ∉ map date S -> List.filter (yields e) S = [].
Proof.
  induction S as [|x S IH]; intros Hnot; [reflexivity|].
  cbn [map] in Hnot. apply not_elem_of_cons in Hnot as [Hx Hnot].
  cbn [List.filter]. unfold yields at 1.
  rewrite bool_decide_eq_false_2 by congruence. cbn [andb]. apply IH, Hnot.
Qed.

Lemma filter_yields_unique e (S : list Shift) shift :
  NoDup (map date S) -> shift ∈ S -> yields e shift = true ->
  length (List.filter (yields e) S) = 1%nat.
Proof.
  induction S as [|x S IH]; intros Hnd Hin Hy.
  - apply elem_of_nil in Hin. contradiction.
  - cbn [map] in Hnd. apply NoDup_cons in Hnd as [Hx Hnd].
    assert (Hdate : forall a, yields e a = true -> date a = av_date e).
    { intros a Ha. unfold yields in Ha. apply andb_prop in Ha as [Ha _].
      apply bool_decide_eq_true in Ha. exact Ha. }
    cbn [List.filter]. destruct (yields e x) eqn:Ex.
    + rewrite filter_yields_none; [reflexivity|].
      rewrite <- (Hdate x Ex). exact Hx.
    + apply IH; [assumption| |assumption].
      apply elem_of_cons in Hin as [-> | Hin]; [congruence | assumption].
Qed.

(** C1.  Every entry of the projection comes from a Shift of the
    collection whose flag for the entry's provider type is set, and passes
    the filter; without a filter every entry occurs as often as the
    collection has Shifts yielding it, so each (Shift, set flag) pair
    yields exactly one entry: exactly one occurrence when no two Shifts
    share a date. *)
Theorem availableShifts_projection (S : list Shift) (f : option ProviderType) :
  (forall e, e ∈ availableShifts S f ->
     (exists shift, shift ∈ S /\ e = entry shift (av_providerType e)
                    /\ available (av_providerType e) shift = true)
     /\ (forall p, f = Some p -> av_providerType e = p))
  /\ (forall e, count_occ AvailableShift_eq_dec (availableShifts S None) e
                = length (List.filter (yields e) S))
  /\ (forall shift p, shift ∈ S -> available p shift = true ->
        entry shift p ∈ availableShifts S None
        /\ (NoDup (map date S) ->
            count_occ AvailableShift_eq_dec (availableShifts S None) (entry shift p)
            = 1%nat)).
Proof.
  split; [|split].
  - intros e He. apply availableShifts_elem in He as [(shift & Hin & Hd & Ha) Hk].
    split.
    + exists shift. split; [assumption|]. split; [|assumption].
      destruct e as [d p]. unfold entry. cbn in *. congruence.
    + intros p ->. cbn [keepEntry] in Hk.
      destruct (av_providerType e), p; (reflexivity || discriminate).
  - intros e. apply count_availableShifts.
  - intros shift p Hin Ha.
    assert (Hy : yields (entry shift p) shift = true).
    { unfold yields, entry. cbn [av_date av_providerType].
      rewrite bool_decide_eq_true_2 by reflexivity. exact Ha. }
    split.
    + apply availableShifts_elem. split; [|reflexivity].
      exists shift. auto.
    + intros Hnd. rewrite count_availableShifts.
      apply filter_yields_unique with shift; assumption.
Qed.

(** ** The upsert of the admin editor *)

Lemma sameTime_true a b :
  sameTime a b = true <-> exists t, a = TimeValue t /\ b = TimeValue t.
Proof.
  unfold sameTime. destruct a as [|x], b as [|y]; cbn [getTime strict_equal].
  - split; [discriminate | intros (t & Ht & _); discriminate].
  - split; [discriminate | intros (t & Ht & _); discriminate].
  - split; [discriminate | intros (t & _ & Ht); discriminate].
  - rewrite Z.eqb_eq. split.
    + intros ->. eauto.
    + intros (t & Hx & Hy). congruence.
Qed.

Lemma sameTime_refl d : validDate d -> sameTime d d = true.
Proof.
  destruct d as [|t]; [contradiction|]. intros _.
  apply sameTime_true. eauto.
Qed.

Lemma sameTime_trans a b c :
  sameTime a b = true -> sameTime b c = true -> sameTime a c = true.
Proof.
  rewrite !sameTime_true. intros (t & -> & ->) (t' & Ht & ->). eauto.
Qed.

Lemma sameTime_sym a b : sameTime a b = sameTime b a.
Proof.
  unfold sameTime. destruct a, b; cbn [getTime strict_equal]; try reflexivity.
  apply Z.eqb_sym.
Qed.

#[local] Hint Resolve sameTime_refl sameTime_trans : timestamps.

Lemma findIndex_None {A} (p : A -> bool) (l : list A) :
  findIndex p l = None <-> forall x, x ∈ l -> p x = false.
Proof.
  induction l as [|x l IH]; cbn [findIndex].
  - split; [|reflexivity]. intros _ x Hx. apply elem_of_nil in Hx. contradiction.
  - destruct (p x) eqn:Ex.
    + split; [discriminate|]. intros H. specialize (H x (list_elem_of_here _ _)).
      congruence.
    + destruct (findIndex p l) as [i|]; cbn [fmap option_fmap option_map].
      * split; [discriminate|]. intros H.
        assert (Hl : forall y, y ∈ l -> p y = false)
          by (intros y Hy; apply H; now apply list_elem_of_further).
        apply IH in Hl. discriminate.
      * split; [|reflexivity]. intros _ y Hy.
        apply elem_of_cons in Hy as [-> | Hy]; [assumption|].
        now apply IH.
Qed.

Lemma findIndex_Some {A} (p : A -> bool) (l : list A) i :
  findIndex p l = Some i ->
  exists pre x post, l = pre ++ x :: post /\ length pre = i /\ p x = true
                     /\ forall y, y ∈ pre -> p y = false.
Proof.
  revert i. induction l as [|x l IH]; intros i; cbn [findIndex]; [discriminate|].
  destruct (p x) eqn:Ex.
  - intros [= <-]. exists [], x, l. repeat split; [assumption|].
    intros y Hy. apply elem_of_nil in Hy. contradiction.
  - destruct (findIndex p l) as [k|]; cbn [fmap option_fmap option_map];
      [|discriminate].
    intros [= <-]. destruct (IH k eq_refl) as (pre & y & post & -> & Hlen & Hy & Hpre).
    exists (x :: pre), y, post. repeat split; [cbn; lia | assumption |].
    intros z Hz. apply elem_of_cons in Hz as [-> | Hz]; auto.
Qed.

Lemma findIndex_first {A} (p : A -> bool) (pre post : list A) x :
  (forall y, y ∈ pre -> p y = false) -> p x = true ->
  findIndex p (pre ++ x :: post) = Some (length pre).
Proof.
  induction pre as [|y pre IH]; intros Hpre Hx; cbn [app findIndex length].
  - now rewrite Hx.
  - rewrite (Hpre y) by apply list_elem_of_here.
    rewrite IH; [reflexivity| |assumption].
    intros z Hz. apply Hpre. now apply list_elem_of_further.
Qed.

Lemma imap_unchanged {A} (l : list A) : forall f : nat -> A -> A,
  (forall k x, f k x = x) -> imap f l = l.
Proof.
  induction l as [|x l IH]; intros f Hf; [reflexivity|].
  cbn [imap]. rewrite Hf. f_equal. apply IH. intros k y. apply Hf.
Qed.

Lemma imap_replace {A} (new : A) (l : list A) : forall i,
  imap (fun index x => if Nat.eqb index i then new else x) l = <[i:=new]> l.
Proof.
  induction l as [|x l IH]; intros i; [reflexivity|].
  destruct i as [|i].
  - cbn [imap Nat.eqb]. change (<[0%nat:=new]> (x :: l)) with (new :: l). f_equal.
    apply imap_unchanged. reflexivity.
  - change (<[S i:=new]> (x :: l)) with (x :: <[i:=new]> l).
    exact (f_equal (cons x) (IH i)).
Qed.

Lemma upsert_found (pre post : list Shift) x newShift :
  (forall y, y ∈ pre -> sameTime (date y) (date newShift) = false) ->
  sameTime (date x) (date newShift) = true ->
  upsert (pre ++ x :: post) newShift = pre ++ newShift :: post.
Proof.
  intros Hpre Hx. unfold upsert.
  rewrite (findIndex_first (fun shift => sameTime (date shift) (date newShift)))
    by assumption.
  rewrite imap_replace. rewrite insert_app_r_alt by lia.
  rewrite Nat.sub_diag. reflexivity.
Qed.

Lemma upsert_fresh (S : list Shift) newShift :
  (forall y, y ∈ S -> sameTime (date y) (date newShift) = false) ->
  upsert S newShift = S ++ [newShift].
Proof.
  intros HS. unfold upsert.
  apply (findIndex_None (fun shift => sameTime (date shift) (date newShift))) in HS.
  now rewrite HS.
Qed.

Lemma upsert_cases (S : list Shift) newShift :
  (exists pre x post,
      S = pre ++ x :: post
      /\ (forall y, y ∈ pre -> sameTime (date y) (date newShift) = false)
      /\ sameTime (date x) (date newShift) = true
      /\ upsert S newShift = pre ++ newShift :: post)
  \/ ((forall y, y ∈ S -> sameTime (date y) (date newShift) = false)
      /\ upsert S newShift = S ++ [newShift]).
Proof.
  destruct (findIndex (fun shift => sameTime (date shift) (date newShift)) S)
    as [i|] eqn:E.
  - left. apply findIndex_Some in E as (pre & x & post & -> & _ & Hx & Hpre).
    cbn beta in Hx, Hpre. exists pre, x, post. repeat split; try assumption.
    apply upsert_found; assumption.
  - right. pose proof (proj1 (findIndex_None _ _) E) as Hnone. cbn beta in Hnone.
    split; [assumption|]. apply upsert_fresh; assumption.
Qed.

(** C6.  The upsert replaces, whole, the first Shift whose timestamp is
    exactly that of the new Shift and leaves the others in place; when no
    Shift has that timestamp it appends the new one.  Timestamps are equal
    only when they are the same number of milliseconds: two times of the
    same calendar day are two Shifts. *)
Theorem upsert_exact_timestamp (S : list Shift) (newShift : Shift) :
  ((exists pre x post,
       S = pre ++ x :: post
       /\ (forall y, y ∈ pre -> sameTime (date y) (date newShift) = false)
       /\ sameTime (date x) (date newShift) = true
       /\ upsert S newShift = pre ++ newShift :: post)
   \/ ((forall y, y ∈ S -> sameTime (date y) (date newShift) = false)
       /\ upsert S newShift = S ++ [newShift]))
  /\ (forall a b, sameTime a b = true <-> exists t, a = TimeValue t /\ b = TimeValue t)
  /\ (forall a t1 t2, date a = TimeValue t1 -> date newShift = TimeValue t2 ->
        Day t1 = Day t2 -> t1 <> t2 -> upsert [a] newShift = [a; newShift]).
Proof.
  split; [apply upsert_cases|]. split; [apply sameTime_true|].
  intros a t1 t2 Ha Hn _ Hne. apply (upsert_fresh [a]).
  intros y Hy. apply list_elem_of_singleton in Hy as ->.
  destruct (sameTime (date a) (date newShift)) eqn:E; [|reflexivity].
  apply sameTime_true in E as (t & Ht1 & Ht2). congruence.
Qed.

(** C4.  The date of a Shift is a calendar date, which is a valid date:
    the only caller of [addOrUpdateShift] is the Save button, with the day
    the calendar handed over.  Saving the same Shift twice in a row leaves
    the store as saving it once does: the collection, the persisted text
    and the rest of the state. *)
Theorem upsert_idempotent (S : list Shift) (x : Shift) (st : State) :
  validShift x ->
  upsert (upsert S x) x = upsert S x
  /\ addOrUpdateShift x (addOrUpdateShift x st) = addOrUpdateShift x st.
Proof.
  intros Hx. apply sameTime_refl in Hx.
  assert (Hup : forall S', upsert (upsert S' x) x = upsert S' x).
  { intros S'. destruct (upsert_cases S' x)
      as [(pre & y & post & -> & Hpre & Hy & ->) | [Hnone ->]].
    - apply upsert_found; assumption.
    - apply (upsert_found S' [] x); assumption. }
  split; [apply Hup|].
  unfold addOrUpdateShift. cbn [shifts isSubmitting submitSuccess formValues
    formErrors console posted]. rewrite Hup. reflexivity.
Qed.

(** ** The clearing loop of [onSubmit] *)

Section Clearing.

(** The [shiftDates] of the submitted values. *)
Variable L : list jsstring.

Lemma clearedShift_date shift : date (clearedShift L shift) = date shift.
Proof. unfold clearedShift. destruct (toISOString (date shift)); reflexivity. Qed.

Lemma clearedShift_valid shift : validShift shift -> validShift (clearedShift L shift).
Proof. unfold validShift. now rewrite clearedShift_date. Qed.

Lemma memory_cons shift (S : list Shift) :
  memory (clearBookedShifts L (shift :: S))
  = match toISOString (date shift) with
    | Some iso => clearBooked L iso shift :: memory (clearBookedShifts L S)
    | None => shift :: S
    end.
Proof.
  cbn [clearBookedShifts]. destruct (toISOString (date shift)); [|reflexivity].
  destruct (clearBookedShifts L S); reflexivity.
Qed.

(** Whatever the outcome, the loop keeps the dates in place. *)
Lemma memory_dates (S : list Shift) :
  map date (memory (clearBookedShifts L S)) = map date S.
Proof.
  induction S as [|shift S IH]; [reflexivity|].
  rewrite memory_cons. destruct (toISOString (date shift)); [|reflexivity].
  cbn [map]. now rewrite IH.
Qed.

(** Each shift in memory is the one it was, or that one cleared. *)
Lemma memory_lookup (S : list Shift) : forall i shift,
  S !! i = Some shift ->
  memory (clearBookedShifts L S) !! i = Some shift
  \/ memory (clearBookedShifts L S) !! i = Some (clearedShift L shift).
Proof.
  induction S as [|x S IH]; intros i shift Hi; [discriminate|].
  rewrite memory_cons. destruct (toISOString (date x)) as [iso|] eqn:E.
  - destruct i as [|i]; cbn in Hi |- *.
    + injection Hi as ->. right. unfold clearedShift. now rewrite E.
    + apply IH, Hi.
  - left. exact Hi.
Qed.

(** On valid dates the loop runs to its end and clears every shift. *)
Lemma clearBookedShifts_valid (S : list Shift) :
  Forall validShift S ->
  clearBookedShifts L S = MapDone (map (clearedShift L) S).
Proof.
  induction 1 as [|shift S Hv _ IH]; [reflexivity|].
  cbn [clearBookedShifts map]. rewrite IH. unfold clearedShift.
  destruct shift as [[|t] ped ad]; [contradiction|]. reflexivity.
Qed.

(** It stops at the first invalid date. *)
Lemma clearBookedShifts_throws (S : list Shift) :
  Exists (fun shift => date shift = InvalidDate) S ->
  exists mutated, clearBookedShifts L S = MapThrew mutated.
Proof.
  induction 1 as [shift S E | shift S _ (m & IH)]; cbn [clearBookedShifts].
  - rewrite E. cbn [toISOString]. eauto.
  - destruct (toISOString (date shift)); [|eauto]. rewrite IH. eauto.
Qed.

Lemma clearBooked_untouched iso shift :
  (iso ++ lit "-pediatric") ∉ L -> (iso ++ lit "-adult") ∉ L ->
  clearBooked L iso shift = shift.
Proof.
  intros Hp Ha. unfold clearBooked, includes.
  rewrite !bool_decide_eq_false_2 by assumption. destruct shift; reflexivity.
Qed.

Lemma clearedShift_untouched shift :
  (forall iso, toISOString (date shift) = Some iso ->
               (slotId iso pediatric ∉ L) /\ (slotId iso adult ∉ L)) ->
  clearedShift L shift = shift.
Proof.
  intros H. unfold clearedShift. destruct (toISOString (date shift)) as [iso|];
    [|reflexivity].
  destruct (H iso eq_refl). now apply clearBooked_untouched.
Qed.

(** A flag survives the loop when it was set and its slot was not booked. *)
Lemma clearedShift_available shift iso p :
  toISOString (date shift) = Some iso ->
  available p (clearedShift L shift)
  = available p shift && negb (includes L (slotId iso p)).
Proof.
  intros E. unfold clearedShift. rewrite E.
  destruct p; cbn [available clearBooked pediatricAvailable adultAvailable slotId];
    destruct (includes L _); cbn [negb]; now rewrite ?andb_true_r, ?andb_false_r.
Qed.

End Clearing.

Lemma onSubmit_shifts r values st :
  shifts (onSubmit r values st)
  = if resolved r then memory (clearBookedShifts (shiftDates values) (shifts st))
    else shifts st.
Proof.
  unfold onSubmit, onSubmit_settle, onSubmit_start. cbn [shifts].
  destruct (resolved r); [|reflexivity].
  destruct (clearBookedShifts (shiftDates values) (shifts st)); reflexivity.
Qed.

Lemma onSubmit_dates r values st :
  map date (shifts (onSubmit r values st)) = map date (shifts st).
Proof.
  rewrite onSubmit_shifts. destruct (resolved r); [apply memory_dates | reflexivity].
Qed.

(** C10.  The clearing changes nothing but availability flags: the number
    of Shifts, their order and their dates stay, a Shift whose ISO date
    string is in [shiftDates] with neither suffix stays as it is, and when
    that holds of every Shift the collection is the same. *)
Theorem onSubmit_frame (r : Response) (values : FormValues) (st : State) :
  length (shifts (onSubmit r values st)) = length (shifts st)
  /\ map date (shifts (onSubmit r values st)) = map date (shifts st)
  /\ (forall i shift, shifts st !! i = Some shift ->
        (forall iso, toISOString (date shift) = Some iso ->
                     (slotId iso pediatric ∉ shiftDates values)
                     /\ (slotId iso adult ∉ shiftDates values)) ->
        shifts (onSubmit r values st) !! i = Some shift)
  /\ ((forall shift iso, shift ∈ shifts st -> toISOString (date shift) = Some iso ->
         (slotId iso pediatric ∉ shiftDates values)
         /\ (slotId iso adult ∉ shiftDates values)) ->
      shifts (onSubmit r values st) = shifts st).
Proof.
  assert (Hframe : forall i shift, shifts st !! i = Some shift ->
        (forall iso, toISOString (date shift) = Some iso ->
                     (slotId iso pediatric ∉ shiftDates values)
                     /\ (slotId iso adult ∉ shiftDates values)) ->
        shifts (onSubmit r values st) !! i = Some shift).
  { intros i shift Hi Hno. rewrite onSubmit_shifts.
    destruct (resolved r); [|exact Hi].
    destruct (memory_lookup (shiftDates values) _ _ _ Hi) as [H | H];
      rewrite H; [reflexivity|].
    now rewrite clearedShift_untouched. }
  assert (Hlen : length (shifts (onSubmit r values st)) = length (shifts st)).
  { rewrite <- (length_map date), onSubmit_dates. apply length_map. }
  split; [assumption|]. split; [apply onSubmit_dates|]. split; [assumption|].
  intros Hall. apply list_eq_same_length with (length (shifts st));
    [reflexivity | assumption |].
  intros i x y _ Hx Hy. rewrite (Hframe i y Hy) in Hx; [congruence|].
  intros iso. apply Hall. eapply list_elem_of_lookup_2, Hy.
Qed.

(** On success the collection is replaced by the cleared one and saved. *)
Lemma onSubmit_resolved code values st :
  200 <= code < 300 -> Forall validShift (shifts st) ->
  onSubmit (HttpStatus code) values st
  = {| isSubmitting := false; submitSuccess := true;
       shifts := map (clearedShift (shiftDates values)) (shifts st);
       selectedDate := selectedDate st;
       formValues := defaultValues; formErrors := [];
       localStorage :=
         Some (JSON_stringify (map (clearedShift (shiftDates values)) (shifts st)));
       console := console st;
       posted := posted st ++ [{| body := values; _cc := cc_address |}] |}.
Proof.
  intros Hc Hv. unfold onSubmit, onSubmit_settle, onSubmit_start, resolved.
  cbn [shifts selectedDate localStorage console posted].
  replace (200 <=? code) with true by (symmetry; apply Z.leb_le; lia).
  replace (code <? 300) with true by (symmetry; apply Z.ltb_lt; lia).
  cbn [andb]. now rewrite clearBookedShifts_valid.
Qed.

(** C2.  The Shifts of a collection have calendar dates, which are valid
    dates.  After a successful submission
    every stored Shift whose slot identifier (its date's ISO string, then
    [-pediatric] or [-adult]) is in [shiftDates] has that flag false;
    membership of that exact string is all that decides it; and the
    updated collection is what is written to storage.  The success flag
    is set and the pending flag is cleared. *)
Theorem onSubmit_clears_booked (code : Z) (values : FormValues) (st : State) :
  200 <= code < 300 -> Forall validShift (shifts st) ->
  submitSuccess (onSubmit (HttpStatus code) values st) = true
  /\ isSubmitting (onSubmit (HttpStatus code) values st) = false
  /\ localStorage (onSubmit (HttpStatus code) values st)
     = Some (JSON_stringify (shifts (onSubmit (HttpStatus code) values st)))
  /\ forall i shift, shifts st !! i = Some shift ->
       exists iso shift',
         toISOString (date shift) = Some iso
         /\ shifts (onSubmit (HttpStatus code) values st) !! i = Some shift'
         /\ date shift' = date shift
         /\ (forall p, slotId iso p ∈ shiftDates values -> available p shift' = false)
         /\ (forall p, available p shift'
                       = available p shift
                         && negb (includes (shiftDates values) (slotId iso p))).
Proof.
  intros Hc Hv. rewrite onSubmit_resolved by assumption.
  cbn [submitSuccess isSubmitting localStorage shifts].
  do 3 (split; [reflexivity|]).
  intros i shift Hi.
  assert (Hvalid : validShift shift).
  { eapply Forall_lookup_1; eassumption. }
  destruct (toISOString (date shift)) as [iso|] eqn:E.
  2:{ destruct shift as [[|t] ? ?]; [contradiction | discriminate]. }
  exists iso, (clearedShift (shiftDates values) shift).
  split; [reflexivity|]. split; [now rewrite list_lookup_fmap, Hi|].
  split; [apply clearedShift_date|]. split.
  - intros p Hin. rewrite (clearedShift_available _ _ iso) by assumption.
    unfold includes. rewrite bool_decide_eq_true_2 by assumption.
    apply andb_false_r.
  - intros p. now apply clearedShift_available.
Qed.

Lemma failed_not_resolved r : failed r -> resolved r = false.
Proof.
  intros [-> | (code & -> & Hc)]; [reflexivity|]. cbn [resolved].
  destruct (Z.leb_spec 200 code); [|reflexivity].
  destruct (Z.ltb_spec code 300); [lia | reflexivity].
Qed.

(** C3.  When the POST fails the pending flag is cleared, the success flag
    is unset, and the collection and the stored text are what they were;
    the error is logged. *)
Theorem onSubmit_failure (r : Response) (values : FormValues) (st : State) :
  failed r ->
  isSubmitting (onSubmit r values st) = false
  /\ submitSuccess (onSubmit r values st) = false
  /\ shifts (onSubmit r values st) = shifts st
  /\ localStorage (onSubmit r values st) = localStorage st
  /\ console (onSubmit r values st) = console st ++ [SubmissionError AxiosError].
Proof.
  intros Hr. unfold onSubmit, onSubmit_settle.
  rewrite (failed_not_resolved r Hr). repeat split.
Qed.

(** ** The store invariant *)

Lemma oneShiftPerDate_dates (S S' : list Shift) :
  map date S' = map date S -> oneShiftPerDate S -> oneShiftPerDate S'.
Proof.
  intros Hd Hinv i j a b Hi Hj Hsame.
  assert (Hi' : map date S !! i = Some (date a))
    by (rewrite <- Hd, list_lookup_fmap, Hi; reflexivity).
  assert (Hj' : map date S !! j = Some (date b))
    by (rewrite <- Hd, list_lookup_fmap, Hj; reflexivity).
  rewrite list_lookup_fmap in Hi', Hj'.
  destruct (S !! i) as [a'|] eqn:Ea; [|discriminate].
  destruct (S !! j) as [b'|] eqn:Eb; [|discriminate].
  cbn in Hi', Hj'. injection Hi' as Ha. injection Hj' as Hb.
  apply (Hinv i j a' b' Ea Eb). now rewrite Ha, Hb.
Qed.

Lemma lookup_replaced (pre post : list Shift) x new k :
  (pre ++ new :: post) !! k
  = if decide (k = length pre) then Some new else (pre ++ x :: post) !! k.
Proof.
  destruct (decide (k = length pre)) as [-> | Hne].
  - apply list_lookup_middle. reflexivity.
  - destruct (decide (k < length pre)%nat).
    + now rewrite !lookup_app_l by assumption.
    + rewrite !lookup_app_r by lia.
      destruct (k - length pre)%nat as [|m] eqn:E; [lia | reflexivity].
Qed.

Lemma oneShiftPerDate_upsert (S : list Shift) newShift :
  oneShiftPerDate S -> oneShiftPerDate (upsert S newShift).
Proof.
  intros Hinv.
  destruct (upsert_cases S newShift)
    as [(pre & x & post & -> & Hpre & Hx & ->) | [Hnone ->]].
  - assert (Hat : (pre ++ x :: post) !! length pre = Some x)
      by (apply list_lookup_middle; reflexivity).
    intros i j a b Hi Hj Hsame.
    rewrite (lookup_replaced pre post x) in Hi, Hj.
    destruct (decide (i = length pre)) as [-> | Hi'],
             (decide (j = length pre)) as [-> | Hj'].
    + reflexivity.
    + injection Hi as <-. apply (Hinv _ _ x b Hat Hj). eauto with timestamps.
    + injection Hj as <-. apply (Hinv _ _ a x Hi Hat).
      rewrite sameTime_sym in Hx. eauto with timestamps.
    + apply (Hinv i j a b Hi Hj Hsame).
  - intros i j a b Hi Hj Hsame.
    assert (Hnew : forall k y, (S ++ [newShift]) !! k = Some y ->
              (S !! k = Some y /\ (k < length S)%nat)
              \/ (k = length S /\ y = newShift)).
    { intros k y Hk. destruct (decide (k < length S)%nat).
      - left. rewrite lookup_app_l in Hk by assumption. auto.
      - right. rewrite lookup_app_r in Hk by lia.
        destruct (k - length S)%nat as [|m] eqn:E; [|destruct m; discriminate].
        injection Hk as <-. split; [lia | reflexivity]. }
    destruct (Hnew i a Hi) as [[Ha _] | [-> ->]],
             (Hnew j b Hj) as [[Hb _] | [-> ->]].
    + apply (Hinv i j a b Ha Hb Hsame).
    + rewrite (Hnone a) in Hsame by (eapply list_elem_of_lookup_2, Ha). discriminate.
    + rewrite sameTime_sym, (Hnone b) in Hsame
        by (eapply list_elem_of_lookup_2, Hb). discriminate.
    + reflexivity.
Qed.

(** C7.  At most one Shift per timestamp: true of the empty initial
    collection, and kept by the upsert and by the submit handler with its
    flag clearing, hence true after any sequence of the two. *)
Theorem oneShiftPerDate_invariant :
  (forall stored, oneShiftPerDate (shifts (initialState stored)))
  /\ (forall newShift st, oneShiftPerDate (shifts st) ->
        oneShiftPerDate (shifts (addOrUpdateShift newShift st)))
  /\ (forall r values st, oneShiftPerDate (shifts st) ->
        oneShiftPerDate (shifts (onSubmit r values st)))
  /\ (forall stored events,
        oneShiftPerDate (shifts (fold_left react events (initialState stored)))).
Proof.
  assert (Hinit : forall stored, oneShiftPerDate (shifts (initialState stored))).
  { intros stored i j a b Hi. discriminate. }
  assert (Hsave : forall newShift st, oneShiftPerDate (shifts st) ->
            oneShiftPerDate (shifts (addOrUpdateShift newShift st))).
  { intros newShift st. apply oneShiftPerDate_upsert. }
  assert (Hsubmit : forall r values st, oneShiftPerDate (shifts st) ->
            oneShiftPerDate (shifts (onSubmit r values st))).
  { intros r values st. apply oneShiftPerDate_dates, onSubmit_dates. }
  repeat split; try assumption.
  intros stored events. generalize (Hinit stored).
  generalize (initialState stored). induction events as [|e events IH]; intros st Hst.
  - exact Hst.
  - cbn [fold_left]. apply IH. destruct e; cbn [react]; auto.
Qed.

(** ** Form validation *)

Lemma formSchema_errors email_syntax (values : FormValues) :
  ((length (name values) < 2)%nat ->
     (f_name, "Name must be at least 2 characters."%string)
       ∈ formSchema email_syntax values)
  /\ (email_syntax (email values) = false ->
       (f_email, "Please enter a valid email address."%string)
         ∈ formSchema email_syntax values)
  /\ (shiftDates values = [] ->
       (f_shiftDates, "Please select at least one shift date."%string)
         ∈ formSchema email_syntax values)
  /\ (providerType values = None ->
       (f_providerType, "Please select a provider type."%string)
         ∈ formSchema email_syntax values).
Proof.
  unfold formSchema. repeat split.
  - intros H. destruct (Z.ltb_spec (Z.of_nat (length (name values))) 2); [|lia].
    apply elem_of_app. left. apply list_elem_of_here.
  - intros ->. apply elem_of_app. right. apply elem_of_app. left.
    apply list_elem_of_here.
  - intros ->. do 2 (apply elem_of_app; right). apply elem_of_app. left.
    apply list_elem_of_here.
  - intros ->. do 3 (apply elem_of_app; right). apply list_elem_of_here.
Qed.

(** C8.  A name shorter than two characters, an email outside the email
    syntax, an empty [shiftDates] and a missing [providerType] each give
    an error on their own field, and a form with any of them is not
    submitted: nothing is posted and the store and flags stay as they
    are. *)
Theorem handleSubmit_rejects (email_syntax : jsstring -> bool) (r : Response)
    (st : State) :
  (length (name (formValues st)) < 2)%nat
  \/ email_syntax (email (formValues st)) = false
  \/ shiftDates (formValues st) = []
  \/ providerType (formValues st) = None ->
  ((length (name (formValues st)) < 2)%nat ->
     (f_name, "Name must be at least 2 characters."%string)
       ∈ formErrors (handleSubmit email_syntax r st))
  /\ (email_syntax (email (formValues st)) = false ->
       (f_email, "Please enter a valid email address."%string)
         ∈ formErrors (handleSubmit email_syntax r st))
  /\ (shiftDates (formValues st) = [] ->
       (f_shiftDates, "Please select at least one shift date."%string)
         ∈ formErrors (handleSubmit email_syntax r st))
  /\ (providerType (formValues st) = None ->
       (f_providerType, "Please select a provider type."%string)
         ∈ formErrors (handleSubmit email_syntax r st))
  /\ posted (handleSubmit email_syntax r st) = posted st
  /\ isSubmitting (handleSubmit email_syntax r st) = isSubmitting st
  /\ submitSuccess (handleSubmit email_syntax r st) = submitSuccess st
  /\ shifts (handleSubmit email_syntax r st) = shifts st
  /\ localStorage (handleSubmit email_syntax r st) = localStorage st.
Proof.
  intros Hbad.
  destruct (formSchema_errors email_syntax (formValues st)) as (Hn & He & Hs & Hp).
  assert (Hne : formSchema email_syntax (formValues st) <> []).
  { intros E. rewrite E in Hn, He, Hs, Hp.
    destruct Hbad as [H | [H | [H | H]]];
      [apply Hn in H | apply He in H | apply Hs in H | apply Hp in H];
      apply elem_of_nil in H; exact H. }
  unfold handleSubmit.
  destruct (formSchema email_syntax (formValues st)) as [|err errs] eqn:E;
    [contradiction|].
  cbn [formErrors posted isSubmitting submitSuccess shifts localStorage].
  repeat split; assumption.
Qed.

(** A form the schema accepts is handed to [onSubmit]. *)
Lemma handleSubmit_accepts email_syntax r (st : State) :
  formSchema email_syntax (formValues st) = [] ->
  handleSubmit email_syntax r st = onSubmit r (formValues st) (clearErrors st).
Proof. intros E. unfold handleSubmit. now rewrite E. Qed.

(** ** The load effect *)

Lemma mapM_parseShift_throws (items : list json) :
  Exists (fun item => dateThrows item = true) items -> mapM parseShift items = None.
Proof.
  induction 1 as [x items Hx | x items _ IH]; cbn [mapM].
  - unfold parseShift. now rewrite Hx.
  - destruct (parseShift x); [|reflexivity]. cbn [mbind option_bind].
    now rewrite IH.
Qed.

Lemma mapM_parseShift_returns (items : list json) :
  Forall (fun item => dateThrows item = false) items ->
  is_Some (mapM parseShift items).
Proof.
  induction 1 as [|x items Hx _ [parsed IH]]; [now eexists|].
  assert (Ex : is_Some (parseShift x))
    by (unfold parseShift; rewrite Hx; now eexists).
  destruct Ex as [p Ex]. cbn [mapM]. rewrite Ex, IH. now eexists.
Qed.

Lemma mapM_parseShift_length (items : list json) : forall parsed,
  mapM parseShift items = Some parsed -> length parsed = length items.
Proof.
  induction items as [|x items IH]; intros parsed.
  - intros [= <-]. reflexivity.
  - cbn [mapM]. destruct (parseShift x) as [p|]; [|discriminate].
    cbn [mbind option_bind]. destruct (mapM parseShift items) as [ps|];
      [|discriminate].
    intros [= <-]. cbn [length mret option_ret]. f_equal. now apply IH.
Qed.

(** C9, as the code has it.  When the [try] block throws on a stored
    text, which it does on a text that is not JSON, on JSON that is not an
    array, and on an array with an element that is null or whose date
    cannot be converted to a primitive value, the effect ends normally
    with the error logged and the collection empty. *)
Theorem loadShifts_fails_soft (text : jsstring) (e : Exn) :
  text <> [] -> loadThrows text e ->
  loadShifts (Some text)
  = {| loaded := []; load_console := [ErrorParsingStoredShifts e] |}.
Proof.
  intros Hne Hthrow. destruct text as [|c text]; [contradiction|].
  unfold loadShifts.
  destruct Hthrow as [[-> ->] | [(v & -> & Hv & ->) | (items & -> & Hin & ->)]].
  - reflexivity.
  - destruct v; try reflexivity. exfalso. eapply Hv. reflexivity.
  - now rewrite mapM_parseShift_throws.
Qed.

(** A stored array on whose elements the callback does not throw is taken
    as it is: one object per element, nothing logged, no check of the
    shape. *)
Lemma loadShifts_unchecked (text : jsstring) (items : list json) :
  JSON_parse text = Some (JArr items) ->
  Forall (fun item => dateThrows item = false) items ->
  length (loaded (loadShifts (Some text))) = length items
  /\ load_console (loadShifts (Some text)) = [].
Proof.
  intros Hp Hret. assert (Hne : text <> []) by (intros ->; discriminate).
  destruct text as [|c text]; [contradiction|]. unfold loadShifts. rewrite Hp.
  destruct (mapM_parseShift_returns items Hret) as [parsed E]. rewrite E.
  split; [|reflexivity]. now apply mapM_parseShift_length.
Qed.

(** C5.  A collection of Shifts with valid dates, written by
    [JSON.stringify] and read back by the load effect, is the collection
    itself: every date goes out as its ISO string and comes back as the
    same time value, nothing is logged. *)
Theorem load_save_roundtrip (S : list Shift) :
  Forall validShift S ->
  loadShifts (Some (JSON_stringify S))
  = {| loaded := map shiftObject S; load_console := [] |}
  /\ mapM asShift (loaded (loadShifts (Some (JSON_stringify S)))) = Some S
  /\ (forall shift, shift ∈ S ->
        exists iso, toISOString (date shift) = Some iso
                    /\ newDate (Some (JStr iso)) = Known (date shift)).
Proof.
  intros HS. rewrite loadShifts_stringify by assumption. cbn [loaded].
  split; [reflexivity|]. split; [apply mapM_asShift|].
  intros shift Hin. rewrite Forall_forall in HS. specialize (HS shift Hin).
  destruct shift as [[|t] ped ad]; [contradiction|].
  exists (isoString t). split; [reflexivity|]. cbn [newDate date].
  now rewrite parse_iso_isoString.
Qed.

(** ** The statements at the spec's scenarios *)

Lemma scenarioStore_valid : Forall validShift scenarioStore.
Proof.
  constructor; [|constructor].
  unfold validShift, validDate, june1, maxTime. cbn [date]. lia.
Defined.

Example toISOString_june1 :
  toISOString june1 = Some (lit "2024-06-01T00:00:00.000Z").
Proof. reflexivity. Qed.

(** The store of the scenario projects to its one pediatric entry; the
    adult filter leaves nothing. *)
Example scenario_projection :
  availableShifts scenarioStore None
  = [{| av_date := june1; av_providerType := pediatric |}]
  /\ availableShifts scenarioStore (Some adult) = [].
Proof. split; reflexivity. Qed.

(** Saving 2024-07-04 with only the adult flag set leaves exactly that
    Shift in the store and in storage. *)
Example scenario_save :
  addOrUpdateShift
    {| date := july4; pediatricAvailable := false; adultAvailable := true |}
    (initialState None)
  = {| isSubmitting := false; submitSuccess := false;
       shifts := [{| date := july4; pediatricAvailable := false;
                     adultAvailable := true |}];
       selectedDate := None; formValues := defaultValues; formErrors := [];
       localStorage :=
         Some (json_text
           "[{'date':'2024-07-04T00:00:00.000Z','pediatricAvailable':false,'adultAvailable':true}]");
       console := []; posted := [] |}.
Proof. reflexivity. Qed.

(** A successful submission of the scenario's slot clears the pediatric
    flag in the store and in storage, and raises the success flag. *)
Example scenario_submit :
  onSubmit (HttpStatus 200) scenarioValues scenarioState
  = {| isSubmitting := false; submitSuccess := true;
       shifts := [{| date := june1; pediatricAvailable := false;
                     adultAvailable := false |}];
       selectedDate := None; formValues := defaultValues; formErrors := [];
       localStorage :=
         Some (json_text
           "[{'date':'2024-06-01T00:00:00.000Z','pediatricAvailable':false,'adultAvailable':false}]");
       console := [];
       posted := [{| body := scenarioValues; _cc := cc_address |}] |}.
Proof. vm_compute. reflexivity. Qed.

(** The four rejected inputs give the four field errors, in schema order. *)
Example scenario_rejected :
  formSchema zod_email rejectedValues
  = [(f_name, "Name must be at least 2 characters.");
     (f_email, "Please enter a valid email address.");
     (f_shiftDates, "Please select at least one shift date.");
     (f_providerType, "Please select a provider type.")]%string
  /\ formSchema zod_email scenarioValues = [].
Proof. split; reflexivity. Qed.

Lemma availableShifts_projection_witness :
  count_occ AvailableShift_eq_dec (availableShifts scenarioStore None)
    {| av_date := june1; av_providerType := pediatric |}
  = length (List.filter (yields {| av_date := june1; av_providerType := pediatric |})
              scenarioStore).
Proof.
  exact (proj1 (proj2 (availableShifts_projection scenarioStore None))
           {| av_date := june1; av_providerType := pediatric |}).
Defined.

Lemma upsert_exact_timestamp_witness :
  upsert scenarioStore
    {| date := june1_noon; pediatricAvailable := false; adultAvailable := true |}
  = scenarioStore
    ++ [{| date := june1_noon; pediatricAvailable := false; adultAvailable := true |}].
Proof.
  assert (Hne : 1717200000000 <> 1717243200000) by lia.
  exact (proj2 (proj2 (upsert_exact_timestamp scenarioStore
                  {| date := june1_noon; pediatricAvailable := false;
                     adultAvailable := true |}))
           {| date := june1; pediatricAvailable := true; adultAvailable := false |}
           1717200000000 1717243200000 eq_refl eq_refl eq_refl Hne).
Defined.

Lemma oneShiftPerDate_invariant_witness :
  oneShiftPerDate
    (shifts (fold_left react
               [Save {| date := june1; pediatricAvailable := true;
                        adultAvailable := false |};
                Save {| date := june1_noon; pediatricAvailable := true;
                        adultAvailable := true |};
                SubmitForm (HttpStatus 200) scenarioValues;
                Save {| date := june1; pediatricAvailable := false;
                        adultAvailable := true |}]
               (initialState None))).
Proof.
  exact (proj2 (proj2 (proj2 oneShiftPerDate_invariant)) None _).
Defined.

Lemma onSubmit_frame_witness :
  shifts (onSubmit (HttpStatus 200) strayValues scenarioState) = shifts scenarioState.
Proof.
  apply (proj2 (proj2 (proj2 (onSubmit_frame (HttpStatus 200) strayValues
                                scenarioState)))).
  intros shift iso Hin Hiso.
  apply list_elem_of_singleton in Hin. subst shift. injection Hiso as <-.
  split; intros H; apply list_elem_of_singleton in H; vm_compute in H;
    discriminate H.
Defined.

Lemma onSubmit_clears_booked_witness :
  200 <= 200 < 300 /\ Forall validShift (shifts scenarioState)
  /\ submitSuccess (onSubmit (HttpStatus 200) scenarioValues scenarioState) = true
  /\ isSubmitting (onSubmit (HttpStatus 200) scenarioValues scenarioState) = false
  /\ localStorage (onSubmit (HttpStatus 200) scenarioValues scenarioState)
     = Some (JSON_stringify
               (shifts (onSubmit (HttpStatus 200) scenarioValues scenarioState)))
  /\ forall i shift, shifts scenarioState !! i = Some shift ->
       exists iso shift',
         toISOString (date shift) = Some iso
         /\ shifts (onSubmit (HttpStatus 200) scenarioValues scenarioState) !! i
            = Some shift'
         /\ date shift' = date shift
         /\ (forall p, slotId iso p ∈ shiftDates scenarioValues ->
                       available p shift' = false)
         /\ (forall p, available p shift'
                       = available p shift
                         && negb (includes (shiftDates scenarioValues) (slotId iso p))).
Proof.
  assert (Hcode : 200 <= 200 < 300) by lia.
  exact (conj Hcode (conj scenarioStore_valid
           (onSubmit_clears_booked 200 scenarioValues scenarioState
              Hcode scenarioStore_valid))).
Defined.

Lemma onSubmit_failure_witness :
  failed (HttpStatus 500)
  /\ isSubmitting (onSubmit (HttpStatus 500) scenarioValues scenarioState) = false
  /\ submitSuccess (onSubmit (HttpStatus 500) scenarioValues scenarioState) = false
  /\ shifts (onSubmit (HttpStatus 500) scenarioValues scenarioState)
     = shifts scenarioState
  /\ localStorage (onSubmit (HttpStatus 500) scenarioValues scenarioState)
     = localStorage scenarioState
  /\ console (onSubmit (HttpStatus 500) scenarioValues scenarioState)
     = console scenarioState ++ [SubmissionError AxiosError].
Proof.
  assert (H500 : failed (HttpStatus 500)).
  { right. exists 500. split; [reflexivity | lia]. }
  exact (conj H500 (onSubmit_failure (HttpStatus 500) scenarioValues scenarioState H500)).
Defined.

Lemma upsert_idempotent_witness :
  validShift {| date := july4; pediatricAvailable := false; adultAvailable := true |}
  /\ upsert (upsert scenarioStore
               {| date := july4; pediatricAvailable := false; adultAvailable := true |})
       {| date := july4; pediatricAvailable := false; adultAvailable := true |}
     = upsert scenarioStore
         {| date := july4; pediatricAvailable := false; adultAvailable := true |}
  /\ addOrUpdateShift
       {| date := july4; pediatricAvailable := false; adultAvailable := true |}
       (addOrUpdateShift
          {| date := july4; pediatricAvailable := false; adultAvailable := true |}
          scenarioState)
     = addOrUpdateShift
         {| date := july4; pediatricAvailable := false; adultAvailable := true |}
         scenarioState.
Proof.
  assert (Hv : validShift
                 {| date := july4; pediatricAvailable := false; adultAvailable := true |}).
  { unfold validShift, validDate, july4, maxTime. cbn [date]. lia. }
  exact (conj Hv (upsert_idempotent scenarioStore _ scenarioState Hv)).
Defined.

Lemma load_save_roundtrip_witness :
  Forall validShift scenarioStore
  /\ loadShifts (Some (JSON_stringify scenarioStore))
     = {| loaded := map shiftObject scenarioStore; load_console := [] |}
  /\ mapM asShift (loaded (loadShifts (Some (JSON_stringify scenarioStore))))
     = Some scenarioStore
  /\ (forall shift, shift ∈ scenarioStore ->
        exists iso, toISOString (date shift) = Some iso
                    /\ newDate (Some (JStr iso)) = Known (date shift)).
Proof.
  exact (conj scenarioStore_valid (load_save_roundtrip scenarioStore scenarioStore_valid)).
Defined.

Lemma handleSubmit_rejects_witness :
  ((length (name (formValues rejectedState)) < 2)%nat
   /\ zod_email (email (formValues rejectedState)) = false
   /\ shiftDates (formValues rejectedState) = []
   /\ providerType (formValues rejectedState) = None)
  /\ (f_name, "Name must be at least 2 characters."%string)
       ∈ formErrors (handleSubmit zod_email (HttpStatus 200) rejectedState)
  /\ (f_email, "Please enter a valid email address."%string)
       ∈ formErrors (handleSubmit zod_email (HttpStatus 200) rejectedState)
  /\ (f_shiftDates, "Please select at least one shift date."%string)
       ∈ formErrors (handleSubmit zod_email (HttpStatus 200) rejectedState)
  /\ (f_providerType, "Please select a provider type."%string)
       ∈ formErrors (handleSubmit zod_email (HttpStatus 200) rejectedState)
  /\ posted (handleSubmit zod_email (HttpStatus 200) rejectedState) = []
  /\ shifts (handleSubmit zod_email (HttpStatus 200) rejectedState) = scenarioStore.
Proof.
  assert (Hn : (length (name (formValues rejectedState)) < 2)%nat) by (cbn; lia).
  assert (He : zod_email (email (formValues rejectedState)) = false) by reflexivity.
  assert (Hs : shiftDates (formValues rejectedState) = []) by reflexivity.
  assert (Hp : providerType (formValues rejectedState) = None) by reflexivity.
  destruct (handleSubmit_rejects zod_email (HttpStatus 200) rejectedState (or_introl Hn))
    as (En & Ee & Es & Ep & Hposted & _ & _ & Hshifts & _).
  exact (conj (conj Hn (conj He (conj Hs Hp)))
           (conj (En Hn) (conj (Ee He) (conj (Es Hs) (conj (Ep Hp)
              (conj Hposted Hshifts)))))).
Defined.

Lemma loadShifts_fails_soft_witness :
  (json_text "{'date': oops" <> [] /\ loadThrows (json_text "{'date': oops") SyntaxError)
  /\ loadShifts (Some (json_text "{'date': oops"))
     = {| loaded := []; load_console := [ErrorParsingStoredShifts SyntaxError] |}.
Proof.
  assert (Hne : json_text "{'date': oops" <> []) by distinct_keys.
  assert (Hthrow : loadThrows (json_text "{'date': oops") SyntaxError).
  { left. split; reflexivity. }
  exact (conj (conj Hne Hthrow)
           (loadShifts_fails_soft (json_text "{'date': oops") SyntaxError Hne Hthrow)).
Defined.

(** A stored array of an empty object is no serialized Shift collection,
    yet the effect logs nothing and leaves an object with an invalid date
    in the collection. *)
Lemma loadShifts_unvalidated_counterexample :
  ~ deserializable (json_text "[{}]")
  /\ loadShifts (Some (json_text "[{}]"))
     = {| loaded := [{| p_date := Known InvalidDate; p_rest := ∅ |}];
          load_console := [] |}.
Proof.
  split; [|reflexivity].
  intros (S & Hs & _). vm_compute in Hs. discriminate Hs.
Qed.

(** ** Slot identifiers *)

(** Two slot identifiers are the same string only for the same time value
    and the same provider type: a booked slot clears no other. *)
Theorem slotId_injective t1 t2 p1 p2 :
  - maxTime <= t1 <= maxTime -> - maxTime <= t2 <= maxTime ->
  slotId (isoString t1) p1 = slotId (isoString t2) p2 -> t1 = t2 /\ p1 = p2.
Proof.
  intros H1 H2 E. pose proof (f_equal length E) as Hlen.
  unfold slotId in E, Hlen. rewrite !length_app in Hlen.
  destruct (length_isoString t1) as [L1 | L1], (length_isoString t2) as [L2 | L2];
    rewrite L1, L2 in Hlen;
    destruct p1, p2; cbn in Hlen; try lia;
    (split; [|reflexivity]);
    apply app_inv_tail in E; now apply isoString_injective.
Qed.

Lemma slotId_injective_witness :
  (- maxTime <= 1717200000000 <= maxTime /\ - maxTime <= 1717200000000 <= maxTime
   /\ slotId (isoString 1717200000000) pediatric
      = slotId (isoString 1717200000000) pediatric)
  /\ 1717200000000 = 1717200000000 /\ pediatric = pediatric.
Proof.
  assert (H : - maxTime <= 1717200000000 <= maxTime) by (unfold maxTime; lia).
  exact (conj (conj H (conj H eq_refl))
           (slotId_injective 1717200000000 1717200000000 pediatric pediatric
              H H eq_refl)).
Defined.

(** ** What is stored is what is in memory *)

Lemma upsert_elem (S : list Shift) newShift y :
  y ∈ upsert S newShift -> y ∈ S \/ y = newShift.
Proof.
  destruct (upsert_cases S newShift)
    as [(pre & x & post & -> & _ & _ & ->) | [_ ->]];
    rewrite !elem_of_app, ?elem_of_cons, ?elem_of_nil; intuition.
Qed.

Lemma upsert_valid (S : list Shift) newShift :
  Forall validShift S -> validShift newShift -> Forall validShift (upsert S newShift).
Proof.
  rewrite !Forall_forall. intros HS Hn y Hy.
  apply upsert_elem in Hy as [Hy | ->]; auto.
Qed.

(** After a save, and after a successful submission, the load effect run
    on the stored text gives back the collection in memory. *)
Theorem storage_reflects_store (st : State) :
  Forall validShift (shifts st) ->
  (forall newShift, validShift newShift ->
     mapM asShift (loaded (loadShifts (localStorage (addOrUpdateShift newShift st))))
     = Some (shifts (addOrUpdateShift newShift st)))
  /\ (forall code values, 200 <= code < 300 ->
        mapM asShift
          (loaded (loadShifts (localStorage (onSubmit (HttpStatus code) values st))))
        = Some (shifts (onSubmit (HttpStatus code) values st))).
Proof.
  intros Hv. split.
  - intros newShift Hn. cbn [addOrUpdateShift localStorage shifts].
    rewrite loadShifts_stringify by now apply upsert_valid.
    apply mapM_asShift.
  - intros code values Hc. rewrite onSubmit_resolved by assumption.
    cbn [localStorage shifts]. rewrite loadShifts_stringify; [apply mapM_asShift|].
    rewrite Forall_fmap. eapply Forall_impl; [exact Hv|].
    intros shift. apply clearedShift_valid.
Qed.

Lemma storage_reflects_store_witness :
  Forall validShift (shifts scenarioState)
  /\ mapM asShift
       (loaded (loadShifts
          (localStorage (onSubmit (HttpStatus 200) scenarioValues scenarioState))))
     = Some (shifts (onSubmit (HttpStatus 200) scenarioValues scenarioState)).
Proof.
  assert (Hcode : 200 <= 200 < 300) by lia.
  exact (conj scenarioStore_valid
           (proj2 (storage_reflects_store scenarioState scenarioStore_valid)
              200 scenarioValues Hcode)).
Defined.

(** A slot booked by a successful submission is no longer offered. *)
Theorem booked_slots_leave_projection (code : Z) (values : FormValues) (st : State)
    (f : option ProviderType) (e : AvailableShift) (iso : jsstring) :
  200 <= code < 300 -> Forall validShift (shifts st) ->
  e ∈ availableShifts (shifts (onSubmit (HttpStatus code) values st)) f ->
  toISOString (av_date e) = Some iso ->
  slotId iso (av_providerType e) ∉ shiftDates values.
Proof.
  intros Hc Hv He Hiso Hin. rewrite onSubmit_resolved in He by assumption.
  cbn [shifts] in He.
  apply availableShifts_elem in He as [(shift' & Hs' & Hd & Ha) _].
  apply list_elem_of_fmap in Hs' as (shift & -> & Hs).
  rewrite clearedShift_date in Hd. rewrite <- Hd in Hiso.
  rewrite (clearedShift_available _ _ iso) in Ha by assumption.
  apply andb_prop in Ha as [_ Ha]. apply negb_true_iff in Ha.
  unfold includes in Ha. apply bool_decide_eq_false in Ha. contradiction.
Qed.

(** ** Invalid dates

    Outside the Shift collections of the statements above, an invalid
    date is never found by the upsert, stops the clearing loop, and is
    stored as null. *)

Lemma upsert_invalid_date (S : list Shift) newShift :
  date newShift = InvalidDate -> upsert S newShift = S ++ [newShift].
Proof.
  intros E. apply upsert_fresh. intros y _. rewrite E.
  unfold sameTime. destruct (date y); reflexivity.
Qed.

(** With an invalid date in the collection the handler of a resolved POST
    ends in its catch block: no success view, nothing stored. *)
Theorem onSubmit_invalid_date (r : Response) (values : FormValues) (st : State) :
  resolved r = true ->
  Exists (fun shift => date shift = InvalidDate) (shifts st) ->
  submitSuccess (onSubmit r values st) = false
  /\ isSubmitting (onSubmit r values st) = false
  /\ localStorage (onSubmit r values st) = localStorage st
  /\ console (onSubmit r values st) = console st ++ [SubmissionError RangeError].
Proof.
  intros Hr Hbad. unfold onSubmit, onSubmit_settle. rewrite Hr.
  cbn [onSubmit_start shifts].
  destruct (clearBookedShifts_throws (shiftDates values) _ Hbad) as [m ->].
  repeat split.
Qed.

Lemma onSubmit_invalid_date_witness :
  (resolved (HttpStatus 200) = true
   /\ Exists (fun shift => date shift = InvalidDate)
        (shifts (addOrUpdateShift
                   {| date := InvalidDate; pediatricAvailable := false;
                      adultAvailable := false |} scenarioState)))
  /\ submitSuccess
       (onSubmit (HttpStatus 200) scenarioValues
          (addOrUpdateShift
             {| date := InvalidDate; pediatricAvailable := false;
                adultAvailable := false |} scenarioState)) = false.
Proof.
  assert (Hbad : Exists (fun shift => date shift = InvalidDate)
            (shifts (addOrUpdateShift
                       {| date := InvalidDate; pediatricAvailable := false;
                          adultAvailable := false |} scenarioState))).
  { apply Exists_cons_tl, Exists_cons_hd. reflexivity. }
  exact (conj (conj eq_refl Hbad)
           (proj1 (onSubmit_invalid_date (HttpStatus 200) scenarioValues _
                     eq_refl Hbad))).
Defined.

(** ** The load effect at its edges *)

(** No item, or an empty one: the block is skipped and nothing is logged. *)
Example loadShifts_no_item :
  loadShifts None = {| loaded := []; load_console := [] |}
  /\ loadShifts (Some []) = {| loaded := []; load_console := [] |}.
Proof. split; reflexivity. Qed.

(** JSON that is no array, and an array with a null element, end in the
    catch block like a text that is not JSON. *)
Example loadShifts_type_errors :
  loadShifts (Some (json_text "{'date':'2024-06-01T00:00:00.000Z'}"))
  = {| loaded := []; load_console := [ErrorParsingStoredShifts TypeError] |}
  /\ loadShifts (Some (json_text "[{}, null]"))
     = {| loaded := []; load_console := [ErrorParsingStoredShifts TypeError] |}.
Proof. split; reflexivity. Qed.

(** An object with an own [toString] as the date of an element, alone or
    in an array: [new Date] throws, the error is logged and nothing is
    loaded.  An own [valueOf] does no harm. *)
Example loadShifts_date_conversion :
  loadShifts (Some (json_text
    "[{'date':{'toString':1},'pediatricAvailable':true,'adultAvailable':false}]"))
  = {| loaded := []; load_console := [ErrorParsingStoredShifts TypeError] |}
  /\ loadShifts (Some (json_text "[{}, {'date':[0,[{'toString':null}]]}]"))
     = {| loaded := []; load_console := [ErrorParsingStoredShifts TypeError] |}
  /\ load_console (loadShifts (Some (json_text "[{'date':{'valueOf':1}}]"))) = [].
Proof. repeat split; reflexivity. Qed.

Lemma loadShifts_unchecked_witness :
  (JSON_parse (json_text "[{}, 'x', {'date':{'valueOf':1}}]")
   = Some (JArr [JObj []; JStr (lit "x");
                 JObj [(lit "date", JObj [(lit "valueOf", JNum (lit "1"))])]])
   /\ Forall (fun item => dateThrows item = false)
        [JObj []; JStr (lit "x");
         JObj [(lit "date", JObj [(lit "valueOf", JNum (lit "1"))])]])
  /\ length (loaded (loadShifts (Some (json_text "[{}, 'x', {'date':{'valueOf':1}}]"))))
     = length [JObj []; JStr (lit "x");
               JObj [(lit "date", JObj [(lit "valueOf", JNum (lit "1"))])]]
  /\ load_console (loadShifts (Some (json_text "[{}, 'x', {'date':{'valueOf':1}}]")))
     = [].
Proof.
  assert (Hp : JSON_parse (json_text "[{}, 'x', {'date':{'valueOf':1}}]")
               = Some (JArr [JObj []; JStr (lit "x");
                             JObj [(lit "date",
                                    JObj [(lit "valueOf", JNum (lit "1"))])]]))
    by reflexivity.
  assert (Hr : Forall (fun item => dateThrows item = false)
                 [JObj []; JStr (lit "x");
                  JObj [(lit "date", JObj [(lit "valueOf", JNum (lit "1"))])]])
    by (repeat constructor).
  exact (conj (conj Hp Hr) (loadShifts_unchecked _ _ Hp Hr)).
Defined.

(** ** The admin editor and the slot list *)


Lemma find_app_first {A} (p : A -> bool) (pre post : list A) :
  (forall y, y ∈ pre -> p y = false) ->
  List.find p (pre ++ post) = List.find p post.
Proof.
  induction pre as [|y pre IH]; intros Hpre; [reflexivity|].
  cbn [app List.find]. rewrite (Hpre y) by apply list_elem_of_here.
  apply IH. intros z Hz. apply Hpre. now apply list_elem_of_further.
Qed.

Lemma find_app_last {A} (p : A -> bool) (l : list A) x :
  p x = false -> List.find p (l ++ [x]) = List.find p l.
Proof.
  intros Hx. induction l as [|y l IH]; cbn [app List.find].
  - now rewrite Hx.
  - destruct (p y); [reflexivity | exact IH].
Qed.

Lemma find_replace {A} (p : A -> bool) (pre post : list A) x y :
  p x = false -> p y = false ->
  List.find p (pre ++ x :: post) = List.find p (pre ++ y :: post).
Proof.
  intros Ex Ey. induction pre as [|z pre IH]; cbn [app List.find].
  - now rewrite Ex, Ey.
  - destruct (p z); [reflexivity | exact IH].
Qed.

Lemma sameTime_date a b : sameTime a b = true -> a = b.
Proof. intros H. apply sameTime_true in H as (t & -> & ->). reflexivity. Qed.

(** After a save of a Shift with a valid date, the lookup the selector is
    given ([shifts.find] by timestamp) finds that Shift for its date, and
    finds for every other timestamp what it found before. *)
Theorem currentShift_after_save (S : list Shift) (x : Shift) :
  validShift x ->
  currentShift (upsert S x) (date x) = Some x
  /\ (forall d, sameTime d (date x) = false ->
        currentShift (upsert S x) d = currentShift S d).
Proof.
  intros Hx. apply sameTime_refl in Hx. unfold currentShift.
  destruct (upsert_cases S x)
    as [(pre & y & post & -> & Hpre & Hy & ->) | [Hnone ->]].
  - split.
    + rewrite find_app_first by exact Hpre. cbn [List.find]. now rewrite Hx.
    + intros d Hd. apply sameTime_date in Hy. rewrite sameTime_sym in Hd.
      apply find_replace; [exact Hd | now rewrite Hy].
  - split.
    + rewrite find_app_first by exact Hnone. cbn [List.find]. now rewrite Hx.
    + intros d Hd. apply find_app_last. now rewrite sameTime_sym.
Qed.

Lemma find_Some_split {A} (p : A -> bool) (l : list A) x :
  List.find p l = Some x ->
  exists pre post, l = pre ++ x :: post /\ p x = true
                   /\ forall y, y ∈ pre -> p y = false.
Proof.
  induction l as [|z l IH]; cbn [List.find]; [discriminate|].
  destruct (p z) eqn:Ez.
  - intros [= ->]. exists [], l. repeat split; [assumption|].
    intros y Hy. apply elem_of_nil in Hy. contradiction.
  - intros H. destruct (IH H) as (pre & post & -> & Hx & Hpre).
    exists (z :: pre), post. repeat split; [assumption|].
    intros y Hy. apply elem_of_cons in Hy as [-> | Hy]; auto.
Qed.

Lemma find_None_all {A} (p : A -> bool) (l : list A) :
  List.find p l = None -> forall y, y ∈ l -> p y = false.
Proof.
  intros H y Hy. apply list_elem_of_In in Hy. exact (List.find_none p l H y Hy).
Qed.

(** Saving the selector as its effect seeded it changes nothing when the
    date has a stored Shift, and appends a Shift with both flags off when
    it has none. *)
Theorem save_unchanged_toggles (S : list Shift) (d : Date) :
  upsert S (selectorShift d (seedToggles (currentShift S d)))
  = match currentShift S d with
    | Some _ => S
    | None => S ++ [{| date := d; pediatricAvailable := false;
                       adultAvailable := false |}]
    end.
Proof.
  unfold currentShift.
  destruct (List.find (fun shift => sameTime (date shift) d) S) as [s|] eqn:E.
  - apply find_Some_split in E as (pre & post & -> & Hs & Hpre).
    cbn beta in Hs, Hpre. pose proof (sameTime_date _ _ Hs) as <-.
    replace (selectorShift (date s) (seedToggles (Some s))) with s
      by (destruct s; reflexivity).
    apply upsert_found; assumption.
  - apply upsert_fresh. exact (find_None_all _ _ E).
Qed.

Lemma upsert_new_elem (S : list Shift) x : x ∈ upsert S x.
Proof.
  destruct (upsert_cases S x)
    as [(pre & y & post & -> & _ & _ & ->) | [_ ->]];
    rewrite elem_of_app, elem_of_cons; auto.
Qed.

Lemma upsert_keeps (S : list Shift) x y :
  y ∈ S -> date y <> date x -> y ∈ upsert S x.
Proof.
  intros Hy Hd. destruct (upsert_cases S x)
    as [(pre & z & post & -> & _ & Hz & ->) | [_ ->]].
  - rewrite elem_of_app, elem_of_cons in Hy |- *.
    destruct Hy as [Hy | [-> | Hy]]; auto.
    apply sameTime_date in Hz. contradiction.
  - rewrite elem_of_app. auto.
Qed.

Lemma oneShiftPerDate_elem (S : list Shift) a b :
  oneShiftPerDate S -> a ∈ S -> b ∈ S -> validShift a -> date a = date b -> a = b.
Proof.
  intros Hinv Ha Hb Hv Hd.
  apply list_elem_of_lookup_1 in Ha as [i Hi], Hb as [j Hj].
  assert (i = j) as ->.
  { apply (Hinv i j a b Hi Hj). rewrite <- Hd. now apply sameTime_refl. }
  congruence.
Qed.

(** In a store with one Shift per timestamp, after a save the slots
    offered for the saved date are exactly the flags saved (those that
    pass the filter), and the slots of every other date are offered as
    before. *)
Theorem save_sets_offered_slots (S : list Shift) (x : Shift)
    (f : option ProviderType) (e : AvailableShift) :
  oneShiftPerDate S -> validShift x ->
  (av_date e = date x ->
     (e ∈ availableShifts (upsert S x) f
      <-> available (av_providerType e) x = true /\ keepEntry f e = true))
  /\ (av_date e <> date x ->
        (e ∈ availableShifts (upsert S x) f <-> e ∈ availableShifts S f)).
Proof.
  intros Hinv Hx. split; intros Hd; rewrite !availableShifts_elem.
  - split.
    + intros [(s & Hs & Hds & Ha) Hk]. split; [|exact Hk].
      replace x with s; [exact Ha|]. symmetry.
      apply (oneShiftPerDate_elem (upsert S x));
        [now apply oneShiftPerDate_upsert | apply upsert_new_elem | assumption
        | assumption | congruence].
    + intros [Ha Hk]. split; [|exact Hk]. exists x.
      split; [apply upsert_new_elem | auto].
  - split; intros [(s & Hs & Hds & Ha) Hk]; (split; [|exact Hk]); exists s.
    + apply upsert_elem in Hs as [Hs | ->]; [auto | congruence].
    + split; [|auto]. apply upsert_keeps; congruence.
Qed.

Lemma clearedShift_flags L shift p :
  available p (clearedShift L shift) = true -> available p shift = true.
Proof.
  unfold clearedShift. destruct (toISOString (date shift)); [|auto].
  destruct p; cbn [available clearBooked pediatricAvailable adultAvailable];
    destruct (includes L _); (discriminate || auto).
Qed.

Lemma onSubmit_lookup r values st i shift' :
  shifts (onSubmit r values st) !! i = Some shift' ->
  exists shift, shifts st !! i = Some shift
    /\ (shift' = shift \/ shift' = clearedShift (shiftDates values) shift).
Proof.
  intros Hi.
  assert (Hlen : length (shifts (onSubmit r values st)) = length (shifts st)).
  { rewrite <- (length_map date), onSubmit_dates. apply length_map. }
  destruct (shifts st !! i) as [shift|] eqn:E.
  - exists shift. split; [reflexivity|]. rewrite onSubmit_shifts in Hi.
    destruct (resolved r); [|left; congruence].
    destruct (memory_lookup (shiftDates values) _ _ _ E) as [H | H];
      rewrite H in Hi; injection Hi as <-; auto.
  - apply lookup_ge_None in E. apply lookup_lt_Some in Hi. lia.
Qed.

(** A submission, however it ends, makes no slot available: every Shift
    keeps its place and its date and has no flag set that was not set, and
    every entry offered afterwards was offered before. *)
Theorem submission_never_offers_more (r : Response) (values : FormValues)
    (st : State) (f : option ProviderType) :
  (forall i shift', shifts (onSubmit r values st) !! i = Some shift' ->
     exists shift, shifts st !! i = Some shift /\ date shift' = date shift
       /\ forall p, available p shift' = true -> available p shift = true)
  /\ (forall e, e ∈ availableShifts (shifts (onSubmit r values st)) f ->
        e ∈ availableShifts (shifts st) f).
Proof.
  assert (H1 : forall i shift', shifts (onSubmit r values st) !! i = Some shift' ->
     exists shift, shifts st !! i = Some shift /\ date shift' = date shift
       /\ forall p, available p shift' = true -> available p shift = true).
  { intros i shift' Hi. apply onSubmit_lookup in Hi as (shift & Hs & [-> | ->]);
      exists shift; (split; [exact Hs|]).
    - auto.
    - split; [apply clearedShift_date|]. intros p. apply clearedShift_flags. }
  split; [exact H1|]. intros e. rewrite !availableShifts_elem.
  intros [(s' & Hs' & Hd & Ha) Hk]. split; [|exact Hk].
  apply list_elem_of_lookup_1 in Hs' as [i Hi].
  destruct (H1 i s' Hi) as (s & Hs & Hds & Hfl). exists s.
  split; [eapply list_elem_of_lookup_2, Hs|]. split; [congruence | auto].
Qed.

Lemma filter_flat_map {A B} (g : B -> bool) (h : A -> list B) (l : list A) :
  List.filter g (List.flat_map h l) = List.flat_map (fun x => List.filter g (h x)) l.
Proof.
  induction l as [|x l IH]; [reflexivity|].
  cbn [List.flat_map]. now rewrite List.filter_app, IH.
Qed.

Lemma filter_comm {A} (g k : A -> bool) (l : list A) :
  List.filter g (List.filter k l) = List.filter k (List.filter g l).
Proof.
  induction l as [|x l IH]; [reflexivity|]. cbn [List.filter].
  destruct (k x) eqn:Ek, (g x) eqn:Eg; cbn [List.filter];
    rewrite ?Ek, ?Eg, IH; reflexivity.
Qed.

Lemma shiftEntries_cleared L shift :
  validShift shift ->
  shiftEntries (clearedShift L shift)
  = List.filter (fun e => negb (booked L e)) (shiftEntries shift).
Proof.
  destruct shift as [[|t] ped ad]; [contradiction|]. intros _.
  unfold clearedShift, shiftEntries, clearBooked, booked, slotValue.
  cbn [toISOString date pediatricAvailable adultAvailable].
  change (isoString t ++ lit "-pediatric") with (slotId (isoString t) pediatric).
  change (isoString t ++ lit "-adult") with (slotId (isoString t) adult).
  destruct ped, ad; cbn [app List.filter av_date av_providerType toISOString
                           mbind option_bind];
    destruct (includes L (slotId (isoString t) pediatric));
    destruct (includes L (slotId (isoString t) adult)); reflexivity.
Qed.

(** On a store of valid dates, the projection after a successful
    submission is the projection before it without the entries whose
    checkbox value was submitted, in the same order. *)
Theorem success_removes_booked_slots (code : Z) (values : FormValues) (st : State)
    (f : option ProviderType) :
  200 <= code < 300 -> Forall validShift (shifts st) ->
  availableShifts (shifts (onSubmit (HttpStatus code) values st)) f
  = List.filter (fun e => negb (booked (shiftDates values) e))
      (availableShifts (shifts st) f).
Proof.
  intros Hc Hv. rewrite onSubmit_resolved by assumption. cbn [shifts].
  unfold availableShifts. rewrite filter_comm. f_equal.
  induction Hv as [|shift S Hs _ IH]; [reflexivity|].
  cbn [map List.flat_map]. rewrite List.filter_app, <- IH. f_equal.
  now apply shiftEntries_cleared.
Qed.

Lemma slotId_eq t1 t2 p1 p2 :
  - maxTime <= t1 <= maxTime -> - maxTime <= t2 <= maxTime ->
  slotId (isoString t1) p1 = slotId (isoString t2) p2 -> t1 = t2 /\ p1 = p2.
Proof.
  intros H1 H2 E. pose proof (f_equal length E) as Hlen.
  unfold slotId in E, Hlen. rewrite !length_app in Hlen.
  destruct (length_isoString t1) as [L1 | L1], (length_isoString t2) as [L2 | L2];
    rewrite L1, L2 in Hlen;
    destruct p1, p2; cbn in Hlen; try lia;
    (split; [|reflexivity]);
    apply app_inv_tail in E; now apply isoString_injective.
Qed.

Lemma slotValue_None e : slotValue e = None <-> av_date e = InvalidDate.
Proof.
  unfold slotValue. destruct (av_date e); cbn; split; congruence.
Qed.

Lemma slotValue_inj e1 e2 v :
  validDate (av_date e1) -> validDate (av_date e2) ->
  slotValue e1 = Some v -> slotValue e2 = Some v -> e1 = e2.
Proof.
  destruct e1 as [[|t1] p1], e2 as [[|t2] p2]; cbn [av_date validDate];
    try contradiction.
  intros H1 H2. unfold slotValue.
  cbn [av_date av_providerType toISOString mbind option_bind].
  intros [= <-] [= E]. symmetry in E.
  destruct (slotId_eq _ _ _ _ H1 H2 E) as [-> ->]. reflexivity.
Qed.

Lemma slotCheckbox_None fv e : slotCheckbox fv e = None <-> av_date e = InvalidDate.
Proof.
  rewrite <- slotValue_None. unfold slotCheckbox.
  destruct (slotValue e); cbn; split; congruence.
Qed.

(** Rendering the slot list throws exactly when a stored Shift with an
    Invalid Date has a flag set whose entry passes the filter. *)
Theorem slotCheckboxes_throws (S : list Shift) (values : FormValues) :
  slotCheckboxes S values = None
  <-> exists shift p, shift ∈ S /\ date shift = InvalidDate
        /\ available p shift = true
        /\ keepEntry (providerType values) (entry shift p) = true.
Proof.
  unfold slotCheckboxes. rewrite mapM_None, Exists_exists. split.
  - intros (e & He & Hn). apply slotCheckbox_None in Hn.
    apply availableShifts_elem in He as [(shift & Hs & Hd & Ha) Hk].
    exists shift, (av_providerType e).
    split; [exact Hs|]. split; [congruence|]. split; [exact Ha|].
    destruct e as [d p]. cbn in Hd. subst d. exact Hk.
  - intros (shift & p & Hs & Hd & Ha & Hk). exists (entry shift p). split.
    + apply availableShifts_elem. split; [|exact Hk]. exists shift. auto.
    + apply slotCheckbox_None. exact Hd.
Qed.

Lemma NoDup_shiftEntries shift : NoDup (shiftEntries shift).
Proof.
  unfold shiftEntries. destruct (pediatricAvailable shift), (adultAvailable shift);
    cbn [app]; repeat constructor;
    rewrite ?elem_of_cons, ?elem_of_nil; intuition discriminate.
Qed.

Lemma NoDup_flat_shiftEntries (S : list Shift) :
  NoDup (map date S) -> NoDup (List.flat_map shiftEntries S).
Proof.
  induction S as [|shift S IH]; cbn [map List.flat_map]; [constructor|].
  intros Hnd. apply NoDup_cons in Hnd as [Hx Hnd]. apply NoDup_app.
  split; [apply NoDup_shiftEntries|]. split; [|auto].
  intros e He Hin. apply shiftEntries_spec in He as [Hd _].
  apply list_elem_of_In, List.in_flat_map in Hin as (s' & Hs' & He').
  apply list_elem_of_In, shiftEntries_spec in He' as [Hd' _].
  apply Hx. rewrite Hd, <- Hd'. apply list_elem_of_fmap. exists s'.
  split; [reflexivity | now apply list_elem_of_In].
Qed.

Lemma NoDup_List_filter {A} (g : A -> bool) (l : list A) :
  NoDup l -> NoDup (List.filter g l).
Proof.
  induction 1 as [|x l Hx _ IH]; cbn [List.filter]; [constructor|].
  destruct (g x); [|exact IH]. constructor; [|exact IH].
  rewrite list_elem_of_In, List.filter_In, <- list_elem_of_In. tauto.
Qed.

Lemma oneShiftPerDate_NoDup (S : list Shift) :
  Forall validShift S -> oneShiftPerDate S -> NoDup (map date S).
Proof.
  intros Hv Hinv. apply NoDup_alt. intros i j d Hi Hj.
  rewrite list_lookup_fmap in Hi, Hj.
  destruct (S !! i) as [a|] eqn:Ea; [|discriminate].
  destruct (S !! j) as [b|] eqn:Eb; [|discriminate].
  cbn in Hi, Hj. injection Hi as Hi. injection Hj as Hj.
  apply (Hinv i j a b Ea Eb). rewrite Hi, Hj. apply sameTime_refl.
  rewrite <- Hi. exact (Forall_lookup_1 _ _ _ _ Hv Ea).
Qed.

Lemma availableShifts_valid (S : list Shift) f :
  Forall validShift S -> Forall (fun e => validDate (av_date e)) (availableShifts S f).
Proof.
  rewrite !Forall_forall. intros Hv e He.
  apply availableShifts_elem in He as [(shift & Hs & Hd & _) _].
  rewrite <- Hd. now apply Hv.
Qed.

Lemma slotCheckbox_values fv (l : list AvailableShift) :
  Forall (fun e => validDate (av_date e)) l -> NoDup l ->
  exists boxes, mapM (slotCheckbox fv) l = Some boxes
    /\ Forall2 (fun e box => slotValue e = Some (cb_value box)
                             /\ cb_checked box = includes fv (cb_value box)) l boxes
    /\ NoDup (map cb_value boxes).
Proof.
  induction 1 as [|e l He Hl IH]; intros Hnd.
  - exists []. repeat split; constructor.
  - apply NoDup_cons in Hnd as [Hx Hnd]. destruct (IH Hnd) as (boxes & Hm & HF & Hb).
    destruct (slotValue e) as [v|] eqn:Ev;
      [|apply slotValue_None in Ev; rewrite Ev in He; contradiction].
    exists ({| cb_value := v; cb_checked := includes fv v |} :: boxes).
    split; [|split].
    + assert (Hbox : slotCheckbox fv e
                     = Some {| cb_value := v; cb_checked := includes fv v |})
        by (unfold slotCheckbox; rewrite Ev; reflexivity).
      cbn [mapM]. rewrite Hbox. cbn [mbind option_bind]. rewrite Hm. reflexivity.
    + constructor; [split; [exact Ev | reflexivity] | exact HF].
    + cbn [map cb_value]. constructor; [|exact Hb].
      intros Hin. apply list_elem_of_fmap in Hin as (box & Hv & Hbox).
      apply list_elem_of_lookup_1 in Hbox as [i Hi].
      destruct (Forall2_lookup_r _ _ _ _ _ HF Hi) as (e' & He' & Hs' & _).
      apply Hx. replace e with e'; [eapply list_elem_of_lookup_2, He'|].
      apply (slotValue_inj e' e v); try assumption.
      * exact (Forall_lookup_1 _ _ _ _ Hl He').
      * now rewrite Hv.
Qed.

(** On a store of valid dates with one Shift per timestamp the slot list
    renders: one checkbox per entry of the projection, in its order,
    checked exactly when its value is in the field, and no two checkboxes
    share a value (which is also their React key and their id). *)
Theorem slotCheckboxes_distinct (S : list Shift) (values : FormValues) :
  Forall validShift S -> oneShiftPerDate S ->
  exists boxes,
    slotCheckboxes S values = Some boxes
    /\ Forall2 (fun e box => slotValue e = Some (cb_value box)
                  /\ cb_checked box = includes (shiftDates values) (cb_value box))
         (availableShifts S (providerType values)) boxes
    /\ NoDup (map cb_value boxes).
Proof.
  intros Hv Hinv. apply slotCheckbox_values.
  - now apply availableShifts_valid.
  - apply NoDup_List_filter, NoDup_flat_shiftEntries.
    now apply oneShiftPerDate_NoDup.
Qed.

Lemma includes_spec L x : includes L x = true <-> x ∈ L.
Proof. unfold includes. apply bool_decide_eq_true. Qed.

Lemma filter_all {A} (g : A -> bool) (l : list A) :
  (forall x, x ∈ l -> g x = true) -> List.filter g l = l.
Proof.
  induction l as [|x l IH]; intros H; [reflexivity|]. cbn [List.filter].
  rewrite (H x) by apply list_elem_of_here. f_equal. apply IH.
  intros y Hy. apply H. now apply list_elem_of_further.
Qed.

(** The handler of a slot checkbox: checking adds the value to the
    field, unchecking removes every occurrence of it and nothing else, and
    unchecking a value just checked that was not in the field gives the
    field back. *)
Theorem onCheckedChange_roundtrip (value : jsstring) (fieldValue : list jsstring) :
  (forall v, v ∈ onCheckedChange value true fieldValue <-> v ∈ fieldValue \/ v = value)
  /\ (forall v, v ∈ onCheckedChange value false fieldValue
                <-> v ∈ fieldValue /\ v <> value)
  /\ (value ∉ fieldValue ->
      onCheckedChange value false (onCheckedChange value true fieldValue) = fieldValue).
Proof.
  unfold onCheckedChange. split; [|split].
  - intros v. rewrite elem_of_app, list_elem_of_singleton. reflexivity.
  - intros v. rewrite list_elem_of_In, List.filter_In, <- list_elem_of_In.
    rewrite negb_true_iff, bool_decide_eq_false. reflexivity.
  - intros Hnot. rewrite List.filter_app. cbn [List.filter].
    rewrite bool_decide_eq_true_2 by reflexivity. cbn [negb].
    rewrite app_nil_r. apply filter_all. intros x Hx.
    apply negb_true_iff, bool_decide_eq_false. congruence.
Qed.

Lemma parseShift_json_reloaded (shift : Shift) :
  date shift = InvalidDate \/ validShift shift ->
  parseShift (Shift_json shift) = Some (shiftObject (reloaded shift)).
Proof.
  intros [Hd | Hv].
  - destruct shift as [d b1 b2]. cbn in Hd. subst d.
    unfold parseShift, Shift_json, shiftObject, ownProperties, reloaded.
    cbn [toISOString date pediatricAvailable adultAvailable fold_left fst snd].
    apply (f_equal Some), (f_equal2 Build_ParsedShift).
    + rewrite !lookup_insert_ne by distinct_keys.
      now rewrite lookup_insert_eq.
    + rewrite !delete_insert_ne by distinct_keys.
      rewrite delete_insert_eq, delete_empty.
      apply insert_insert_ne. distinct_keys.
  - rewrite parseShift_json by assumption. unfold reloaded.
    destruct shift as [[|t] b1 b2]; [contradiction | reflexivity].
Qed.

(** A collection saved and loaded again comes back with every valid
    date as it was and every Invalid Date replaced by the epoch: it is
    written as null, and [new Date(null)] is time 0.  Nothing is logged. *)
Theorem reload_dates_invalid_at_epoch (S : list Shift) :
  Forall (fun shift => date shift = InvalidDate \/ validShift shift) S ->
  load_console (loadShifts (Some (JSON_stringify S))) = []
  /\ mapM asShift (loaded (loadShifts (Some (JSON_stringify S))))
     = Some (map reloaded S).
Proof.
  intros HS.
  assert (Hm : mapM parseShift (map Shift_json S)
               = Some (map shiftObject (map reloaded S))).
  { induction HS as [|shift S Hs _ IH]; [reflexivity|].
    cbn [map mapM]. rewrite parseShift_json_reloaded by assumption.
    cbn [mbind option_bind]. rewrite IH. reflexivity. }
  unfold loadShifts. rewrite JSON_parse_stringify, Hm.
  destruct (JSON_stringify_bracket S) as [rest ->]. cbn [loaded load_console].
  split; [reflexivity | apply mapM_asShift].
Qed.

(** Once the stored text is the collection in memory it stays so,
    through any sequence of saves of valid dates and of submissions,
    whatever their outcome. *)
Theorem storage_follows_memory (events : list Event) (st : State) :
  persisted st -> Forall validShift (shifts st) -> Forall validEvent events ->
  persisted (fold_left react events st)
  /\ Forall validShift (shifts (fold_left react events st)).
Proof.
  intros Hp Hv He. revert st Hp Hv.
  induction He as [|e events Hev _ IH]; intros st Hp Hv; [auto|].
  cbn [fold_left]. apply IH.
  - destruct e as [newShift | r values]; cbn [react].
    + reflexivity.
    + destruct r as [|code]; [exact Hp|].
      destruct (decide (200 <= code < 300)) as [Hc | Hc].
      * rewrite onSubmit_resolved by assumption. reflexivity.
      * unfold persisted, onSubmit, onSubmit_settle, resolved.
        replace ((200 <=? code) && (code <? 300)) with false; [exact Hp|].
        symmetry. apply andb_false_iff. rewrite Z.leb_gt, Z.ltb_ge. lia.
  - destruct e as [newShift | r values]; cbn [react].
    + apply upsert_valid; assumption.
    + rewrite onSubmit_shifts. destruct (resolved r); [|exact Hv].
      rewrite clearBookedShifts_valid by assumption. cbn [memory].
      rewrite Forall_fmap. eapply Forall_impl; [exact Hv|].
      intros shift. apply clearedShift_valid.
Qed.

(** ** Objects and arrays *)

Lemma deref_app_objects (objects more : list Shift) (array : list nat) :
  Forall (fun r => (r < length objects)%nat) array ->
  deref (objects ++ more) array = deref objects array.
Proof.
  induction 1 as [|r array Hr _ IH]; [reflexivity|].
  unfold deref in *. cbn [map]. rewrite IH. f_equal.
  now apply lookup_total_app_l.
Qed.

Lemma deref_prefix (objects objects' : list Shift) (array : list nat) :
  objects `prefix_of` objects' ->
  Forall (fun r => (r < length objects)%nat) array ->
  deref objects' array = deref objects array.
Proof. intros [more ->]. apply deref_app_objects. Qed.

Lemma findIndex_deref (objects : list Shift) (d : Date) (array : list nat) :
  findIndex (refSameTime objects d) array
  = findIndex (fun shift => sameTime (date shift) d) (deref objects array).
Proof.
  induction array as [|r array IH]; [reflexivity|].
  unfold deref in *. cbn [map findIndex]. unfold refSameTime at 1.
  destruct (sameTime (date (objects !!! r)) d); [reflexivity|]. now rewrite IH.
Qed.



(** The array after [addOrUpdateShift] refers to the upsert of the Shifts
    it referred to. *)
Lemma deref_upsert (objects : list Shift) (array : list nat) (newShift : Shift) :
  Forall (fun r => (r < length objects)%nat) array ->
  deref (objects ++ [newShift])
    (match findIndex (refSameTime objects (date newShift)) array with
     | Some existingShiftIndex =>
         imap (fun index r =>
                 if Nat.eqb index existingShiftIndex then length objects else r)
           array
     | None => array ++ [length objects]
     end)
  = upsert (deref objects array) newShift.
Proof.
  intros Hb. unfold upsert. rewrite findIndex_deref.
  assert (Hnew : (objects ++ [newShift]) !!! length objects = newShift)
    by (now apply list_lookup_total_middle).
  destruct (findIndex _ (deref objects array)) as [i|].
  - rewrite !imap_replace. unfold deref at 1. rewrite list_fmap_insert, Hnew.
    f_equal. now apply deref_app_objects.
  - unfold deref at 1. rewrite map_app. cbn [map]. rewrite Hnew. f_equal.
    now apply deref_app_objects.
Qed.

Lemma length_clearBookedObjects L (array : list nat) : forall objects,
  length (clearBookedObjects L array objects).2 = length objects.
Proof.
  induction array as [|r array IH]; intros objects; [reflexivity|].
  cbn [clearBookedObjects]. destruct (toISOString _); [|reflexivity].
  rewrite IH. apply length_insert.
Qed.

(** The loop on the objects does to the Shifts of the array what
    [clearBookedShifts] does, when no object is twice in the array; the
    other objects stay as they are. *)
Lemma clearBookedObjects_spec L (array : list nat) : forall objects,
  NoDup array -> Forall (fun r => (r < length objects)%nat) array ->
  deref (clearBookedObjects L array objects).2 array
  = memory (clearBookedShifts L (deref objects array))
  /\ (clearBookedObjects L array objects).1
     = match clearBookedShifts L (deref objects array) with
       | MapDone _ => None
       | MapThrew _ => Some RangeError
       end
  /\ forall r, r ∉ array ->
       (clearBookedObjects L array objects).2 !!! r = objects !!! r.
Proof.
  induction array as [|r array IH]; intros objects Hnd Hb.
  - repeat split.
  - apply NoDup_cons in Hnd as [Hr Hnd]. apply Forall_cons in Hb as [Hrb Hb].
    change (deref objects (r :: array))
      with (objects !!! r :: deref objects array).
    rewrite memory_cons. cbn [clearBookedObjects clearBookedShifts].
    destruct (toISOString (date (objects !!! r))) as [iso|] eqn:E.
    + set (shift' := clearBooked L iso (objects !!! r)).
      assert (Hb' : Forall (fun r0 => (r0 < length (<[r:=shift']> objects))%nat) array)
        by (now rewrite length_insert).
      destruct (IH (<[r:=shift']> objects) Hnd Hb') as (Hd & He & Hf).
      assert (Hsame : deref (<[r:=shift']> objects) array = deref objects array).
      { unfold deref. apply map_ext_in. intros r' Hr'.
        apply list_lookup_total_insert_ne. intros ->.
        apply Hr, list_elem_of_In, Hr'. }
      rewrite Hsame in Hd, He. split; [|split].
      * change (deref ?o (r :: array)) with (o !!! r :: deref o array).
        rewrite Hd, (Hf r Hr). f_equal.
        now apply list_lookup_total_insert_eq.
      * rewrite He. destruct (clearBookedShifts L (deref objects array)); reflexivity.
      * intros r' Hr'. apply not_elem_of_cons in Hr' as [Hne Hr'].
        rewrite (Hf r' Hr'). apply list_lookup_total_insert_ne. congruence.
    + repeat split.
Qed.

(** ** The render after an action *)

Lemma commit_selector pg : exists selector, commit pg = with_selector selector pg.
Proof.
  unfold commit. destruct (shownDate pg); [|eauto].
  destruct (pg_selector pg) as [sel|] eqn:E; [|eauto].
  destruct (decide _); [|eauto].
  exists (Some sel). destruct pg. cbn in E. subst. reflexivity.
Qed.

Lemma view_commit pg : view (commit pg) = view pg.
Proof. destruct (commit_selector pg) as [s ->]. reflexivity. Qed.

Lemma act_Some es pg a pg' :
  act es pg a = Some pg' <-> exists pg0, handle es pg a = Some pg0 /\ pg' = commit pg0.
Proof.
  unfold act. destruct (handle es pg a) as [pg0|]; cbn.
  - split; [intros [= <-]; eauto | intros (? & [= <-] & ->); reflexivity].
  - split; [discriminate | intros (? & ? & _); discriminate].
Qed.

(** ** Consistency of the pages *)

Lemma sound_initialPage stored : sound (initialPage stored).
Proof.
  split; cbn; try (constructor; fail); try tauto; try discriminate.
  split; [discriminate | intros [? [=]]].
Qed.

Lemma sound_with_selector selector pg : sound pg -> sound (with_selector selector pg).
Proof. intros [? ? ? ? ? ? ?]. split; assumption. Qed.

Lemma sound_with_form values pg : sound pg -> sound (with_form values pg).
Proof. intros [? ? ? ? ? ? ?]. split; assumption. Qed.

Lemma selectorShown_commit pg : selectorShown (commit pg).
Proof.
  unfold selectorShown, commit.
  destruct (shownDate pg) as [d|] eqn:E.
  - assert (Hs : forall s, shownDate (with_selector s pg) = Some d) by (intros; exact E).
    destruct (pg_selector pg) as [sel|] eqn:Es.
    + destruct (decide _) as [Hc | Hc].
      * rewrite E. eauto.
      * rewrite Hs. eexists. split; reflexivity.
    + rewrite Hs. eexists. split; reflexivity.
  - change (shownDate (with_selector None pg)) with (shownDate pg). now rewrite E.
Qed.

Lemma consistent_commit pg : sound pg -> consistent (commit pg).
Proof.
  intros H. split; [|apply selectorShown_commit].
  destruct (commit_selector pg) as [s ->]. now apply sound_with_selector.
Qed.

Lemma NoDup_insert_fresh (array : list nat) (new : nat) : forall i,
  NoDup array -> new ∉ array -> NoDup (<[i:=new]> array).
Proof.
  induction array as [|r array IH]; intros i Hnd Hnew; [exact Hnd|].
  apply NoDup_cons in Hnd as [Hr Hnd]. apply not_elem_of_cons in Hnew as [Hne Hnew].
  destruct i as [|i].
  - change (<[0%nat:=new]> (r :: array)) with (new :: array).
    now apply NoDup_cons.
  - change (<[S i:=new]> (r :: array)) with (r :: <[i:=new]> array).
    apply NoDup_cons. split; [|now apply IH].
    intros Hin. apply list_elem_of_lookup_1 in Hin as [j Hj].
    apply list_lookup_insert_Some in Hj as [(_ & -> & _) | [_ Hj]];
      [congruence|]. apply Hr. eapply list_elem_of_lookup_2, Hj.
Qed.

Lemma updatedShifts_sound (p : nat -> bool) (array : list nat) (n : nat) :
  Forall (fun r => (r < n)%nat) array -> NoDup array ->
  let updatedShifts :=
    match findIndex p array with
    | Some existingShiftIndex =>
        imap (fun index r => if Nat.eqb index existingShiftIndex then n else r) array
    | None => array ++ [n]
    end in
  Forall (fun r => (r < S n)%nat) updatedShifts /\ NoDup updatedShifts.
Proof.
  intros Hb Hnd.
  assert (Hnew : n ∉ array).
  { intros Hin. rewrite Forall_forall in Hb. specialize (Hb n Hin). lia. }
  assert (Hb' : Forall (fun r => (r < S n)%nat) array)
    by (eapply Forall_impl; [exact Hb | cbn; lia]).
  destruct (findIndex p array) as [i|]; cbn zeta.
  - rewrite imap_replace. split; [apply Forall_insert; [assumption | lia]|].
    now apply NoDup_insert_fresh.
  - split; [apply Forall_app; split; [assumption | repeat constructor]|].
    apply NoDup_app. split; [assumption|]. split; [|apply NoDup_singleton].
    intros x Hx Hx'. apply list_elem_of_singleton in Hx'. congruence.
Qed.

Lemma Forall_bound_le (array : list nat) (n m : nat) :
  (n <= m)%nat -> Forall (fun r => (r < n)%nat) array -> Forall (fun r => (r < m)%nat) array.
Proof. intros Hle H. eapply Forall_impl; [exact H | cbn; lia]. Qed.

Lemma handle_sound es pg a pg' :
  sound pg -> handle es pg a = Some pg' -> sound pg'.
Proof.
  intros Hs H. pose proof Hs as [Hb Hnd Hpb Hpf Hbm Has Hsv].
  destruct a; cbn [handle] in H.
  - (* Mount *)
    destruct (pg_isClient pg) eqn:Ec; [discriminate|].
    destruct (Hbm eq_refl) as [Hp Hsucc].
    unfold mountEffect in H.
    destruct (mapM asShift _) as [parsed|]; [|discriminate].
    injection H as <-. split; cbn.
    + apply Forall_seq. intros j Hj. rewrite length_app. lia.
    + apply NoDup_seq.
    + intros pending Hpd. congruence.
    + exact Hpf.
    + discriminate.
    + intros _. exact Hp.
    + exact Hsv.
  - (* PickDay *)
    destruct (adminOnScreen pg && calendarDay day) eqn:G; [|discriminate].
    injection H as <-. destruct day as [d|]; [|exact Hs].
    apply andb_prop in G as [_ G]. cbn [calendarDay] in G.
    apply bool_decide_eq_true in G.
    split; try assumption. cbn. intros d' [= <-]. exact G.
  - destruct (adminOnScreen pg); [|discriminate].
    destruct (pg_selector pg); [|discriminate]. injection H as <-.
    now apply sound_with_selector.
  - destruct (adminOnScreen pg); [|discriminate].
    destruct (pg_selector pg); [|discriminate]. injection H as <-.
    now apply sound_with_selector.
  - (* ClickSave *)
    destruct (adminOnScreen pg); [|discriminate]. unfold onSave in H.
    destruct (pg_selector pg) as [sel|]; [|discriminate].
    destruct (pg_selectedDate pg) as [d|]; [|discriminate].
    cbn [mbind option_bind] in H. injection H as <-.
    destruct (updatedShifts_sound
                (refSameTime (pg_objects pg) (date (selectorShift d (sel_toggles sel))))
                (pg_shifts pg) (length (pg_objects pg)) Hb Hnd) as [Hb' Hnd'].
    split; cbn.
    + rewrite length_app. cbn [length]. rewrite Nat.add_1_r. exact Hb'.
    + exact Hnd'.
    + intros pending Hpd. destruct (Hpb pending Hpd) as [H1 H2]. split; [|exact H2].
      rewrite length_app. eapply Forall_bound_le; [|exact H1]. lia.
    + exact Hpf.
    + exact Hbm.
    + exact Has.
    + discriminate.
  - destruct (adminOnScreen pg); [|discriminate]. injection H as <-.
    split; assumption.
  - destruct (formOnScreen pg); [|discriminate]. injection H as <-.
    now apply sound_with_form.
  - destruct (formOnScreen pg); [|discriminate]. injection H as <-.
    now apply sound_with_form.
  - destruct (formOnScreen pg); [|discriminate]. injection H as <-.
    now apply sound_with_form.
  - destruct (formOnScreen pg); [|discriminate]. injection H as <-.
    now apply sound_with_form.
  - destruct (formOnScreen pg && slotOnScreen pg value); [|discriminate].
    injection H as <-. now apply sound_with_form.
  - (* SubmitEvent *)
    destruct (formOnScreen pg && negb (pg_isSubmitting pg)) eqn:G; [|discriminate].
    injection H as <-. unfold submitForm.
    destruct (formSchema es (pg_form pg)); [|exact Hs].
    apply andb_prop in G as [G _]. unfold formOnScreen in G.
    apply andb_prop in G as [G _]. apply andb_prop in G as [Gc Gs].
    apply negb_true_iff in Gs.
    split; cbn.
    + exact Hb.
    + exact Hnd.
    + intros pending [= <-]. cbn. auto.
    + split; [eauto | reflexivity].
    + congruence.
    + congruence.
    + exact Hsv.
  - (* Settle *)
    unfold settleSubmit in H. destruct (pg_pending pg) as [pending|] eqn:Ep;
      [|discriminate].
    cbn [mbind option_bind] in H. injection H as <-.
    destruct (Hpb pending eq_refl) as [Hcb Hcnd].
    assert (Hc : pg_isClient pg = true).
    { destruct (pg_isClient pg) eqn:Ec; [reflexivity|].
      destruct (Hbm eq_refl). congruence. }
    assert (Hno : false = true <-> is_Some (@None Pending))
      by (split; [discriminate | intros [? [=]]]).
    destruct (resolved r).
    + pose proof (length_clearBookedObjects (shiftDates (pend_values pending))
                    (pend_shifts pending) (pg_objects pg)) as Hlen.
      destruct (clearBookedObjects _ _ _) as [[e|] objects]; cbn [snd] in Hlen;
        split; cbn; rewrite ?Hlen; try assumption; try congruence; auto.
    + split; cbn; try assumption; try congruence; auto.
Qed.

Lemma act_consistent es pg a pg' :
  consistent pg -> act es pg a = Some pg' -> consistent pg'.
Proof.
  intros [Hs _] H. apply act_Some in H as (pg0 & H & ->).
  apply consistent_commit. eapply handle_sound; eassumption.
Qed.

Lemma run_consistent es (actions : list Action) : forall pg pg',
  consistent pg -> runActions es pg actions = Some pg' -> consistent pg'.
Proof.
  induction actions as [|a actions IH]; intros pg pg' Hc H; cbn [runActions] in H.
  - now injection H as <-.
  - destruct (act es pg a) as [pg1|] eqn:E; [|discriminate].
    cbn [mbind option_bind] in H. eapply IH; [|exact H].
    eapply act_consistent; eassumption.
Qed.

Lemma reachable_consistent es pg : reachable es pg -> consistent pg.
Proof.
  intros (stored & actions & H). eapply run_consistent; [|exact H].
  split; [apply sound_initialPage | reflexivity].
Qed.



(** On every page the component reaches from a stored item of its own
    (or from none), a click on Save is [addOrUpdateShift] on the state,
    with the Shift made of the selected date, which is a valid date, and
    of the selector's toggles; the selector is unmounted. *)
Theorem page_save_is_upsert (email_syntax : jsstring -> bool)
    (stored : option jsstring) (actions : list Action) (pg pg' : Page) :
  ownStorage stored ->
  runActions email_syntax (initialPage stored) actions = Some pg ->
  act email_syntax pg ClickSave = Some pg' ->
  exists d sel,
    pg_selectedDate pg = Some d /\ pg_selector pg = Some sel
    /\ validDate d
    /\ view pg' = addOrUpdateShift (selectorShift d (sel_toggles sel)) (view pg)
    /\ pg_selector pg' = None.
Proof.
  intros _ Hrun H.
  assert (Hr : reachable email_syntax pg) by (exists stored, actions; exact Hrun).
  apply reachable_consistent in Hr as [Hs Hsel].
  apply act_Some in H as (pg0 & H & ->). cbn [handle] in H.
  destruct (adminOnScreen pg) eqn:G; [|discriminate].
  unfold onSave in H.
  destruct (pg_selector pg) as [sel|] eqn:Esel; [|discriminate].
  destruct (pg_selectedDate pg) as [d|] eqn:Ed; [|discriminate].
  cbn [mbind option_bind] in H. injection H as <-.
  exists d, sel. split; [reflexivity|]. split; [reflexivity|].
  split; [|split].
  - exact (selected_valid _ Hs d Ed).
  - rewrite view_commit. unfold view, addOrUpdateShift, shiftsOf.
    cbn [pg_objects pg_shifts pg_isSubmitting pg_submitSuccess pg_selectedDate
         pg_form pg_storage pg_console pg_posted shifts isSubmitting submitSuccess
         formValues formErrors console posted].
    pose proof (deref_upsert (pg_objects pg) (pg_shifts pg)
                  (selectorShift d (sel_toggles sel)) (shifts_bound _ Hs)) as Hu.
    cbn [date selectorShift] in Hu. rewrite Hu. reflexivity.
  - unfold commit, shownDate. cbn [pg_selectedDate].
    now destruct (_ && _).
Qed.

Lemma commit_fields pg :
  pg_objects (commit pg) = pg_objects pg /\ pg_shifts (commit pg) = pg_shifts pg
  /\ pg_pending (commit pg) = pg_pending pg
  /\ pg_isSubmitting (commit pg) = pg_isSubmitting pg
  /\ pg_isAdmin (commit pg) = pg_isAdmin pg
  /\ pg_isClient (commit pg) = pg_isClient pg
  /\ pg_submitSuccess (commit pg) = pg_submitSuccess pg
  /\ pg_storage (commit pg) = pg_storage pg
  /\ pg_form (commit pg) = pg_form pg
  /\ pg_selectedDate (commit pg) = pg_selectedDate pg.
Proof. destruct (commit_selector pg) as [s ->]. repeat split. Qed.

(** On every page the component reaches from a stored item of its own
    (or from none), a submit event followed by the settling of its POST,
    with nothing in between, is [handleSubmit] on the state: the
    assignments to the shared objects give the collection the
    state-passing model computes, also when the loop throws.  The POST is
    there to settle only when the form passed the schema. *)
Theorem page_submit_is_handleSubmit (email_syntax : jsstring -> bool)
    (stored : option jsstring) (actions : list Action)
    (pg pg1 pg2 : Page) (r : Response) :
  ownStorage stored ->
  runActions email_syntax (initialPage stored) actions = Some pg ->
  act email_syntax pg SubmitEvent = Some pg1 ->
  act email_syntax pg1 (Settle r) = Some pg2 ->
  formSchema email_syntax (pg_form pg) = []
  /\ view pg2 = handleSubmit email_syntax r (view pg).
Proof.
  intros _ Hrun H1 H2.
  assert (Hr : reachable email_syntax pg) by (exists stored, actions; exact Hrun).
  apply reachable_consistent in Hr as [Hs Hsel].
  apply act_Some in H1 as (pg0 & H1 & ->). cbn [handle] in H1.
  destruct (formOnScreen pg && negb (pg_isSubmitting pg)) eqn:G; [|discriminate].
  injection H1 as <-. apply andb_prop in G as [_ G]. apply negb_true_iff in G.
  assert (Hno : pg_pending pg = None).
  { destruct (pg_pending pg) eqn:E; [|reflexivity].
    assert (Hs' : is_Some (pg_pending pg)) by (rewrite E; eauto).
    apply (pending_flag _ Hs) in Hs'. congruence. }
  apply act_Some in H2 as (pg3 & H2 & ->). rewrite view_commit.
  cbn [handle] in H2. unfold settleSubmit in H2.
  destruct (commit_fields (submitForm email_syntax pg))
    as (Eo & Esh & Ep & Ei & Ea & Ec & Ess & Est & Ef & Ed).
  rewrite Ep in H2. unfold handleSubmit. cbn [view formValues].
  unfold submitForm in *.
  destruct (formSchema email_syntax (pg_form pg)) as [|err errs] eqn:Ev.
  2:{ rewrite Hno in H2. discriminate. }
  split; [reflexivity|].
  cbn [pg_pending mbind option_bind pend_values pend_shifts] in H2.
  injection H2 as <-. rewrite Eo.
  cbn [pg_objects pg_shifts pg_isSubmitting pg_submitSuccess pg_selectedDate
       pg_form pg_storage pg_console pg_posted pg_isAdmin pg_isClient] in *.
  destruct (clearBookedObjects_spec (shiftDates (pg_form pg)) (pg_shifts pg)
              (pg_objects pg) (shifts_NoDup _ Hs) (shifts_bound _ Hs))
    as (Hd & He & _).
  unfold onSubmit, onSubmit_settle, onSubmit_start, clearErrors, view, shiftsOf.
  cbn [shifts isSubmitting submitSuccess selectedDate formValues formErrors
       localStorage console posted].
  destruct (commit_selector
              {| pg_objects := pg_objects pg; pg_shifts := pg_shifts pg;
                 pg_isSubmitting := true; pg_submitSuccess := pg_submitSuccess pg;
                 pg_isAdmin := pg_isAdmin pg; pg_selectedDate := pg_selectedDate pg;
                 pg_isClient := pg_isClient pg; pg_selector := pg_selector pg;
                 pg_form := pg_form pg; pg_storage := pg_storage pg;
                 pg_console := pg_console pg;
                 pg_posted := pg_posted pg
                              ++ [{| body := pg_form pg; _cc := cc_address |}];
                 pg_pending := Some {| pend_values := pg_form pg;
                                       pend_shifts := pg_shifts pg |} |})
    as [s ->].
  cbn [with_selector pg_objects pg_shifts pg_isSubmitting pg_submitSuccess
       pg_selectedDate pg_form pg_storage pg_console pg_posted pg_isAdmin
       pg_isClient pg_selector].
  destruct (resolved r); [|reflexivity].
  destruct (clearBookedObjects (shiftDates (pg_form pg)) (pg_shifts pg)
              (pg_objects pg)) as [e objects].
  cbn [fst snd] in Hd, He.
  destruct (clearBookedShifts (shiftDates (pg_form pg))
              (deref (pg_objects pg) (pg_shifts pg))) as [updated | mutated];
    cbn [memory] in Hd; subst e;
    cbn [pg_objects pg_shifts pg_isSubmitting pg_submitSuccess
         pg_selectedDate pg_form pg_storage pg_console pg_posted];
    rewrite Hd; reflexivity.
Qed.

(** What an action other than the settling of the POST leaves as it is
    while a submission is pending. *)
Lemma handle_pending es pg a pg' :
  isSettle a = false -> pg_isSubmitting pg = true -> handle es pg a = Some pg' ->
  pg_pending pg' = pg_pending pg /\ pg_isSubmitting pg' = true
  /\ pg_objects pg `prefix_of` pg_objects pg'.
Proof.
  intros Ha Hi H. destruct a; try discriminate Ha; cbn [handle] in H.
  - destruct (pg_isClient pg); [discriminate|]. unfold mountEffect in H.
    destruct (mapM asShift _) as [parsed|]; [|discriminate]. injection H as <-.
    cbn. split; [reflexivity|]. split; [assumption | now eexists].
  - destruct (_ && _); [|discriminate]. injection H as <-.
    destruct day; (split; [reflexivity|]); (split; [assumption | reflexivity]).
  - destruct (adminOnScreen pg); [|discriminate].
    destruct (pg_selector pg); [|discriminate]. injection H as <-.
    split; [reflexivity|]. split; [assumption | reflexivity].
  - destruct (adminOnScreen pg); [|discriminate].
    destruct (pg_selector pg); [|discriminate]. injection H as <-.
    split; [reflexivity|]. split; [assumption | reflexivity].
  - destruct (adminOnScreen pg); [|discriminate]. unfold onSave in H.
    destruct (pg_selector pg); [|discriminate].
    destruct (pg_selectedDate pg); [|discriminate]. injection H as <-.
    cbn. split; [reflexivity|]. split; [assumption | now eexists].
  - destruct (adminOnScreen pg); [|discriminate]. injection H as <-.
    split; [reflexivity|]. split; [assumption | reflexivity].
  - destruct (formOnScreen pg); [|discriminate]. injection H as <-.
    split; [reflexivity|]. split; [assumption | reflexivity].
  - destruct (formOnScreen pg); [|discriminate]. injection H as <-.
    split; [reflexivity|]. split; [assumption | reflexivity].
  - destruct (formOnScreen pg); [|discriminate]. injection H as <-.
    split; [reflexivity|]. split; [assumption | reflexivity].
  - destruct (formOnScreen pg); [|discriminate]. injection H as <-.
    split; [reflexivity|]. split; [assumption | reflexivity].
  - destruct (_ && _); [|discriminate]. injection H as <-.
    split; [reflexivity|]. split; [assumption | reflexivity].
  - rewrite Hi, andb_false_r in H. discriminate.
Qed.

Lemma run_pending es (actions : list Action) : forall pg pg',
  Forall (fun a => isSettle a = false) actions ->
  pg_isSubmitting pg = true -> runActions es pg actions = Some pg' ->
  pg_pending pg' = pg_pending pg /\ pg_objects pg `prefix_of` pg_objects pg'.
Proof.
  induction actions as [|a actions IH]; intros pg pg' Ha Hi H; cbn [runActions] in H.
  - injection H as <-. split; reflexivity.
  - apply Forall_cons in Ha as [Ha Has].
    destruct (act es pg a) as [pg1|] eqn:E; [|discriminate].
    cbn [mbind option_bind] in H.
    apply act_Some in E as (pg0 & E & ->).
    destruct (handle_pending es pg a pg0 Ha Hi E) as (Hp & Hi0 & Ho).
    destruct (commit_fields pg0) as (Eo & _ & Ep & Ei & _).
    destruct (IH (commit pg0) pg' Has) as [Hp' Ho']; [congruence | exact H |].
    rewrite Hp', Ep, Hp. split; [reflexivity|].
    rewrite Eo in Ho'. etrans; eassumption.
Qed.

Lemma submitForm_accepted es pg :
  formSchema es (pg_form pg) = [] ->
  pg_objects (submitForm es pg) = pg_objects pg
  /\ pg_pending (submitForm es pg)
     = Some {| pend_values := pg_form pg; pend_shifts := pg_shifts pg |}
  /\ pg_isSubmitting (submitForm es pg) = true.
Proof. intros E. unfold submitForm. rewrite E. repeat split. Qed.

(** A submission works on the [shifts] of the render it started from:
    on a page reached from a stored item of the component's own (or from
    none), when its POST succeeds, whatever was done while it was pending,
    the collection becomes the one of that render with the booked flags
    cleared, and is stored; a Shift saved in between is lost. *)
Theorem pending_submission_overwrites (email_syntax : jsstring -> bool)
    (stored : option jsstring) (before : list Action)
    (pg pg1 pg2 : Page) (actions : list Action) (code : Z) :
  ownStorage stored ->
  runActions email_syntax (initialPage stored) before = Some pg ->
  Forall validShift (shiftsOf pg) ->
  formSchema email_syntax (pg_form pg) = [] ->
  act email_syntax pg SubmitEvent = Some pg1 ->
  Forall (fun a => isSettle a = false) actions ->
  runActions email_syntax pg1 actions = Some pg2 ->
  200 <= code < 300 ->
  exists pg3,
    act email_syntax pg2 (Settle (HttpStatus code)) = Some pg3
    /\ shiftsOf pg3 = map (clearedShift (shiftDates (pg_form pg))) (shiftsOf pg)
    /\ pg_storage pg3 = Some (JSON_stringify (shiftsOf pg3))
    /\ pg_submitSuccess pg3 = true.
Proof.
  intros _ Hrun Hv Hok H1 Hns H2 Hc.
  assert (Hr : reachable email_syntax pg) by (exists stored, before; exact Hrun).
  apply reachable_consistent in Hr as [Hs _].
  apply act_Some in H1 as (pg0 & H1 & ->). cbn [handle] in H1.
  destruct (formOnScreen pg && negb (pg_isSubmitting pg)); [|discriminate].
  injection H1 as <-.
  destruct (commit_fields (submitForm email_syntax pg))
    as (Eo & _ & Ep & Ei & _).
  destruct (submitForm_accepted email_syntax pg Hok) as (Eo' & Ep' & Ei').
  rewrite Eo' in Eo. rewrite Ep' in Ep. rewrite Ei' in Ei.
  destruct (run_pending _ _ _ _ Hns Ei H2) as [Hp Ho].
  rewrite Ep in Hp. rewrite Eo in Ho.
  assert (Hd : deref (pg_objects pg2) (pg_shifts pg) = shiftsOf pg)
    by (apply deref_prefix; [exact Ho | exact (shifts_bound _ Hs)]).
  assert (Hb2 : Forall (fun r => (r < length (pg_objects pg2))%nat) (pg_shifts pg)).
  { eapply Forall_bound_le; [|exact (shifts_bound _ Hs)].
    now apply prefix_length. }
  destruct (clearBookedObjects_spec (shiftDates (pg_form pg)) (pg_shifts pg)
              (pg_objects pg2) (shifts_NoDup _ Hs) Hb2) as (Hm & He & _).
  rewrite Hd, clearBookedShifts_valid in Hm, He by assumption.
  cbn [memory] in Hm.
  unfold act. cbn [handle]. unfold settleSubmit. rewrite Hp.
  cbn [mbind option_bind pend_values pend_shifts fmap option_fmap option_map].
  unfold resolved.
  replace (200 <=? code) with true by (symmetry; apply Z.leb_le; lia).
  replace (code <? 300) with true by (symmetry; apply Z.ltb_lt; lia).
  cbn [andb].
  destruct (clearBookedObjects (shiftDates (pg_form pg)) (pg_shifts pg)
              (pg_objects pg2)) as [e objects].
  cbn [fst snd] in Hm, He. subst e.
  eexists. split; [reflexivity|].
  match goal with |- context [commit ?p] =>
    destruct (commit_fields p) as (Eo3 & Esh3 & _ & _ & _ & _ & Ess3 & Est3 & _)
  end.
  unfold shiftsOf. rewrite Eo3, Esh3, Est3, Ess3.
  cbn [pg_objects pg_shifts pg_storage pg_submitSuccess].
  rewrite Hm. repeat split.
Qed.



(** ** The provider view *)

Lemma fades_refl objects : fades objects objects.
Proof. split; [reflexivity|]. intros r. split; auto. Qed.

Lemma fades_trans a b c : fades a b -> fades b c -> fades a c.
Proof.
  intros [Hl1 H1] [Hl2 H2]. split; [congruence|]. intros r.
  destruct (H1 r) as [Hd1 Hf1], (H2 r) as [Hd2 Hf2]. split; [congruence | auto].
Qed.

Lemma clearBooked_flags L iso shift p :
  available p (clearBooked L iso shift) = true -> available p shift = true.
Proof.
  destruct p; cbn [available clearBooked pediatricAvailable adultAvailable];
    destruct (includes L _); (discriminate || auto).
Qed.

Lemma clearBookedObjects_fades L (array : list nat) : forall objects,
  fades objects (clearBookedObjects L array objects).2.
Proof.
  induction array as [|r array IH]; intros objects; [apply fades_refl|].
  cbn [clearBookedObjects].
  destruct (toISOString (date (objects !!! r))) as [iso|]; [|apply fades_refl].
  eapply fades_trans; [|apply IH]. split; [apply length_insert|].
  intros r'. rewrite list_lookup_total_insert.
  destruct (decide _) as [[<- _] | _]; [|auto]. split; [reflexivity|].
  intros p. apply clearBooked_flags.
Qed.

Lemma handle_provider es pg a pg' :
  pg_isClient pg = true -> pg_isAdmin pg = false ->
  (forall pending, pg_pending pg = Some pending -> pend_shifts pending = pg_shifts pg) ->
  handle es pg a = Some pg' ->
  pg_isClient pg' = true /\ pg_isAdmin pg' = false
  /\ pg_shifts pg' = pg_shifts pg
  /\ (forall pending, pg_pending pg' = Some pending ->
        pend_shifts pending = pg_shifts pg')
  /\ fades (pg_objects pg) (pg_objects pg').
Proof.
  intros Hc Ha Hp H.
  assert (Hadmin : adminOnScreen pg = false)
    by (unfold adminOnScreen; rewrite Ha; apply andb_false_r).
  destruct a; cbn [handle] in H; rewrite ?Hadmin, ?Hc in H; try discriminate.
  - destruct (formOnScreen pg); [|discriminate]. injection H as <-.
    repeat split; try assumption; apply fades_refl.
  - destruct (formOnScreen pg); [|discriminate]. injection H as <-.
    repeat split; try assumption; apply fades_refl.
  - destruct (formOnScreen pg); [|discriminate]. injection H as <-.
    repeat split; try assumption; apply fades_refl.
  - destruct (formOnScreen pg); [|discriminate]. injection H as <-.
    repeat split; try assumption; apply fades_refl.
  - destruct (_ && _); [|discriminate]. injection H as <-.
    repeat split; try assumption; apply fades_refl.
  - destruct (_ && _); [|discriminate]. injection H as <-. unfold submitForm.
    destruct (formSchema es (pg_form pg)).
    + cbn. repeat split; try assumption; try apply fades_refl.
      now intros pending [= <-].
    + repeat split; try assumption; apply fades_refl.
  - unfold settleSubmit in H. destruct (pg_pending pg) as [pending|] eqn:Ep;
      [|discriminate].
    cbn [mbind option_bind] in H. injection H as <-.
    specialize (Hp pending eq_refl).
    destruct (resolved r).
    + pose proof (clearBookedObjects_fades (shiftDates (pend_values pending))
                    (pend_shifts pending) (pg_objects pg)) as Hf.
      destruct (clearBookedObjects _ _ _) as [[e|] objects]; cbn [snd] in Hf; cbn;
        repeat split; try assumption; try discriminate; apply Hf.
    + cbn. repeat split; try assumption; try discriminate; apply fades_refl.
Qed.

Lemma run_provider es (actions : list Action) : forall pg pg',
  pg_isClient pg = true -> pg_isAdmin pg = false ->
  (forall pending, pg_pending pg = Some pending -> pend_shifts pending = pg_shifts pg) ->
  runActions es pg actions = Some pg' ->
  pg_isAdmin pg' = false /\ pg_shifts pg' = pg_shifts pg
  /\ fades (pg_objects pg) (pg_objects pg').
Proof.
  induction actions as [|a actions IH]; intros pg pg' Hc Ha Hp H; cbn [runActions] in H.
  - injection H as <-. repeat split; [assumption | apply fades_refl].
  - destruct (act es pg a) as [pg1|] eqn:E; [|discriminate].
    cbn [mbind option_bind] in H. apply act_Some in E as (pg0 & E & ->).
    destruct (handle_provider es pg a pg0 Hc Ha Hp E) as (Hc0 & Ha0 & Hs0 & Hp0 & Hf0).
    destruct (commit_fields pg0) as (Eo & Esh & Ep & _ & Ea & Ec & _).
    destruct (IH (commit pg0) pg') as (Ha' & Hs' & Hf'); try congruence.
    { intros pending. rewrite Ep, Esh. apply Hp0. }
    split; [exact Ha'|]. split; [congruence|].
    rewrite Eo in Hf'. eapply fades_trans; eassumption.
Qed.

(** In the provider view, with no submission pending, no sequence of
    actions brings the admin part back, adds, removes or re-dates a Shift,
    or sets a flag. *)
Theorem provider_view_keeps_days (email_syntax : jsstring -> bool) (pg pg' : Page)
    (actions : list Action) :
  pg_isClient pg = true -> pg_isAdmin pg = false -> pg_pending pg = None ->
  runActions email_syntax pg actions = Some pg' ->
  pg_isAdmin pg' = false
  /\ map date (shiftsOf pg') = map date (shiftsOf pg)
  /\ forall i shift', shiftsOf pg' !! i = Some shift' ->
       exists shift, shiftsOf pg !! i = Some shift
         /\ forall p, available p shift' = true -> available p shift = true.
Proof.
  intros Hc Ha Hp H.
  destruct (run_provider email_syntax actions pg pg' Hc Ha) as (Ha' & Hs' & _ & Hf);
    [congruence | exact H |].
  split; [exact Ha'|]. unfold shiftsOf, deref. rewrite Hs'. split.
  - rewrite !map_map. apply map_ext. intros r. apply Hf.
  - intros i shift' Hi. rewrite list_lookup_fmap in Hi |- *.
    destruct (pg_shifts pg !! i) as [r|]; [|discriminate].
    cbn in Hi |- *. injection Hi as <-. eexists. split; [reflexivity|]. apply Hf.
Qed.


Lemma deref_seq (objects : list Shift) :
  deref objects (seq 0 (length objects)) = objects.
Proof.
  unfold deref. apply list_eq. intros i. rewrite list_lookup_fmap.
  destruct (decide (i < length objects)%nat) as [Hi | Hi].
  - rewrite lookup_seq_lt by assumption. cbn.
    destruct (lookup_lt_is_Some_2 objects i Hi) as [x Hx]. rewrite Hx.
    f_equal. now apply list_lookup_total_correct.
  - rewrite lookup_seq_ge by lia. cbn. symmetry. apply lookup_ge_None. lia.
Qed.

Lemma storeInOrder_with_selector s pg : storeInOrder pg -> storeInOrder (with_selector s pg).
Proof. intros H. exact H. Qed.

Lemma storeInOrder_commit pg : storeInOrder pg -> storeInOrder (commit pg).
Proof. destruct (commit_selector pg) as [s ->]. auto. Qed.

Lemma handle_storeInOrder es pg a pg' :
  sound pg -> storeInOrder pg -> handle es pg a = Some pg' -> storeInOrder pg'.
Proof.
  intros Hs (Hc & Hv & Hone & Hst & Hpend) H.
  pose proof (conj Hc (conj Hv (conj Hone (conj Hst Hpend)))) as Hsame.
  destruct a; cbn [handle] in H.
  - rewrite Hc in H. discriminate.
  - destruct (_ && _); [|discriminate]. injection H as <-.
    destruct day; exact Hsame.
  - destruct (adminOnScreen pg); [|discriminate].
    destruct (pg_selector pg); [|discriminate]. injection H as <-.
    exact Hsame.
  - destruct (adminOnScreen pg); [|discriminate].
    destruct (pg_selector pg); [|discriminate]. injection H as <-.
    exact Hsame.
  - destruct (adminOnScreen pg); [|discriminate]. unfold onSave in H.
    destruct (pg_selector pg) as [sel|]; [|discriminate].
    destruct (pg_selectedDate pg) as [d|] eqn:Ed; [|discriminate].
    cbn [mbind option_bind] in H. injection H as <-.
    pose proof (deref_upsert (pg_objects pg) (pg_shifts pg)
                  (selectorShift d (sel_toggles sel)) (shifts_bound _ Hs)) as Hu.
    cbn [date selectorShift] in Hu.
    unfold storeInOrder, shiftsOf.
    cbn [pg_objects pg_shifts pg_isClient pg_storage pg_pending].
    rewrite Hu. split; [assumption|]. split; [|split; [|split]].
    + apply upsert_valid; [assumption|]. exact (selected_valid _ Hs d Ed).
    + now apply oneShiftPerDate_upsert.
    + reflexivity.
    + intros pending Hp. destruct (pending_bound _ Hs pending Hp) as [Hb _].
      rewrite (deref_app_objects _ _ _ Hb). now apply Hpend.
  - destruct (adminOnScreen pg); [|discriminate]. injection H as <-.
    exact Hsame.
  - destruct (formOnScreen pg); [|discriminate]. injection H as <-.
    exact Hsame.
  - destruct (formOnScreen pg); [|discriminate]. injection H as <-.
    exact Hsame.
  - destruct (formOnScreen pg); [|discriminate]. injection H as <-.
    exact Hsame.
  - destruct (formOnScreen pg); [|discriminate]. injection H as <-.
    exact Hsame.
  - destruct (_ && _); [|discriminate]. injection H as <-.
    exact Hsame.
  - destruct (_ && _); [|discriminate]. injection H as <-. unfold submitForm.
    destruct (formSchema es (pg_form pg)); [|exact Hsame].
    split; [assumption|]. split; [assumption|]. split; [assumption|].
    split; [assumption|]. intros pending [= <-]. split; assumption.
  - unfold settleSubmit in H. destruct (pg_pending pg) as [pending|] eqn:Ep;
      [|discriminate].
    cbn [mbind option_bind] in H. injection H as <-.
    destruct (Hpend pending eq_refl) as [Hpv Hpone].
    destruct (pending_bound _ Hs pending Ep) as [Hb Hnd].
    destruct (resolved r).
    + destruct (clearBookedObjects_spec (shiftDates (pend_values pending))
                  (pend_shifts pending) (pg_objects pg) Hnd Hb) as (Hm & He & _).
      rewrite clearBookedShifts_valid in Hm, He by assumption. cbn [memory] in Hm.
      destruct (clearBookedObjects _ _ _) as [e objects]. cbn [fst snd] in Hm, He.
      subst e. unfold storeInOrder, shiftsOf.
      cbn [pg_objects pg_shifts pg_isClient pg_storage pg_pending].
      rewrite Hm. split; [assumption|]. split; [|split; [|split]].
      * rewrite Forall_fmap. eapply Forall_impl; [exact Hpv|].
        intros shift. apply clearedShift_valid.
      * eapply oneShiftPerDate_dates; [|exact Hpone].
        rewrite !map_map. apply map_ext. intros shift. apply clearedShift_date.
      * reflexivity.
      * discriminate.
    + split; [assumption|]. split; [assumption|]. split; [assumption|].
      split; [assumption|]. discriminate.
Qed.

Lemma run_storeInOrder es (actions : list Action) : forall pg pg',
  consistent pg -> storeInOrder pg -> runActions es pg actions = Some pg' ->
  storeInOrder pg'.
Proof.
  induction actions as [|a actions IH]; intros pg pg' Hc Hs H; cbn [runActions] in H.
  - now injection H as <-.
  - destruct (act es pg a) as [pg1|] eqn:E; [|discriminate].
    cbn [mbind option_bind] in H. apply (IH pg1 pg'); [| |exact H].
    + eapply act_consistent; eassumption.
    + apply act_Some in E as (pg0 & E & ->). apply storeInOrder_commit.
      eapply handle_storeInOrder; [exact (proj1 Hc) | exact Hs | exact E].
Qed.

(** From a stored collection of valid dates with one Shift per
    timestamp, as the component writes it, the mount effect loads that
    collection, and every page after it has valid dates, one Shift per
    timestamp and the collection as its stored text, also when saves
    interleave with a pending submission. *)
Theorem store_in_order_on_every_page (email_syntax : jsstring -> bool)
    (S : list Shift) (adminParam : option jsstring) (pg0 pg : Page)
    (actions : list Action) :
  Forall validShift S -> oneShiftPerDate S ->
  act email_syntax (initialPage (Some (JSON_stringify S))) (Mount adminParam) = Some pg0 ->
  runActions email_syntax pg0 actions = Some pg ->
  shiftsOf pg0 = S
  /\ Forall validShift (shiftsOf pg) /\ oneShiftPerDate (shiftsOf pg)
  /\ pg_storage pg = Some (JSON_stringify (shiftsOf pg)).
Proof.
  intros Hv Hone H0 H.
  assert (Hc0 : consistent pg0).
  { eapply act_consistent; [|exact H0].
    split; [apply sound_initialPage | reflexivity]. }
  apply act_Some in H0 as (pg1 & H0 & ->). cbn [handle] in H0.
  unfold mountEffect, initialPage in H0. cbn [pg_storage pg_objects pg_isClient] in H0.
  rewrite loadShifts_stringify in H0 by assumption. cbn [loaded load_console] in H0.
  rewrite mapM_asShift in H0. cbn [mbind option_bind app length] in H0.
  injection H0 as <-.
  match type of H with context [commit ?p] =>
    assert (Hs0 : storeInOrder (commit p))
  end.
  { apply storeInOrder_commit. unfold storeInOrder, shiftsOf.
    cbn [pg_objects pg_shifts pg_isClient pg_storage pg_pending].
    rewrite deref_seq. repeat split; try assumption. all: discriminate. }
  split.
  - match goal with |- context [commit ?p] =>
      destruct (commit_fields p) as (Eo & Esh & _)
    end.
    unfold shiftsOf. rewrite Eo, Esh. apply deref_seq.
  - destruct (run_storeInOrder _ _ _ _ Hc0 Hs0 H) as (_ & Hv' & Hone' & Hst' & _).
    auto.
Qed.

(** ** Slots selected and then hidden *)

Lemma slotId_suffix iso iso' p p' : slotId iso p = slotId iso' p' -> p = p'.
Proof.
  intros E. destruct p, p'; try reflexivity; exfalso;
    apply (f_equal (@rev Z)) in E; unfold slotId in E;
    rewrite !rev_app_distr in E; vm_compute in E; discriminate.
Qed.

Lemma keepEntry_Some p e : keepEntry (Some p) e = true -> av_providerType e = p.
Proof. cbn [keepEntry]. destruct (av_providerType e), p; (reflexivity || discriminate). Qed.

Lemma slotCheckboxes_values (S : list Shift) (values : FormValues) boxes box :
  slotCheckboxes S values = Some boxes -> box ∈ boxes ->
  exists e iso, e ∈ availableShifts S (providerType values)
    /\ toISOString (av_date e) = Some iso
    /\ cb_value box = slotId iso (av_providerType e).
Proof.
  unfold slotCheckboxes. intros Hm Hb. apply mapM_Some in Hm.
  apply list_elem_of_lookup_1 in Hb as [i Hi].
  destruct (Forall2_lookup_r _ _ _ _ _ Hm Hi) as (e & He & Hbox).
  exists e. unfold slotCheckbox, slotValue in Hbox.
  destruct (toISOString (av_date e)) as [iso|]; [|discriminate].
  cbn [mbind option_bind] in Hbox. injection Hbox as <-.
  exists iso. split; [eapply list_elem_of_lookup_2, He|]. split; reflexivity.
Qed.

(** A slot checked under one provider type stays selected when the other
    provider type is chosen, but its checkbox is no longer rendered: it
    cannot be unchecked, and it is part of what the form submits. *)
Theorem hidden_selection_stays (email_syntax : jsstring -> bool) (pg pg' : Page)
    (iso : jsstring) (p p' : ProviderType) (checked : bool) :
  slotId iso p ∈ shiftDates (pg_form pg) -> p <> p' ->
  act email_syntax pg (SelectProviderType p') = Some pg' ->
  slotId iso p ∈ shiftDates (pg_form pg')
  /\ providerType (pg_form pg') = Some p'
  /\ slotOnScreen pg' (slotId iso p) = false
  /\ act email_syntax pg' (ToggleSlot (slotId iso p) checked) = None.
Proof.
  intros Hin Hne H. apply act_Some in H as (pg0 & H & ->). cbn [handle] in H.
  destruct (formOnScreen pg); [|discriminate]. injection H as <-.
  match goal with |- context [commit ?q] => set (pg0 := q) end.
  destruct (commit_fields pg0) as (Eo & Esh & _ & _ & _ & _ & _ & _ & Ef & _).
  assert (Hoff : slotOnScreen (commit pg0) (slotId iso p) = false).
  { unfold slotOnScreen, shiftsOf. rewrite Eo, Esh, Ef.
    destruct (slotCheckboxes _ _) as [boxes|] eqn:Eb; [|reflexivity].
    apply bool_decide_eq_false. intros Hv.
    apply list_elem_of_fmap in Hv as (box & Hv & Hbox).
    destruct (slotCheckboxes_values _ _ _ _ Eb Hbox) as (e & iso' & He & _ & Hval).
    apply availableShifts_elem in He as [_ Hk].
    apply keepEntry_Some in Hk. rewrite <- Hv, Hk in Hval.
    apply slotId_suffix in Hval. contradiction. }
  rewrite Ef. split; [exact Hin|]. split; [reflexivity|]. split; [exact Hoff|].
  unfold act. cbn [handle]. rewrite Hoff, andb_false_r. reflexivity.
Qed.


(** ** What is sent *)






(** ** The selected date *)

(** The editor has no cancel: once a date is selected, only Save clears
    the selection.  Every other action leaves a date selected, the same
    one unless the calendar hands over another day; clicking the selected
    day again, which hands over nothing, changes nothing. *)
Theorem selection_cleared_only_by_save (email_syntax : jsstring -> bool)
    (pg pg' : Page) (a : Action) (d : Date) :
  pg_selectedDate pg = Some d -> a <> ClickSave ->
  act email_syntax pg a = Some pg' ->
  exists d', pg_selectedDate pg' = Some d' /\ (d' = d \/ a = PickDay (Some d')).
Proof.
  intros Hd Hne H. apply act_Some in H as (pg0 & H & ->).
  destruct (commit_fields pg0) as (_ & _ & _ & _ & _ & _ & _ & _ & _ & ->).
  destruct a; cbn [handle] in H; try contradiction.
  - destruct (pg_isClient pg); [discriminate|]. unfold mountEffect in H.
    destruct (mapM asShift _); [|discriminate]. injection H as <-. eauto.
  - destruct (_ && _); [|discriminate]. injection H as <-.
    destruct day as [d'|]; cbn [handleDateSelect pg_selectedDate]; eauto.
  - destruct (adminOnScreen pg); [|discriminate].
    destruct (pg_selector pg); [|discriminate]. injection H as <-. eauto.
  - destruct (adminOnScreen pg); [|discriminate].
    destruct (pg_selector pg); [|discriminate]. injection H as <-. eauto.
  - destruct (adminOnScreen pg); [|discriminate]. injection H as <-. eauto.
  - destruct (formOnScreen pg); [|discriminate]. injection H as <-. eauto.
  - destruct (formOnScreen pg); [|discriminate]. injection H as <-. eauto.
  - destruct (formOnScreen pg); [|discriminate]. injection H as <-. eauto.
  - destruct (formOnScreen pg); [|discriminate]. injection H as <-. eauto.
  - destruct (_ && _); [|discriminate]. injection H as <-. eauto.
  - destruct (_ && _); [|discriminate]. injection H as <-. unfold submitForm.
    destruct (formSchema email_syntax (pg_form pg)); eauto.
  - unfold settleSubmit in H. destruct (pg_pending pg); [|discriminate].
    injection H as <-. destruct (resolved r); [|eauto].
    destruct (clearBookedObjects _ _ _) as [[e|] objects]; eauto.
Qed.


(** ** The statements at the sessions of the scenario *)

Lemma july4Shift_valid : validShift july4Shift.
Proof. unfold validShift, validDate, july4Shift, july4, maxTime. cbn [date]. lia. Defined.

Lemma scenarioStore_one : oneShiftPerDate scenarioStore.
Proof.
  intros [|i] [|j] a b Hi Hj _; try reflexivity; cbn in Hi, Hj; discriminate.
Defined.

Lemma scenarioStored_own : ownStorage scenarioStored.
Proof. right. exists scenarioStore. reflexivity. Defined.


Lemma currentShift_after_save_witness :
  validShift july4Shift
  /\ currentShift (upsert scenarioStore july4Shift) (date july4Shift) = Some july4Shift.
Proof.
  exact (conj july4Shift_valid
           (proj1 (currentShift_after_save scenarioStore july4Shift july4Shift_valid))).
Defined.

Lemma save_sets_offered_slots_witness :
  (oneShiftPerDate scenarioStore /\ validShift july4Shift)
  /\ ({| av_date := july4; av_providerType := adult |}
        ∈ availableShifts (upsert scenarioStore july4Shift) None
      <-> available adult july4Shift = true
          /\ keepEntry None {| av_date := july4; av_providerType := adult |} = true).
Proof.
  exact (conj (conj scenarioStore_one july4Shift_valid)
           (proj1 (save_sets_offered_slots scenarioStore july4Shift None
                     {| av_date := july4; av_providerType := adult |}
                     scenarioStore_one july4Shift_valid) eq_refl)).
Defined.

Lemma success_removes_booked_slots_witness :
  (200 <= 200 < 300 /\ Forall validShift (shifts scenarioState))
  /\ availableShifts (shifts (onSubmit (HttpStatus 200) scenarioValues scenarioState))
       None
     = List.filter (fun e => negb (booked (shiftDates scenarioValues) e))
         (availableShifts (shifts scenarioState) None).
Proof.
  assert (Hcode : 200 <= 200 < 300) by lia.
  exact (conj (conj Hcode scenarioStore_valid)
           (success_removes_booked_slots 200 scenarioValues scenarioState None
              Hcode scenarioStore_valid)).
Defined.

Lemma slotCheckboxes_distinct_witness :
  (Forall validShift scenarioStore /\ oneShiftPerDate scenarioStore)
  /\ exists boxes,
       slotCheckboxes scenarioStore scenarioValues = Some boxes
       /\ Forall2 (fun e box => slotValue e = Some (cb_value box)
                     /\ cb_checked box
                        = includes (shiftDates scenarioValues) (cb_value box))
            (availableShifts scenarioStore (providerType scenarioValues)) boxes
       /\ NoDup (map cb_value boxes).
Proof.
  exact (conj (conj scenarioStore_valid scenarioStore_one)
           (slotCheckboxes_distinct scenarioStore scenarioValues
              scenarioStore_valid scenarioStore_one)).
Defined.

Lemma reload_dates_invalid_at_epoch_witness :
  Forall (fun shift => date shift = InvalidDate \/ validShift shift)
    (undatedShift :: scenarioStore)
  /\ load_console (loadShifts (Some (JSON_stringify (undatedShift :: scenarioStore))))
     = []
  /\ mapM asShift
       (loaded (loadShifts (Some (JSON_stringify (undatedShift :: scenarioStore)))))
     = Some (map reloaded (undatedShift :: scenarioStore)).
Proof.
  assert (H : Forall (fun shift => date shift = InvalidDate \/ validShift shift)
                (undatedShift :: scenarioStore)).
  { constructor; [left; reflexivity|].
    eapply Forall_impl; [exact scenarioStore_valid | cbn; auto]. }
  exact (conj H (reload_dates_invalid_at_epoch _ H)).
Defined.

Lemma storage_follows_memory_witness :
  (persisted scenarioState /\ Forall validShift (shifts scenarioState)
   /\ Forall validEvent [Save july4Shift; SubmitForm (HttpStatus 200) scenarioValues])
  /\ persisted (fold_left react
                  [Save july4Shift; SubmitForm (HttpStatus 200) scenarioValues]
                  scenarioState)
  /\ Forall validShift
       (shifts (fold_left react
                  [Save july4Shift; SubmitForm (HttpStatus 200) scenarioValues]
                  scenarioState)).
Proof.
  assert (Hp : persisted scenarioState) by reflexivity.
  assert (He : Forall validEvent
                 [Save july4Shift; SubmitForm (HttpStatus 200) scenarioValues]).
  { constructor; [exact july4Shift_valid|]. constructor; [exact I | constructor]. }
  exact (conj (conj Hp (conj scenarioStore_valid He))
           (storage_follows_memory _ scenarioState Hp scenarioStore_valid He)).
Defined.

Lemma page_save_is_upsert_witness :
  (ownStorage scenarioStored
   /\ runActions zod_email (initialPage scenarioStored) adminSession
      = Some (pageAfter adminSession)
   /\ act zod_email (pageAfter adminSession) ClickSave
      = Some (pageAfter (adminSession ++ [ClickSave])))
  /\ exists d sel,
       pg_selectedDate (pageAfter adminSession) = Some d
       /\ pg_selector (pageAfter adminSession) = Some sel
       /\ validDate d
       /\ view (pageAfter (adminSession ++ [ClickSave]))
          = addOrUpdateShift (selectorShift d (sel_toggles sel))
              (view (pageAfter adminSession))
       /\ pg_selector (pageAfter (adminSession ++ [ClickSave])) = None.
Proof.
  assert (Hr : runActions zod_email (initialPage scenarioStored) adminSession
               = Some (pageAfter adminSession))
    by (vm_compute; reflexivity).
  assert (Ha : act zod_email (pageAfter adminSession) ClickSave
               = Some (pageAfter (adminSession ++ [ClickSave])))
    by (vm_compute; reflexivity).
  exact (conj (conj scenarioStored_own (conj Hr Ha))
           (page_save_is_upsert zod_email scenarioStored adminSession _ _
              scenarioStored_own Hr Ha)).
Defined.

Lemma page_submit_is_handleSubmit_witness :
  (ownStorage scenarioStored
   /\ runActions zod_email (initialPage scenarioStored) (Mount None :: fillForm)
      = Some (pageAfter (Mount None :: fillForm))
   /\ act zod_email (pageAfter (Mount None :: fillForm)) SubmitEvent
      = Some (pageAfter (Mount None :: fillForm ++ [SubmitEvent]))
   /\ act zod_email (pageAfter (Mount None :: fillForm ++ [SubmitEvent]))
        (Settle (HttpStatus 200))
      = Some (pageAfter (Mount None :: fillForm
                                         ++ [SubmitEvent; Settle (HttpStatus 200)])))
  /\ formSchema zod_email (pg_form (pageAfter (Mount None :: fillForm))) = []
  /\ view (pageAfter (Mount None :: fillForm
                                     ++ [SubmitEvent; Settle (HttpStatus 200)]))
     = handleSubmit zod_email (HttpStatus 200)
         (view (pageAfter (Mount None :: fillForm))).
Proof.
  assert (Hr : runActions zod_email (initialPage scenarioStored)
                 (Mount None :: fillForm)
               = Some (pageAfter (Mount None :: fillForm)))
    by (vm_compute; reflexivity).
  assert (H1 : act zod_email (pageAfter (Mount None :: fillForm)) SubmitEvent
               = Some (pageAfter (Mount None :: fillForm ++ [SubmitEvent])))
    by (vm_compute; reflexivity).
  assert (H2 : act zod_email (pageAfter (Mount None :: fillForm ++ [SubmitEvent]))
                 (Settle (HttpStatus 200))
               = Some (pageAfter (Mount None :: fillForm
                                    ++ [SubmitEvent; Settle (HttpStatus 200)])))
    by (vm_compute; reflexivity).
  exact (conj (conj scenarioStored_own (conj Hr (conj H1 H2)))
           (page_submit_is_handleSubmit zod_email scenarioStored
              (Mount None :: fillForm) _ _ _ _ scenarioStored_own Hr H1 H2)).
Defined.

Lemma pending_submission_overwrites_witness :
  (ownStorage scenarioStored
   /\ runActions zod_email (initialPage scenarioStored)
        (Mount (Some (lit "true")) :: fillForm)
      = Some (pageAfter (Mount (Some (lit "true")) :: fillForm))
   /\ Forall validShift (shiftsOf (pageAfter (Mount (Some (lit "true")) :: fillForm)))
   /\ formSchema zod_email
        (pg_form (pageAfter (Mount (Some (lit "true")) :: fillForm))) = []
   /\ act zod_email (pageAfter (Mount (Some (lit "true")) :: fillForm)) SubmitEvent
      = Some (pageAfter (Mount (Some (lit "true")) :: fillForm ++ [SubmitEvent]))
   /\ Forall (fun a => isSettle a = false) saveJuly4
   /\ runActions zod_email
        (pageAfter (Mount (Some (lit "true")) :: fillForm ++ [SubmitEvent])) saveJuly4
      = Some (pageAfter (Mount (Some (lit "true"))
                           :: fillForm ++ [SubmitEvent] ++ saveJuly4))
   /\ 200 <= 200 < 300)
  /\ exists pg3,
       act zod_email
         (pageAfter (Mount (Some (lit "true")) :: fillForm ++ [SubmitEvent] ++ saveJuly4))
         (Settle (HttpStatus 200)) = Some pg3
       /\ shiftsOf pg3
          = map (clearedShift
                   (shiftDates
                      (pg_form (pageAfter (Mount (Some (lit "true")) :: fillForm)))))
              (shiftsOf (pageAfter (Mount (Some (lit "true")) :: fillForm)))
       /\ pg_storage pg3 = Some (JSON_stringify (shiftsOf pg3))
       /\ pg_submitSuccess pg3 = true.
Proof.
  assert (Hr : runActions zod_email (initialPage scenarioStored)
                 (Mount (Some (lit "true")) :: fillForm)
               = Some (pageAfter (Mount (Some (lit "true")) :: fillForm)))
    by (vm_compute; reflexivity).
  assert (Hv : Forall validShift
                 (shiftsOf (pageAfter (Mount (Some (lit "true")) :: fillForm)))).
  { replace (shiftsOf (pageAfter (Mount (Some (lit "true")) :: fillForm)))
      with scenarioStore by (vm_compute; reflexivity).
    exact scenarioStore_valid. }
  assert (Hok : formSchema zod_email
                  (pg_form (pageAfter (Mount (Some (lit "true")) :: fillForm))) = [])
    by (vm_compute; reflexivity).
  assert (H1 : act zod_email (pageAfter (Mount (Some (lit "true")) :: fillForm))
                 SubmitEvent
               = Some (pageAfter (Mount (Some (lit "true"))
                                    :: fillForm ++ [SubmitEvent])))
    by (vm_compute; reflexivity).
  assert (Hns : Forall (fun a => isSettle a = false) saveJuly4)
    by (repeat constructor).
  assert (H2 : runActions zod_email
                 (pageAfter (Mount (Some (lit "true")) :: fillForm ++ [SubmitEvent]))
                 saveJuly4
               = Some (pageAfter (Mount (Some (lit "true"))
                                    :: fillForm ++ [SubmitEvent] ++ saveJuly4)))
    by (vm_compute; reflexivity).
  assert (Hc : 200 <= 200 < 300) by lia.
  exact (conj (conj scenarioStored_own
                 (conj Hr (conj Hv (conj Hok (conj H1 (conj Hns (conj H2 Hc)))))))
           (pending_submission_overwrites zod_email scenarioStored
              (Mount (Some (lit "true")) :: fillForm) _ _ _ saveJuly4 200
              scenarioStored_own Hr Hv Hok H1 Hns H2 Hc)).
Defined.


Lemma provider_view_keeps_days_witness :
  (pg_isClient (pageAfter (Mount None :: fillForm)) = true
   /\ pg_isAdmin (pageAfter (Mount None :: fillForm)) = false
   /\ pg_pending (pageAfter (Mount None :: fillForm)) = None
   /\ runActions zod_email (pageAfter (Mount None :: fillForm))
        [SubmitEvent; Settle (HttpStatus 200)]
      = Some (pageAfter (Mount None :: fillForm
                           ++ [SubmitEvent; Settle (HttpStatus 200)])))
  /\ map date (shiftsOf (pageAfter (Mount None :: fillForm
                                      ++ [SubmitEvent; Settle (HttpStatus 200)])))
     = map date (shiftsOf (pageAfter (Mount None :: fillForm))).
Proof.
  assert (Hc : pg_isClient (pageAfter (Mount None :: fillForm)) = true)
    by (vm_compute; reflexivity).
  assert (Ha : pg_isAdmin (pageAfter (Mount None :: fillForm)) = false)
    by (vm_compute; reflexivity).
  assert (Hp : pg_pending (pageAfter (Mount None :: fillForm)) = None)
    by (vm_compute; reflexivity).
  assert (H : runActions zod_email (pageAfter (Mount None :: fillForm))
                [SubmitEvent; Settle (HttpStatus 200)]
              = Some (pageAfter (Mount None :: fillForm
                                   ++ [SubmitEvent; Settle (HttpStatus 200)])))
    by (vm_compute; reflexivity).
  exact (conj (conj Hc (conj Ha (conj Hp H)))
           (proj1 (proj2 (provider_view_keeps_days zod_email _ _ _ Hc Ha Hp H)))).
Defined.


Lemma store_in_order_on_every_page_witness :
  (Forall validShift scenarioStore /\ oneShiftPerDate scenarioStore
   /\ act zod_email (initialPage (Some (JSON_stringify scenarioStore)))
        (Mount (Some (lit "true")))
      = Some (pageAfter [Mount (Some (lit "true"))])
   /\ runActions zod_email (pageAfter [Mount (Some (lit "true"))]) saveJuly4
      = Some (pageAfter (Mount (Some (lit "true")) :: saveJuly4)))
  /\ shiftsOf (pageAfter [Mount (Some (lit "true"))]) = scenarioStore
  /\ Forall validShift (shiftsOf (pageAfter (Mount (Some (lit "true")) :: saveJuly4)))
  /\ oneShiftPerDate (shiftsOf (pageAfter (Mount (Some (lit "true")) :: saveJuly4)))
  /\ pg_storage (pageAfter (Mount (Some (lit "true")) :: saveJuly4))
     = Some (JSON_stringify
               (shiftsOf (pageAfter (Mount (Some (lit "true")) :: saveJuly4)))).
Proof.
  assert (H0 : act zod_email (initialPage (Some (JSON_stringify scenarioStore)))
                 (Mount (Some (lit "true")))
               = Some (pageAfter [Mount (Some (lit "true"))]))
    by (vm_compute; reflexivity).
  assert (H : runActions zod_email (pageAfter [Mount (Some (lit "true"))]) saveJuly4
              = Some (pageAfter (Mount (Some (lit "true")) :: saveJuly4)))
    by (vm_compute; reflexivity).
  exact (conj (conj scenarioStore_valid (conj scenarioStore_one (conj H0 H)))
           (store_in_order_on_every_page zod_email scenarioStore _ _ _ saveJuly4
              scenarioStore_valid scenarioStore_one H0 H)).
Defined.

Lemma hidden_selection_stays_witness :
  (slotId (lit "2024-06-01T00:00:00.000Z") pediatric
     ∈ shiftDates (pg_form (pageAfter (Mount None :: fillForm)))
   /\ pediatric <> adult
   /\ act zod_email (pageAfter (Mount None :: fillForm)) (SelectProviderType adult)
      = Some (pageAfter (Mount None :: fillForm ++ [SelectProviderType adult])))
  /\ slotId (lit "2024-06-01T00:00:00.000Z") pediatric
       ∈ shiftDates (pg_form (pageAfter (Mount None
                                           :: fillForm ++ [SelectProviderType adult])))
  /\ providerType (pg_form (pageAfter (Mount None
                                         :: fillForm ++ [SelectProviderType adult])))
     = Some adult
  /\ slotOnScreen (pageAfter (Mount None :: fillForm ++ [SelectProviderType adult]))
       (slotId (lit "2024-06-01T00:00:00.000Z") pediatric) = false
  /\ act zod_email (pageAfter (Mount None :: fillForm ++ [SelectProviderType adult]))
       (ToggleSlot (slotId (lit "2024-06-01T00:00:00.000Z") pediatric) false) = None.
Proof.
  assert (Hin : slotId (lit "2024-06-01T00:00:00.000Z") pediatric
                  ∈ shiftDates (pg_form (pageAfter (Mount None :: fillForm))))
    by (vm_compute; apply list_elem_of_here).
  assert (Hne : pediatric <> adult) by discriminate.
  assert (H : act zod_email (pageAfter (Mount None :: fillForm))
                (SelectProviderType adult)
              = Some (pageAfter (Mount None :: fillForm ++ [SelectProviderType adult])))
    by (vm_compute; reflexivity).
  exact (conj (conj Hin (conj Hne H))
           (hidden_selection_stays zod_email _ _ _ pediatric adult false Hin Hne H)).
Defined.


Lemma selection_cleared_only_by_save_witness :
  (pg_selectedDate (pageAfter adminSession) = Some july4
   /\ PickDay None <> ClickSave
   /\ act zod_email (pageAfter adminSession) (PickDay None)
      = Some (pageAfter (adminSession ++ [PickDay None])))
  /\ exists d', pg_selectedDate (pageAfter (adminSession ++ [PickDay None])) = Some d'
                /\ (d' = july4 \/ PickDay None = PickDay (Some d')).
Proof.
  assert (Hd : pg_selectedDate (pageAfter adminSession) = Some july4)
    by (vm_compute; reflexivity).
  assert (Hne : PickDay None <> ClickSave) by discriminate.
  assert (H : act zod_email (pageAfter adminSession) (PickDay None)
              = Some (pageAfter (adminSession ++ [PickDay None])))
    by (vm_compute; reflexivity).
  exact (conj (conj Hd (conj Hne H))
           (selection_cleared_only_by_save zod_email _ _ (PickDay None) july4
              Hd Hne H)).
Defined.

Lemma booked_slots_leave_projection_witness :
  (200 <= 200 < 300
   /\ Forall validShift (shifts (addOrUpdateShift july4Shift scenarioState))
   /\ {| av_date := july4; av_providerType := adult |}
        ∈ availableShifts
            (shifts (onSubmit (HttpStatus 200) scenarioValues
                       (addOrUpdateShift july4Shift scenarioState))) None
   /\ toISOString july4 = Some (lit "2024-07-04T00:00:00.000Z"))
  /\ slotId (lit "2024-07-04T00:00:00.000Z") adult ∉ shiftDates scenarioValues.
Proof.
  assert (Hcode : 200 <= 200 < 300) by lia.
  assert (Hv : Forall validShift (shifts (addOrUpdateShift july4Shift scenarioState)))
    by (apply upsert_valid; [exact scenarioStore_valid | exact july4Shift_valid]).
  assert (Hin : {| av_date := july4; av_providerType := adult |}
                  ∈ availableShifts
                      (shifts (onSubmit (HttpStatus 200) scenarioValues
                                 (addOrUpdateShift july4Shift scenarioState))) None)
    by (vm_compute; apply list_elem_of_here).
  assert (Hiso : toISOString july4 = Some (lit "2024-07-04T00:00:00.000Z"))
    by (vm_compute; reflexivity).
  exact (conj (conj Hcode (conj Hv (conj Hin Hiso)))
           (booked_slots_leave_projection 200 scenarioValues
              (addOrUpdateShift july4Shift scenarioState) None
              {| av_date := july4; av_providerType := adult |}
              (lit "2024-07-04T00:00:00.000Z") Hcode Hv Hin Hiso)).
Defined.
